(** * google.genai._api_client: request engine, embedded and verified

    A shallow embedding of [src/google/genai/_api_client.py].  Python
    dictionaries with string keys and string values (header maps) are
    [gmap string string]; JSON-like bodies are ordered association lists
    of a [value] tree; exceptions are the [Raise] branch of [result];
    objects that the code mutates in place live in an explicit store. *)

From Stdlib Require Import ZArith QArith Qround List String Ascii Lia Bool DecimalString.
From stdpp Require Import gmap strings.

Set Warnings "-register-all".

Local Open Scope string_scope.
Local Open Scope Z_scope.

(** ** Exceptions and results *)

Inductive exn : Type :=
| ValueError (msg : string)
| EphemeralTokenAPIKeyError (msg : string)
| RuntimeError (msg : string)
| ValidationError
| JSONDecodeError
| UnicodeDecodeError
| RetryError
| TypeError
| APIError (code : Z).

Inductive result (A : Type) : Type :=
| Ok (a : A)
| Raise (e : exn).
Arguments Ok {A} a.
Arguments Raise {A} e.

Definition is_Ok {A} (r : result A) : bool :=
  match r with Ok _ => true | Raise _ => false end.

(** Sequencing of fallible steps: stdpp's [x ← e; k] on [result]. *)
#[global] Instance result_bind : MBind result :=
  fun A B (k : A -> result B) (r : result A) =>
    match r with Ok a => k a | Raise e => Raise e end.

(** ** Python string helpers *)

(** [s.startswith(p)] *)
Definition startswith (s p : string) : bool := String.prefix p s.

(** [p in s] for strings: substring test. *)
Definition str_in (p s : string) : bool :=
  match String.index 0 p s with Some _ => true | None => false end.

(** [s[1:]] *)
Definition drop_first (s : string) : string :=
  match s with EmptyString => EmptyString | String _ t => t end.

(** [s[:-1]] *)
Fixpoint drop_last (s : string) : string :=
  match s with
  | EmptyString => EmptyString
  | String c EmptyString => EmptyString
  | String c t => String c (drop_last t)
  end.

(** [s.endswith('/')] and friends, for a one-character suffix. *)
Fixpoint ends_with_char (c : ascii) (s : string) : bool :=
  match s with
  | EmptyString => false
  | String a EmptyString => Ascii.eqb a c
  | String _ t => ends_with_char c t
  end.

(** Truthiness of a Python [str]. *)
Definition str_truthy (s : string) : bool :=
  match s with EmptyString => false | _ => true end.

(** Truthiness of an [Optional[str]]. *)
Definition ostr_truthy (o : option string) : bool :=
  match o with Some s => str_truthy s | None => false end.

(** [a or b] on optional strings (a falsy [a] gives [b]). *)
Definition ostr_or (a b : option string) : option string :=
  if ostr_truthy a then a else b.

(** [str(n)] for an integer. *)
Definition str_of_Z (z : Z) : string :=
  DecimalString.NilZero.string_of_int (Z.to_int z).

(** ** JSON-like values

    Request bodies, [extra_body] and client arguments are dictionaries
    whose values are arbitrary JSON-like data.  Dictionaries keep their
    insertion order, so they are association lists. *)

Inductive value : Type :=
| VNone
| VBool (b : bool)
| VInt (z : Z)
| VStr (s : string)
| VList (l : list value)
| VDict (d : list (string * value)).

Abbreviation pydict := (list (string * value)).

Fixpoint dict_get (k : string) (d : pydict) : option value :=
  match d with
  | [] => None
  | (k', v) :: t => if String.eqb k k' then Some v else dict_get k t
  end.

(** [d[k] = v]: an existing key keeps its position, a new key goes last. *)
Fixpoint dict_set (k : string) (v : value) (d : pydict) : pydict :=
  match d with
  | [] => [(k, v)]
  | (k', v') :: t =>
      if String.eqb k k' then (k', v) :: t else (k', v') :: dict_set k v t
  end.

(** [del d[k]] for every [k] satisfying [p]. *)
Definition dict_del_where (p : string -> bool) (d : pydict) : pydict :=
  List.filter (fun kv => negb (p (fst kv))) d.

Definition dict_truthy (d : pydict) : bool :=
  match d with [] => false | _ => true end.

(** ** HttpOptions and the options merger *)

(** [types.HttpRetryOptions]; the delay fields are numbers of seconds,
    kept as exact rationals (they only feed the sleep between attempts). *)
Record HttpRetryOptions : Type := {
  attempts : option Z;
  initial_delay : option Q;
  max_delay : option Q;
  exp_base : option Q;
  jitter : option Q;
  http_status_codes : option (list Z)
}.

(** [types.HttpOptions], with the fields [HttpOptions.model_fields]
    enumerates: the ones this module reads. *)
Record HttpOptions : Type := {
  base_url : option string;
  api_version : option string;
  headers : option (gmap string string);
  timeout : option Z;
  client_args : option pydict;
  async_client_args : option pydict;
  extra_body : option pydict;
  retry_options : option HttpRetryOptions
}.

(** [HttpOptions()] *)
Definition HttpOptions_default : HttpOptions :=
  {| base_url := None; api_version := None; headers := None;
     timeout := None; client_args := None; async_client_args := None;
     extra_body := None; retry_options := None |}.

(** What the transport hands back for one HTTP exchange
    ([httpx.Response]): the status on the wire, the headers (httpx
    lower-cases the keys on lookup) and the body text. *)
Record WireResponse : Type := {
  wire_status : Z;
  wire_headers : gmap string string;
  wire_text : string
}.

(** The collaborators this module imports but does not define: the
    package version and interpreter version of the telemetry label,
    urllib's validation of bracketed or non-ASCII hosts, pydantic's
    [HttpOptions.model_validate], [json.dumps] and
    [errors.APIError.raise_for_response]. *)
Record Runtime : Type := {
  version__version__ : string;
  sys_version_first : string;
  netloc_valid : string -> bool;
  model_validate : pydict -> result HttpOptions;
  json_dumps : pydict -> string;
  raise_for_response : WireResponse -> option exn
}.

Definition version_header_value (rt : Runtime) : string :=
  ("google-genai-sdk/" +:+ version__version__ rt) +:+ " " +:+
  ("gl-python/" +:+ sys_version_first rt).

(** One of the two symmetric halves of [_append_library_version_headers]. *)
Definition append_label (label key : string) (h : gmap string string)
  : gmap string string :=
  match h !! key with
  | Some old =>
      if negb (str_in label old) then <[key := (label +:+ " ") +:+ old]> h
      else h
  | None => <[key := label]> h
  end.

Definition _append_library_version_headers (rt : Runtime)
    (h : gmap string string) : gmap string string :=
  let label := version_header_value rt in
  append_label label "x-goog-api-client" (append_label label "user-agent" h).

(** [patch_value if patch_value is not None else getattr(options, key)] *)
Definition patch_field {A} (patch base : option A) : option A :=
  match patch with Some v => Some v | None => base end.

Definition _patch_http_options (rt : Runtime)
    (options patch_options : HttpOptions) : HttpOptions :=
  let options_headers := default ∅ (headers options) in
  let patch_options_headers := default ∅ (headers patch_options) in
  (* {**options_headers, **patch_options_headers} *)
  let merged := patch_options_headers ∪ options_headers in
  {| base_url := patch_field (base_url patch_options) (base_url options);
     api_version :=
       patch_field (api_version patch_options) (api_version options);
     headers := Some (_append_library_version_headers rt merged);
     timeout := patch_field (timeout patch_options) (timeout options);
     client_args :=
       patch_field (client_args patch_options) (client_args options);
     async_client_args :=
       patch_field (async_client_args patch_options)
                   (async_client_args options);
     extra_body := patch_field (extra_body patch_options) (extra_body options);
     retry_options :=
       patch_field (retry_options patch_options) (retry_options options) |}.

(** ** urllib.parse, as far as [_join_url_path] uses it

    [urlparse], [_replace(path=...)] and [urlunparse] belong to the Python
    standard library.  They are transcribed from CPython's
    [urllib/parse.py] for [str] arguments and default parameters.  Python
    strings are represented by their UTF-8 bytes; every delimiter the
    parser looks for is ASCII, so positions of delimiters agree. *)

Record ParseResult : Type := {
  url_scheme : string;
  url_netloc : string;
  url_path : string;
  url_params : string;
  url_query : string;
  url_fragment : string
}.

(** [parsed._replace(path=p)] *)
Definition replace_path (u : ParseResult) (p : string) : ParseResult :=
  {| url_scheme := url_scheme u; url_netloc := url_netloc u; url_path := p;
     url_params := url_params u; url_query := url_query u;
     url_fragment := url_fragment u |}.

(** Split before the first character satisfying [p]; when there is none
    the second component is empty. *)
Fixpoint break_at (p : ascii -> bool) (s : string) : string * string :=
  match s with
  | EmptyString => (EmptyString, EmptyString)
  | String c t =>
      if p c then (EmptyString, s)
      else let '(a, b) := break_at p t in (String c a, b)
  end.

(** [c in s] for a character. *)
Fixpoint has_char (c : ascii) (s : string) : bool :=
  match s with
  | EmptyString => false
  | String a t => Ascii.eqb a c || has_char c t
  end.

Fixpoint str_forall (p : ascii -> bool) (s : string) : bool :=
  match s with
  | EmptyString => true
  | String a t => p a && str_forall p t
  end.

Fixpoint str_filter (p : ascii -> bool) (s : string) : string :=
  match s with
  | EmptyString => EmptyString
  | String a t => if p a then String a (str_filter p t) else str_filter p t
  end.

Fixpoint str_map (f : ascii -> ascii) (s : string) : string :=
  match s with
  | EmptyString => EmptyString
  | String a t => String (f a) (str_map f t)
  end.

(** [s.lstrip(chars)] with the set of characters given as a predicate. *)
Fixpoint lstrip_where (p : ascii -> bool) (s : string) : string :=
  match s with
  | EmptyString => EmptyString
  | String a t => if p a then lstrip_where p t else s
  end.

Definition code (c : ascii) : N := N_of_ascii c.

Definition is_upper (c : ascii) : bool := ((65 <=? code c) && (code c <=? 90))%N.
Definition is_lower (c : ascii) : bool := ((97 <=? code c) && (code c <=? 122))%N.
Definition is_digit (c : ascii) : bool := ((48 <=? code c) && (code c <=? 57))%N.
Definition is_ascii_alpha (c : ascii) : bool := is_upper c || is_lower c.

(** [c in scheme_chars] *)
Definition is_scheme_char (c : ascii) : bool :=
  is_ascii_alpha c || is_digit c
  || Ascii.eqb c "+" || Ascii.eqb c "-" || Ascii.eqb c ".".

Definition ascii_lower (c : ascii) : ascii :=
  if is_upper c then ascii_of_N (code c + 32) else c.

(** [_WHATWG_C0_CONTROL_OR_SPACE] *)
Definition is_c0_or_space (c : ascii) : bool := (code c <=? 32)%N.

(** [_UNSAFE_URL_BYTES_TO_REMOVE]: tab, carriage return, line feed. *)
Definition is_unsafe_url_byte (c : ascii) : bool :=
  ((code c =? 9) || (code c =? 13) || (code c =? 10))%N.

Definition uses_netloc : list string :=
  [""; "ftp"; "http"; "gopher"; "nntp"; "telnet"; "imap"; "wais"; "file";
   "mms"; "https"; "shttp"; "snews"; "prospero"; "rtsp"; "rtspu"; "rsync";
   "svn"; "svn+ssh"; "sftp"; "nfs"; "git"; "git+ssh"; "ws"; "wss"].

Definition uses_params : list string :=
  [""; "ftp"; "hdl"; "prospero"; "http"; "imap"; "https"; "shttp"; "rtsp";
   "rtspu"; "sip"; "sips"; "mms"; "sftp"; "tel"].

Definition str_mem (s : string) (l : list string) : bool :=
  existsb (String.eqb s) l.

(** [url[:2] == '//'] *)
Definition starts_double_slash (s : string) : bool := String.prefix "//" s.

Definition is_netloc_delim (c : ascii) : bool :=
  Ascii.eqb c "/" || Ascii.eqb c "?" || Ascii.eqb c "#".

(** The scheme step of [urlsplit]: the scheme found (lower-cased) and the
    rest of the URL, or no scheme and the URL unchanged. *)
Definition split_scheme (url : string) : string * string :=
  let '(pre, rest) := break_at (Ascii.eqb ":") url in
  match pre, rest with
  | String c0 _, String _ after =>
      if is_ascii_alpha c0 && str_forall is_scheme_char pre
      then (str_map ascii_lower pre, after)
      else (EmptyString, url)
  | _, _ => (EmptyString, url)
  end.

(** [url.split(c, 1)] when [c in url], else the URL and an empty tail. *)
Definition split_once (c : ascii) (url : string) : string * string :=
  let '(a, b) := break_at (Ascii.eqb c) url in (a, drop_first b).

Definition is_plain_netloc (n : string) : bool :=
  str_forall (fun c => (code c <? 128)%N
                       && negb (Ascii.eqb c "[") && negb (Ascii.eqb c "]")) n.

(** The netloc checks of [urlsplit]: unbalanced brackets raise; a host
    with brackets or non-ASCII characters goes through the library's
    IPv6 and NFKC validation, which [netloc_valid] stands for. *)
Definition check_netloc (rt : Runtime) (n : string) : result unit :=
  if xorb (has_char "[" n) (has_char "]" n)
  then Raise (ValueError "Invalid IPv6 URL")
  else if is_plain_netloc n then Ok tt
  else if netloc_valid rt n then Ok tt
  else Raise (ValueError "netloc failed validation").

(** [_splitparams(url)], called when [';' in url]. *)
Fixpoint rsplit_slash (s : string) : string * string :=
  match s with
  | EmptyString => (EmptyString, EmptyString)
  | String c t =>
      if has_char "/" t then
        let '(a, b) := rsplit_slash t in (String c a, b)
      else (EmptyString, s)
  end.

Definition _splitparams (url : string) : string * string :=
  if has_char "/" url then
    (* i = url.find(';', url.rfind('/')) *)
    let '(dir, last) := rsplit_slash url in
    if has_char ";" last then
      let '(a, b) := split_once ";" last in (dir +:+ a, b)
    else (url, EmptyString)
  else split_once ";" url.

(** The netloc step of [urlsplit]. *)
Definition split_netloc (rt : Runtime) (url : string)
  : result (string * string) :=
  if starts_double_slash url then
    let '(nl, rest) := break_at is_netloc_delim (drop_first (drop_first url)) in
    _ ← check_netloc rt nl; Ok (nl, rest)
  else Ok (EmptyString, url).

Definition urlparse (rt : Runtime) (url : string) : result ParseResult :=
  let url := lstrip_where is_c0_or_space url in
  let url := str_filter (fun c => negb (is_unsafe_url_byte c)) url in
  let '(sch, url) := split_scheme url in
  '(nl, url) ← split_netloc rt url;
  let '(url, frag) := split_once "#" url in
  let '(url, qry) := split_once "?" url in
  let '(url, prm) :=
    if str_mem sch uses_params && has_char ";" url
    then _splitparams url else (url, EmptyString) in
  Ok {| url_scheme := sch; url_netloc := nl; url_path := url;
        url_params := prm; url_query := qry; url_fragment := frag |}.

(** [urlunsplit], then [urlunparse]. *)
Definition urlunsplit (sch nl url qry frag : string) : string :=
  let url :=
    if str_truthy nl
       || (str_truthy sch && str_mem sch uses_netloc
           && negb (starts_double_slash url))
    then
      let url := if str_truthy url && negb (String.prefix "/" url)
                 then "/" +:+ url else url in
      ("//" +:+ nl) +:+ url
    else url in
  let url := if str_truthy sch then (sch +:+ ":") +:+ url else url in
  let url := if str_truthy qry then (url +:+ "?") +:+ qry else url in
  if str_truthy frag then (url +:+ "#") +:+ frag else url.

Definition urlunparse (u : ParseResult) : string :=
  let url := if str_truthy (url_params u)
             then (url_path u +:+ ";") +:+ url_params u else url_path u in
  urlunsplit (url_scheme u) (url_netloc u) url (url_query u) (url_fragment u).

Definition _join_url_path (rt : Runtime) (base_url path : string)
  : result string :=
  match urlparse rt base_url with
  | Raise e => Raise e
  | Ok parsed_base =>
      let base_path :=
        if ends_with_char "/" (url_path parsed_base)
        then drop_last (url_path parsed_base)
        else url_path parsed_base in
      let path := if startswith path "/" then drop_first path else path in
      Ok (urlunparse (replace_path parsed_base ((base_path +:+ "/") +:+ path)))
  end.

(** ** HttpRequest and HttpResponse *)

(** A reference to a dictionary object in the store. *)
Definition loc := positive.

(** [HttpRequest.data]: a dictionary (held by reference, as Python does)
    or raw bytes. *)
Inductive request_data : Type :=
| DataDict (l : loc)
| DataBytes (b : string).

Record HttpRequest : Type := {
  req_headers : gmap string string;
  req_url : string;
  req_method : string;
  req_data : request_data;
  req_timeout : option Q
}.

(** One item a live response yields from [iter_lines()]: text or bytes. *)
Inductive line : Type :=
| LStr (s : string)
| LBytes (b : string).

(** [HttpResponse.response_stream]: a list of buffered chunks, [None], or
    a live response, given by the lines it will yield. *)
Inductive response_stream_t : Type :=
| StreamList (chunks : list string)
| StreamNone
| StreamLive (lines : list line).

Record HttpResponse : Type := {
  status_code : Z;
  resp_headers : gmap string string;
  response_stream : response_stream_t;
  byte_stream : option (list string)
}.

(** [HttpResponse.__init__(headers, response_stream=None, byte_stream=None)] *)
Definition HttpResponse__init__ (headers : gmap string string)
    (response_stream : response_stream_t) (byte_stream : option (list string))
  : HttpResponse :=
  {| status_code := 200;
     resp_headers := headers;
     response_stream := response_stream;
     byte_stream := byte_stream |}.

(** What a generator produces: the items it yields, in order, and the
    exception that ends it, if one does. *)
Definition generated (A : Type) : Type := list A * option exn.

Definition yield_cons {A} (a : A) (g : generated A) : generated A :=
  (a :: fst g, snd g).

Section Segments.
  (** [json.loads] on a [str], and [bytes.decode('utf-8')]. *)
  Context {J : Type}.
  Variable json_loads : string -> result J.
  Variable empty_record : J.
  Variable decode_utf8 : string -> result string.

Definition line_truthy (chunk : line) : bool :=
    match chunk with LStr s | LBytes s => str_truthy s end.

  (** The text of a chunk: [chunk] itself, or [chunk.decode('utf-8')]. *)
Definition line_text (chunk : line) : result string :=
    match chunk with
    | LStr s => Ok s
    | LBytes b => decode_utf8 b
    end.

  (** [chunk[len('data: '):]] when [chunk.startswith('data: ')]. *)
Definition strip_data_prefix (chunk : string) : string :=
    if startswith chunk "data: "
    then String.substring 6 (String.length chunk - 6) chunk
    else chunk.

  (** The loop over [response_stream.iter_lines()]. *)
Fixpoint segments_live (lines : list line) : generated J :=
    match lines with
    | [] => ([], None)
    | chunk :: rest =>
        if line_truthy chunk then
          match line_text chunk with
          | Raise e => ([], Some e)
          | Ok text =>
              match json_loads (strip_data_prefix text) with
              | Raise e => ([], Some e)
              | Ok record => yield_cons record (segments_live rest)
              end
          end
        else segments_live rest
    end.

  (** The loop over a buffered list of chunks. *)
Fixpoint segments_list (chunks : list string) : generated J :=
    match chunks with
    | [] => ([], None)
    | chunk :: rest =>
        if str_truthy chunk then
          match json_loads chunk with
          | Raise e => ([], Some e)
          | Ok record => yield_cons record (segments_list rest)
          end
        else yield_cons empty_record (segments_list rest)
    end.

  (** [HttpResponse.segments] *)
Definition segments (self : HttpResponse) : generated J :=
    match response_stream self with
    | StreamList chunks => segments_list chunks
    | StreamNone => ([], None)
    | StreamLive lines => segments_live lines
    end.
End Segments.

(** ** Retry policy *)

Definition _RETRY_ATTEMPTS : Z := 3.
Definition _RETRY_INITIAL_DELAY : Q := 1.
Definition _RETRY_MAX_DELAY : Q := 120.
Definition _RETRY_EXP_BASE : Q := 2.
Definition _RETRY_JITTER : Q := 1.
Definition _RETRY_HTTP_STATUS_CODES : list Z := [408; 429; 500; 502; 503; 504].

(** Python's [a or b] on optional numbers and lists: a missing, zero or
    empty [a] gives [b]. *)
Definition Z_or (a : option Z) (b : Z) : Z :=
  match a with Some z => if z =? 0 then b else z | None => b end.

Definition Q_or (a : option Q) (b : Q) : Q :=
  match a with Some q => if (Qnum q =? 0) then b else q | None => b end.

Definition list_or {A} (a : option (list A)) (b : list A) : list A :=
  match a with Some (x :: l) => x :: l | _ => b end.

(** [tenacity.wait_exponential_jitter(initial, max, exp_base, jitter)] *)
Record WaitExponentialJitter : Type := {
  wait_initial : Q;
  wait_max : Q;
  wait_exp_base : Q;
  wait_jitter : Q
}.

(** The keyword arguments [_retry_args] builds for [tenacity.Retrying]:
    - [stop]: [stop_after_attempt(n)];
    - [retry]: [retry_if_result(lambda r: r.status_code in codes)], or
      absent, which leaves tenacity's default, retry on any exception;
    - [retry_error_callback]: whether the callback
      [lambda retry_state: retry_state.outcome.result()] is installed;
    - [wait]: the exponential back-off, or absent. *)
Record RetryArgs : Type := {
  stop : Z;
  retry : option (list Z);
  retry_error_callback : bool;
  wait : option WaitExponentialJitter
}.

Definition _retry_args (options : option HttpRetryOptions) : RetryArgs :=
  match options with
  | None =>
      {| stop := 1; retry := None; retry_error_callback := false;
         wait := None |}
  | Some options =>
      {| stop := Z_or (attempts options) _RETRY_ATTEMPTS;
         retry :=
           Some (list_or (http_status_codes options) _RETRY_HTTP_STATUS_CODES);
         retry_error_callback := true;
         wait :=
           Some {| wait_initial :=
                     Q_or (initial_delay options) _RETRY_INITIAL_DELAY;
                   wait_max := Q_or (max_delay options) _RETRY_MAX_DELAY;
                   wait_exp_base := Q_or (exp_base options) _RETRY_EXP_BASE;
                   wait_jitter := Q_or (jitter options) _RETRY_JITTER |} |}
  end.

(** What happens during one orchestrated call, in order. *)
Inductive retry_event (R : Type) : Type :=
| Attempt (outcome : result R)
| Sleep.
Arguments Attempt {R} outcome.
Arguments Sleep {R}.

Section Retrying.
  Context {S R : Type}.
  (** The status code a result carries, and the wrapped operation acting
      on the state of the world. *)
  Variable status_code_of : R -> Z.
  Variable fn : S -> S * result R.

  (** The retry predicate applied to the outcome of an attempt. *)
Definition should_retry (args : RetryArgs) (outcome : result R) : bool :=
    match retry args, outcome with
    | Some codes, Ok r => existsb (Z.eqb (status_code_of r)) codes
    | Some _, Raise _ => false
    | None, Ok _ => false
    | None, Raise _ => true
    end.

  (** When the stop condition holds after an attempt that asks for a
      retry: the callback returns the last outcome; without a callback
      and with [reraise=True] the last exception is raised again, and a
      last outcome that is a value raises the retry-exhaustion error. *)
Definition on_exhausted (args : RetryArgs) (outcome : result R) : result R :=
    if retry_error_callback args then outcome
    else match outcome with
         | Raise e => Raise e
         | Ok _ => Raise RetryError
         end.

  (** Modelled from the spec: the attempt loop of the retry orchestrator
      (the [tenacity.Retrying] object the client calls, which is not part
      of this module): execute; if the retry predicate accepts the outcome
      and attempts remain, sleep and retry; otherwise return the outcome.
      [remaining] counts the attempts still allowed after this one, so the
      stop condition [attempt_number >= stop] is [remaining = 0]. *)
Fixpoint attempt_loop (args : RetryArgs) (remaining : nat) (st : S)
    : S * list (retry_event R) * result R :=
    let '(st', outcome) := fn st in
    if should_retry args outcome then
      match remaining with
      | O => (st', [Attempt outcome], on_exhausted args outcome)
      | Datatypes.S n =>
          let '(st'', events, res) := attempt_loop args n st' in
          (st'', Attempt outcome :: Sleep :: events, res)
      end
    else (st', [Attempt outcome], outcome).

  (** The call [self._retry(fn, ...)] of the [tenacity.Retrying] object built
      from the retry arguments with [reraise=True]. *)
Definition Retrying__call__ (args : RetryArgs) (st : S)
    : S * list (retry_event R) * result R :=
    attempt_loop args (Z.to_nat (stop args - 1)) st.
End Retrying.

(** The state of the world after [k] runs of the operation. *)
Definition after_runs {S R} (fn : S -> S * result R) (k : nat) (st : S) : S :=
  Nat.iter k (fun s => fst (fn s)) st.

(** The number of times the wrapped operation ran. *)
Definition executions {R} (events : list (retry_event R)) : nat :=
  List.length (List.filter
    (fun e => match e with Attempt _ => true | Sleep => false end) events).

(** ** Credentials and environment *)

(** [google.auth.credentials.Credentials], as far as the client reads it. *)
Record Credentials : Type := {
  token : option string;
  expired : bool;
  quota_project_id : option string
}.

(** The process environment the initializer consults, and what
    [google.auth.default] would answer. *)
Record Env : Type := {
  GOOGLE_GENAI_USE_VERTEXAI : option string;
  GOOGLE_CLOUD_PROJECT : option string;
  GOOGLE_CLOUD_LOCATION : option string;
  GOOGLE_API_KEY : option string;
  GEMINI_API_KEY : option string;
  google_auth_default : result (Credentials * option string)
}.

(** Calls that leave the process. *)
Inductive effect : Type :=
| AuthDefault
| AuthRefresh
| HttpSend (method url : string).

Definition _get_env_api_key (env : Env) : option string :=
  let env_google_api_key := GOOGLE_API_KEY env in
  let env_gemini_api_key := GEMINI_API_KEY env in
  if ostr_truthy env_google_api_key then env_google_api_key
  else if ostr_truthy env_gemini_api_key then env_gemini_api_key
  else None.

(** [_load_auth(project=project)]: one call to [google.auth.default]. *)
Definition _load_auth (env : Env) (project : option string)
  : result (Credentials * option string) :=
  '(credentials, loaded_project_id) ← google_auth_default env;
  let project := if ostr_truthy project then project else loaded_project_id in
  if ostr_truthy project then Ok (credentials, project)
  else Raise (ValueError
    "Could not resolve project using application default credentials.").

(** ** The client *)

Inductive HttpOptionsOrDict : Type :=
| AsHttpOptions (o : HttpOptions)
| AsDict (d : pydict).

(** Truthiness of an [Optional[HttpOptionsOrDict]] argument: a model
    object is truthy, a dictionary is truthy when it is not empty. *)
Definition http_options_truthy (o : option HttpOptionsOrDict) : bool :=
  match o with
  | Some (AsHttpOptions _) => true
  | Some (AsDict d) => dict_truthy d
  | None => false
  end.

Definition obool_truthy (o : option bool) : bool :=
  match o with Some b => b | None => false end.

Definition is_some {A} (o : option A) : bool :=
  match o with Some _ => true | None => false end.

(** How an f-string prints an [Optional[str]]. *)
Definition fmt_ostr (o : option string) : string :=
  match o with Some s => s | None => "None" end.

(** White space as [str.strip()] sees it: the characters for which
    [str.isspace] holds.  In ASCII these are the bytes 9 to 13 and 28 to
    32. *)
Definition is_space (c : ascii) : bool :=
  (((9 <=? code c) && (code c <=? 13)) || ((28 <=? code c) && (code c <=? 32)))%N.

(** Beyond ASCII they are U+0085 and U+00A0, two bytes each in UTF-8
    (C2 85, C2 A0), *)
Definition is_space_2 (a b : ascii) : bool :=
  ((code a =? 194) && ((code b =? 133) || (code b =? 160)))%N.

(** and U+1680 (E1 9A 80), U+2000 to U+200A, U+2028, U+2029 and U+202F
    (E2 80 80 to E2 80 8A, E2 80 A8, E2 80 A9, E2 80 AF), U+205F
    (E2 81 9F) and U+3000 (E3 80 80), three bytes each. *)
Definition is_space_3 (a b c : ascii) : bool :=
  (((code a =? 225) && (code b =? 154) && (code c =? 128))
   || ((code a =? 226) && (code b =? 128)
       && (((128 <=? code c) && (code c <=? 138))
           || (code c =? 168) || (code c =? 169) || (code c =? 175)))
   || ((code a =? 226) && (code b =? 129) && (code c =? 159))
   || ((code a =? 227) && (code b =? 128) && (code c =? 128)))%N.

(** The bytes of exactly one white space character. *)
Definition is_space_char (s : string) : bool :=
  match s with
  | String a EmptyString => is_space a
  | String a (String b EmptyString) => is_space_2 a b
  | String a (String b (String c EmptyString)) => is_space_3 a b c
  | _ => false
  end.

(** [s.lstrip()] *)
Fixpoint lstrip_space (s : string) : string :=
  match s with
  | EmptyString => EmptyString
  | String a t =>
      if is_space a then lstrip_space t
      else
        match t with
        | EmptyString => s
        | String b t2 =>
            if is_space_2 a b then lstrip_space t2
            else
              match t2 with
              | EmptyString => s
              | String c t3 =>
                  if is_space_3 a b c then lstrip_space t3 else s
              end
        end
  end.

(** [s.rstrip()]: what is left of the tail is kept behind the first byte
    unless the two together are one white space character. *)
Fixpoint rstrip_space (s : string) : string :=
  match s with
  | EmptyString => EmptyString
  | String a t =>
      let r := String a (rstrip_space t) in
      if is_space_char r then EmptyString else r
  end.

(** [s.strip()] *)
Definition str_strip (s : string) : string :=
  rstrip_space (lstrip_space s).

Record BaseApiClient : Type := {
  vertexai : option bool;
  project : option string;
  location : option string;
  api_key : option string;
  _credentials : option Credentials;
  _http_options : HttpOptions;
  _retry : RetryArgs
}.

(** The part of the initializer that settles, in Vertex AI mode, which of
    project/location and API key survive. *)
Definition vertex_precedence (credentials : option Credentials)
    (api_key project location : option string)
    (env_api_key env_project env_location : option string)
    (self_project self_location self_api_key : option string)
  : option string * option string * option string :=
  if is_some credentials then (self_project, self_location, None)
  else if (ostr_truthy env_location || ostr_truthy env_project)
          && ostr_truthy api_key
  then (None, None, self_api_key)
  else if (ostr_truthy project || ostr_truthy location)
          && ostr_truthy env_api_key
  then (self_project, self_location, None)
  else if (ostr_truthy env_location || ostr_truthy env_project)
          && ostr_truthy env_api_key
  then (self_project, self_location, None)
  else (self_project, self_location, self_api_key).

(** The end of the initializer, shared by both modes: default headers,
    the API key header, the user's options and the retry object. *)
Definition finish_init (rt : Runtime) (vertexai : option bool)
    (project location api_key : option string)
    (credentials : option Credentials) (base_url api_version : string)
    (http_options : option HttpOptionsOrDict)
    (validated_http_options : HttpOptions) : BaseApiClient :=
  let headers0 : gmap string string :=
    {[ "Content-Type" := "application/json" ]} in
  let api_key' :=
    if ostr_truthy api_key then str_strip <$> api_key else api_key in
  let headers1 :=
    match api_key with
    | Some k => if str_truthy k then <["x-goog-api-key" := str_strip k]> headers0
                else headers0
    | None => headers0
    end in
  let opts0 :=
    {| base_url := Some base_url; api_version := Some api_version;
       headers := Some headers1; timeout := None; client_args := None;
       async_client_args := None; extra_body := None;
       retry_options := None |} in
  let opts :=
    if http_options_truthy http_options
    then _patch_http_options rt opts0 validated_http_options
    else {| base_url := Some base_url; api_version := Some api_version;
            headers := Some (_append_library_version_headers rt headers1);
            timeout := None; client_args := None; async_client_args := None;
            extra_body := None; retry_options := None |} in
  {| vertexai := vertexai; project := project; location := location;
     api_key := api_key'; _credentials := credentials;
     _http_options := opts; _retry := _retry_args (retry_options opts) |}.

(** [BaseApiClient.__init__]: the effects performed, then the client or
    the exception raised.  The client is the state the initializer has
    set when it comes to build its HTTP clients (the SSL contexts, the
    httpx clients and the aiohttp arguments of its last lines), a step
    that may still raise and that the record leaves out: [Ok] says what a
    constructed client holds, not that the construction ends well. *)
Definition BaseApiClient__init__ (rt : Runtime) (env : Env)
    (vertexai : option bool) (api_key : option string)
    (credentials : option Credentials) (project location : option string)
    (http_options : option HttpOptionsOrDict)
  : list effect * result BaseApiClient :=
  let vertexai :=
    match vertexai with
    | None =>
        let flag := str_map ascii_lower
                      (default "0" (GOOGLE_GENAI_USE_VERTEXAI env)) in
        if str_mem flag ["true"; "1"] then Some true else None
    | Some b => Some b
    end in
  (* Validate explicitly set initializer values. *)
  if (ostr_truthy project || ostr_truthy location) && ostr_truthy api_key then
    ([], Raise (ValueError
      "Project/location and API key are mutually exclusive in the client initializer."))
  else if is_some credentials && ostr_truthy api_key then
    ([], Raise (ValueError
      "Credentials and API key are mutually exclusive in the client initializer."))
  else
    let validated :=
      match http_options with
      | Some (AsDict d) =>
          match model_validate rt d with
          | Ok o => Ok o
          | Raise _ => Raise (ValueError "Invalid http_options")
          end
      | Some (AsHttpOptions o) => Ok o
      | None => Ok HttpOptions_default
      end in
    match validated with
    | Raise e => ([], Raise e)
    | Ok validated_http_options =>
        let env_project := GOOGLE_CLOUD_PROJECT env in
        let env_location := GOOGLE_CLOUD_LOCATION env in
        let env_api_key := _get_env_api_key env in
        let self_project := ostr_or project env_project in
        let self_location := ostr_or location env_location in
        let self_api_key := ostr_or api_key env_api_key in
        if obool_truthy vertexai then
          let '(self_project, self_location, self_api_key) :=
            vertex_precedence credentials api_key project location
              env_api_key env_project env_location
              self_project self_location self_api_key in
          let '(effects, loaded) :=
            if negb (ostr_truthy self_project) && negb (ostr_truthy self_api_key)
            then ([AuthDefault],
                  '(loaded_credentials, loaded_project) ← _load_auth env None;
                  Ok (if is_some credentials then credentials
                      else Some loaded_credentials, loaded_project))
            else ([], Ok (credentials, self_project)) in
          (effects,
           '(self_credentials, self_project) ← loaded;
           if negb ((ostr_truthy self_project && ostr_truthy self_location)
                    || ostr_truthy self_api_key)
           then Raise (ValueError
             "Project and location or API key must be set when using the Vertex AI API.")
           else
             let base_url :=
               if ostr_truthy self_api_key
                  || match self_location with
                     | Some l => String.eqb l "global"
                     | None => false
                     end
               then "https://aiplatform.googleapis.com/"
               else ("https://" +:+ fmt_ostr self_location)
                    +:+ "-aiplatform.googleapis.com/" in
             Ok (finish_init rt vertexai self_project self_location
                   self_api_key self_credentials base_url "v1beta1"
                   http_options validated_http_options))
        else
          if negb (ostr_truthy self_api_key) then
            ([], Raise (ValueError
              "Missing key inputs argument! To use the Google AI API, provide (`api_key`) arguments. To use the Google Cloud API, provide (`vertexai`, `project` & `location`) arguments."))
          else
            ([], Ok (finish_init rt vertexai self_project self_location
                       self_api_key credentials
                       "https://generativelanguage.googleapis.com/" "v1beta"
                       http_options validated_http_options))
    end.

(** ** Building a request *)

(** The dictionaries callers hand in are objects: the store maps their
    references to their current contents. *)
Abbreviation store := (gmap loc pydict).

(** Modelled from the spec: [_common.recursive_dict_update], which is not
    part of this module, deep-merges the update into the target: where
    both sides hold a dictionary under a key the merge descends, anywhere
    else the update's value replaces the target's. *)
Fixpoint deep_merge_value (target : option value) (update : value) : value :=
  match update with
  | VDict ud =>
      match target with
      | Some (VDict td) =>
          VDict ((fix merge (ud td : pydict) {struct ud} : pydict :=
                    match ud with
                    | [] => td
                    | (k, v) :: rest =>
                        merge rest
                          (dict_set k (deep_merge_value (dict_get k td) v) td)
                    end) ud td)
      | _ => update
      end
  | _ => update
  end.

Fixpoint recursive_dict_update (target_dict update_dict : pydict) : pydict :=
  match update_dict with
  | [] => target_dict
  | (key, v) :: rest =>
      recursive_dict_update
        (dict_set key (deep_merge_value (dict_get key target_dict) v)
           target_dict)
        rest
  end.

(** [_get_timeout_in_seconds]: milliseconds to seconds, as an exact
    rational.  The code divides by 1000.0 in floating point; for a
    timeout of fewer than 2^53 milliseconds the quotient it gets differs
    from the exact one by less than a thousandth of a second and has the
    same ceiling, which is all the server timeout header keeps of it. *)
Definition _get_timeout_in_seconds (timeout : option Z) : option Q :=
  match timeout with
  | Some t => if t =? 0 then None else Some (t # 1000)%Q
  | None => None
  end.

Definition Q_truthy (q : Q) : bool := negb (Qnum q =? 0).

(** [_populate_server_timeout_header] *)
Definition _populate_server_timeout_header (headers : gmap string string)
    (timeout_in_seconds : option Q) : gmap string string :=
  match timeout_in_seconds with
  | Some t =>
      if Q_truthy t && negb (is_some (headers !! "X-Server-Timeout"))
      then <["X-Server-Timeout" := str_of_Z (Qceiling t)]> headers
      else headers
  | None => headers
  end.

(** The options in force for one call: a fresh patched copy when the
    caller gives options, else the client's own options object. *)
Inductive patched : Type :=
| Fresh (o : HttpOptions)
| ClientOwn (o : HttpOptions).

Definition patched_options (p : patched) : HttpOptions :=
  match p with Fresh o | ClientOwn o => o end.

Definition patch_for_call (rt : Runtime) (self : BaseApiClient)
    (http_options : option HttpOptionsOrDict) : result patched :=
  if http_options_truthy http_options then
    match http_options with
    | Some (AsHttpOptions o) =>
        Ok (Fresh (_patch_http_options rt (_http_options self) o))
    | Some (AsDict d) =>
        o ← model_validate rt d;
        Ok (Fresh (_patch_http_options rt (_http_options self) o))
    | None => Ok (ClientOwn (_http_options self))
    end
  else Ok (ClientOwn (_http_options self)).

Definition set_headers (o : HttpOptions) (h : gmap string string)
  : HttpOptions :=
  {| base_url := base_url o; api_version := api_version o;
     headers := Some h; timeout := timeout o; client_args := client_args o;
     async_client_args := async_client_args o; extra_body := extra_body o;
     retry_options := retry_options o |}.

Definition set_http_options (self : BaseApiClient) (o : HttpOptions)
  : BaseApiClient :=
  {| vertexai := vertexai self; project := project self;
     location := location self; api_key := api_key self;
     _credentials := _credentials self; _http_options := o;
     _retry := _retry self |}.

(** The path actually requested: in Vertex AI mode without an API key,
    project and location are put in front unless the path already names
    a project or lists the base models. *)
Definition qualified_path (self : BaseApiClient) (http_method path : string)
  : string :=
  let query_vertex_base_models :=
    obool_truthy (vertexai self) && String.eqb http_method "get"
    && startswith path "publishers/google/models" in
  if obool_truthy (vertexai self) && negb (startswith path "projects/")
     && negb query_vertex_base_models && negb (ostr_truthy (api_key self))
  then ((("projects/" +:+ fmt_ostr (project self)) +:+ "/locations/")
        +:+ fmt_ostr (location self) +:+ "/") +:+ path
  else path.

(** The path with the API version in front. *)
Definition versioned (patched_http_options : HttpOptions) (path : string)
  : string :=
  match api_version patched_http_options with
  | None => "/" +:+ path
  | Some v => (v +:+ "/") +:+ path
  end.

(** The message of the ephemeral-token rejection. *)
Definition ephemeral_error : exn :=
  EphemeralTokenAPIKeyError
    "Ephemeral tokens can only be used with the live API.".

(** [BaseApiClient._build_request].  [request_dict] is the reference of
    the caller's dictionary; the result is the store and the client after
    the call, and the request built or the exception raised. *)
Definition _build_request (rt : Runtime) (self : BaseApiClient)
    (http_method path : string) (request_dict : loc)
    (http_options : option HttpOptionsOrDict) (σ : store)
  : store * BaseApiClient * result HttpRequest :=
  (* Remove all special dict keys such as _url and _query. *)
  let σ := alter (dict_del_where (fun key => startswith key "_"))
             request_dict σ in
  match patch_for_call rt self http_options with
  | Raise e => (σ, self, Raise e)
  | Ok p =>
      let patched_http_options := patched_options p in
      let path := qualified_path self http_method path in
      let versioned_path := versioned patched_http_options path in
      if negb (ostr_truthy (base_url patched_http_options)) then
        (σ, self, Raise (ValueError "Base URL must be set."))
      else
        let base_url := default "" (base_url patched_http_options) in
        let σ :=
          match extra_body patched_http_options with
          | Some eb =>
              if dict_truthy eb
              then alter (fun d => recursive_dict_update d eb) request_dict σ
              else σ
          | None => σ
          end in
        match _join_url_path rt base_url versioned_path with
        | Raise e => (σ, self, Raise e)
        | Ok url =>
            if ostr_truthy (api_key self)
               && startswith (default "" (api_key self)) "auth_tokens/"
            then (σ, self, Raise ephemeral_error)
            else
              let timeout_in_seconds :=
                _get_timeout_in_seconds (timeout patched_http_options) in
              match headers patched_http_options with
              | None =>
                  (σ, self, Raise (ValueError "Request headers must be set."))
              | Some h =>
                  let h := _populate_server_timeout_header h
                             timeout_in_seconds in
                  let self :=
                    match p with
                    | Fresh _ => self
                    | ClientOwn o => set_http_options self (set_headers o h)
                    end in
                  (σ, self,
                   Ok {| req_headers := h; req_url := url;
                         req_method := http_method;
                         req_data := DataDict request_dict;
                         req_timeout := timeout_in_seconds |})
              end
        end
  end.

(** ** Transport, retried requests and resumable upload *)

(** What is handed to the HTTP backend for one exchange. *)
Record WireRequest : Type := {
  w_method : string;
  w_url : string;
  w_headers : gmap string string;
  w_content : option string;
  w_timeout : option Q
}.

(** [response.headers.get('x-goog-upload-status')] *)
Definition upload_status (response : WireResponse) : option string :=
  wire_headers response !! "x-goog-upload-status".

Definition CHUNK_SIZE_8MB : Z := 8 * 1024 * 1024.
Definition MAX_RETRY_COUNT : nat := 3.
Definition INITIAL_RETRY_DELAY : Z := 1.
Definition DELAY_MULTIPLIER : Z := 2.

(** What an upload does, in order: exchanges and sleeps (in seconds). *)
Inductive upload_event : Type :=
| Post (request : WireRequest) (response : WireResponse)
| SleepFor (seconds : Z).

(** The two protocol violations an upload reports. *)
Definition all_content_error : exn :=
  ValueError
    "All content has been uploaded, but the upload status is not finalized.".

Definition not_finalized_error : exn :=
  ValueError "Failed to upload file: Upload status is not finalized.".

(** How the chunk loop is left. *)
Inductive loop_exit : Type :=
| Break (response : WireResponse)
| Raised (e : exn).

(** [file.read(n)] on the bytes not read yet: the chunk and what is left. *)
Fixpoint str_take (n : nat) (s : string) : string :=
  match n, s with
  | Datatypes.S n, String c t => String c (str_take n t)
  | _, _ => EmptyString
  end.

Fixpoint str_drop (n : nat) (s : string) : string :=
  match n, s with
  | Datatypes.S n, String _ t => str_drop n t
  | _, _ => s
  end.

Definition file_read (n : Z) (file : string) : string * string :=
  (str_take (Z.to_nat n) file, str_drop (Z.to_nat n) file).

(** The timeout an upload uses: the call's options when given, else the
    client's; a missing value falls back to the client's. *)
Definition upload_timeout (self : BaseApiClient)
    (http_options : option HttpOptionsOrDict) : option Z :=
  let t :=
    if http_options_truthy http_options then
      match http_options with
      | Some (AsDict d) =>
          match dict_get "timeout" d with Some (VInt t) => Some t | _ => None end
      | Some (AsHttpOptions o) => timeout o
      | None => timeout (_http_options self)
      end
    else timeout (_http_options self) in
  match t with
  | None => timeout (_http_options self)
  | Some t => Some t
  end.

Definition upload_headers (upload_command : string) (offset chunk_size : Z)
    (timeout_in_seconds : option Q) : gmap string string :=
  _populate_server_timeout_header
    (<["Content-Length" := str_of_Z chunk_size]>
       (<["X-Goog-Upload-Offset" := str_of_Z offset]>
          {[ "X-Goog-Upload-Command" := upload_command ]}))
    timeout_in_seconds.

(** The POST of one chunk read at [offset]: the command is
    'upload, finalize' for the last chunk, 'upload' otherwise. *)
Definition chunk_request (upload_url : string) (upload_size : Z)
    (timeout_in_seconds : option Q) (file_chunk : string) (offset : Z)
  : WireRequest :=
  let chunk_size := Z.of_nat (String.length file_chunk) in
  let upload_command :=
    if upload_size <=? chunk_size + offset
    then "upload" +:+ ", finalize" else "upload" in
  {| w_method := "POST"; w_url := upload_url;
     w_headers := upload_headers upload_command offset chunk_size
                    timeout_in_seconds;
     w_content := Some file_chunk;
     w_timeout := timeout_in_seconds |}.

Section Transport.
  Context {Srv : Type}.
  (** The HTTP backend ([self._httpx_client.request]): one exchange against
      the state of the remote side.  A transport failure would raise out
      of the call; the backend here always answers. *)
  Variable httpx_request : Srv -> WireRequest -> Srv * WireResponse.
  Variable CHUNK_SIZE : Z.


  (** The inner loop [while retry_count < MAX_RETRY_COUNT]: the same POST
      is repeated while the answer carries no upload status.  [remaining]
      is [MAX_RETRY_COUNT - 1 - retry_count]. *)
Fixpoint post_chunk (remaining : nat) (retry_count : Z) (request : WireRequest)
      (srv : Srv) : Srv * list upload_event * WireResponse :=
    let '(srv, response) := httpx_request srv request in
    if ostr_truthy (upload_status response) then
      (srv, [Post request response], response)
    else
      let delay_seconds := INITIAL_RETRY_DELAY * DELAY_MULTIPLIER ^ retry_count in
      match remaining with
      | O => (srv, [Post request response; SleepFor delay_seconds], response)
      | Datatypes.S n =>
          let '(srv, events, last) :=
            post_chunk n (retry_count + 1) request srv in
          (srv, Post request response :: SleepFor delay_seconds :: events, last)
      end.

  (** The chunk loop [while True] of [_upload_fd], from a given offset.
      [None] when the fuel runs out before the loop is left. *)
Fixpoint upload_loop (fuel : nat) (upload_url : string) (upload_size : Z)
      (timeout_in_seconds : option Q) (file : string) (offset : Z) (srv : Srv)
    : Srv * list upload_event * option loop_exit :=
    match fuel with
    | O => (srv, [], None)
    | Datatypes.S fuel =>
        let '(file_chunk, file) := file_read CHUNK_SIZE file in
        let chunk_size := Z.of_nat (String.length file_chunk) in
        let request :=
          chunk_request upload_url upload_size timeout_in_seconds
            file_chunk offset in
        let '(srv, events, response) :=
          post_chunk (MAX_RETRY_COUNT - 1) 0 request srv in
        let offset := offset + chunk_size in
        if negb (bool_decide (upload_status response = Some "active")) then
          (srv, events, Some (Break response))
        else if upload_size <=? offset then
          (srv, events, Some (Raised all_content_error))
        else
          let '(srv, more, exit) :=
            upload_loop fuel upload_url upload_size timeout_in_seconds
              file offset srv in
          (srv, (events ++ more)%list, exit)
    end.

  (** [BaseApiClient._upload_fd] *)
Definition _upload_fd (fuel : nat) (self : BaseApiClient) (file : string)
      (upload_url : string) (upload_size : Z)
      (http_options : option HttpOptionsOrDict) (srv : Srv)
    : Srv * list upload_event * option (result HttpResponse) :=
    let timeout_in_seconds :=
      _get_timeout_in_seconds (upload_timeout self http_options) in
    let '(srv, events, exit) :=
      upload_loop fuel upload_url upload_size timeout_in_seconds file 0 srv in
    (srv, events,
     match exit with
     | None => None
     | Some (Raised e) => Some (Raise e)
     | Some (Break response) =>
         if negb (bool_decide (upload_status response = Some "final")) then
           Some (Raise not_finalized_error)
         else
           Some (Ok (HttpResponse__init__ (wire_headers response)
                       (StreamList [wire_text response]) None))
     end).
End Transport.

Definition set_credentials (self : BaseApiClient) (c : option Credentials)
    (p : option string) : BaseApiClient :=
  {| vertexai := vertexai self; project := p; location := location self;
     api_key := api_key self; _credentials := c;
     _http_options := _http_options self; _retry := _retry self |}.

(** [self._credentials.expired or not self._credentials.token] *)
Definition needs_refresh (c : Credentials) : bool :=
  expired c || negb (ostr_truthy (token c)).

Section Requests.
  Context {Srv : Type}.
  Variable httpx_request : Srv -> WireRequest -> Srv * WireResponse.
  (** The lines a live response yields, [credentials.refresh(Request())]
      on the credentials object, and the other collaborators. *)
  Variable iter_lines : WireResponse -> list line.
  Variable refresh : Credentials -> result Credentials.
  Variable rt : Runtime.
  Variable env : Env.

  (** [BaseApiClient._access_token], run by one caller alone (the whole
      body holds [_sync_auth_lock]). *)
Definition _access_token (self : BaseApiClient)
    : BaseApiClient * list effect * result string :=
    let '(self, effects, loaded) :=
      match _credentials self with
      | Some _ => (self, [], Ok tt)
      | None =>
          match _load_auth env (project self) with
          | Raise e => (self, [AuthDefault], Raise e)
          | Ok (c, p) =>
              (set_credentials self (Some c)
                 (if ostr_truthy (project self) then project self else p),
               [AuthDefault], Ok tt)
          end
      end in
    match loaded, _credentials self with
    | Raise e, _ => (self, effects, Raise e)
    | Ok _, None =>
        (self, effects,
         Raise (RuntimeError "Could not resolve API token from the environment"))
    | Ok _, Some c =>
        let '(effects, refreshed) :=
          if needs_refresh c then ((effects ++ [AuthRefresh])%list, refresh c)
          else (effects, Ok c) in
        match refreshed with
        | Raise e => (self, effects, Raise e)
        | Ok c =>
            let self := set_credentials self (Some c) (project self) in
            if negb (ostr_truthy (token c)) then
              (self, effects,
               Raise (RuntimeError
                 "Could not resolve API token from the environment"))
            else (self, effects, Ok (default "" (token c)))
        end
    end.

Definition data_truthy (σ : store) (d : request_data) : bool :=
    match d with
    | DataDict l => dict_truthy (default [] (σ !! l))
    | DataBytes b => str_truthy b
    end.

  (** The body put on the wire by [_request_once]. *)
Definition wire_body (vertex_oauth : bool) (σ : store) (d : request_data)
    : result (option string) :=
    if data_truthy σ d then
      match d with
      | DataDict l => Ok (Some (json_dumps rt (default [] (σ !! l))))
      | DataBytes b => if vertex_oauth then Raise TypeError else Ok (Some b)
      end
    else Ok None.

  (** [BaseApiClient._request_once]: the state is the remote side, the
      client (its credentials may be refreshed) and the request (its
      headers receive the authorization). *)
Definition _request_once (σ : store) (stream : bool)
      (st : Srv * BaseApiClient * HttpRequest)
    : (Srv * BaseApiClient * HttpRequest) * result HttpResponse :=
    let '(srv, self, http_request) := st in
    let vertex_oauth :=
      obool_truthy (vertexai self) && negb (ostr_truthy (api_key self)) in
    let '(self, authorized) :=
      if vertex_oauth then
        let '(self, _, tok) := _access_token self in
        (self,
         tok ← tok;
         let h := <["Authorization" := "Bearer " +:+ tok]>
                    (req_headers http_request) in
         Ok (match _credentials self with
             | Some c =>
                 match quota_project_id c with
                 | Some q => if str_truthy q
                             then <["x-goog-user-project" := q]> h else h
                 | None => h
                 end
             | None => h
             end))
      else (self, Ok (req_headers http_request)) in
    match authorized with
    | Raise e => ((srv, self, http_request), Raise e)
    | Ok h =>
        let http_request :=
          {| req_headers := h; req_url := req_url http_request;
             req_method := req_method http_request;
             req_data := req_data http_request;
             req_timeout := req_timeout http_request |} in
        match wire_body vertex_oauth σ (req_data http_request) with
        | Raise e => ((srv, self, http_request), Raise e)
        | Ok data =>
            let '(srv, response) :=
              httpx_request srv
                {| w_method := req_method http_request;
                   w_url := req_url http_request;
                   w_headers := h; w_content := data;
                   w_timeout := req_timeout http_request |} in
            ((srv, self, http_request),
             match raise_for_response rt response with
             | Some e => Raise e
             | None =>
                 Ok (HttpResponse__init__ (wire_headers response)
                       (if stream then StreamLive (iter_lines response)
                        else StreamList [wire_text response]) None)
             end)
        end
    end.

  (** [BaseApiClient._request]: the single attempt under the client's
      retry object. *)
Definition _request (σ : store) (self : BaseApiClient)
      (http_request : HttpRequest) (stream : bool) (srv : Srv)
    : (Srv * BaseApiClient * HttpRequest)
      * list (retry_event HttpResponse) * result HttpResponse :=
    Retrying__call__ status_code (_request_once σ stream) (_retry self)
      (srv, self, http_request).
End Requests.

(** ** A JSON decoder for examples

    [json.loads] belongs to the Python standard library; the stream
    decoder above takes it as a parameter.  For concrete streams the
    parameter is instantiated with this decoder of the JSON fragment made
    of objects, arrays, strings without escapes, integers and the three
    literals, on which it computes what [json.loads] computes. *)

Definition is_json_ws (c : ascii) : bool :=
  ((code c =? 32) || (code c =? 9) || (code c =? 10) || (code c =? 13))%N.

Fixpoint parse_digits (acc : Z) (s : string) : Z * string :=
  match s with
  | String c t =>
      if is_digit c then parse_digits (10 * acc + Z.of_N (code c - 48)) t
      else (acc, s)
  | EmptyString => (acc, s)
  end.

(** The digits of an integer: a single 0, or a digit from 1 to 9 and the
    digits that follow it (JSON allows no leading zero). *)
Definition parse_natural (s : string) : option (Z * string) :=
  match s with
  | String c t =>
      if Ascii.eqb c "0" then Some (0, t)
      else if is_digit c then Some (parse_digits 0 s)
      else None
  | EmptyString => None
  end.

Definition parse_int (s : string) : option (value * string) :=
  match s with
  | String "-" t =>
      match parse_natural t with
      | Some (n, rest) => Some (VInt (- n), rest)
      | None => None
      end
  | _ =>
      match parse_natural s with
      | Some (n, rest) => Some (VInt n, rest)
      | None => None
      end
  end.

(** The double-quote character. *)
Definition dquote : ascii := ascii_of_N 34.

(** The characters of a string literal after its opening quote. *)
Definition parse_string_body (s : string) : option (string * string) :=
  let '(body, rest) :=
    break_at (fun c => Ascii.eqb c dquote || Ascii.eqb c "\") s in
  match rest with
  | String c rest => if Ascii.eqb c dquote then Some (body, rest) else None
  | EmptyString => None
  end.

(** The three literals, then integers. *)
Definition parse_atom (s : string) : option (value * string) :=
  if String.prefix "true" s then
    Some (VBool true, String.substring 4 (String.length s - 4) s)
  else if String.prefix "false" s then
    Some (VBool false, String.substring 5 (String.length s - 5) s)
  else if String.prefix "null" s then
    Some (VNone, String.substring 4 (String.length s - 4) s)
  else parse_int s.

Fixpoint parse_value (fuel : nat) (s : string) : option (value * string) :=
  match fuel with
  | O => None
  | Datatypes.S fuel =>
      match lstrip_where is_json_ws s with
      | EmptyString => None
      | String c t =>
          if Ascii.eqb c "{" then
            match lstrip_where is_json_ws t with
            | String "}" rest => Some (VDict [], rest)
            | _ => parse_members fuel [] t
            end
          else if Ascii.eqb c "[" then
            match lstrip_where is_json_ws t with
            | String "]" rest => Some (VList [], rest)
            | _ => parse_elements fuel [] t
            end
          else if Ascii.eqb c dquote then
            match parse_string_body t with
            | Some (b, rest) => Some (VStr b, rest)
            | None => None
            end
          else parse_atom (String c t)
      end
  end
with parse_members (fuel : nat) (acc : pydict) (s : string)
  : option (value * string) :=
  match fuel with
  | O => None
  | Datatypes.S fuel =>
      match lstrip_where is_json_ws s with
      | EmptyString => None
      | String c t =>
          if Ascii.eqb c dquote then
            match parse_string_body t with
            | Some (k, rest) =>
                match lstrip_where is_json_ws rest with
                | String ":" rest =>
                    match parse_value fuel rest with
                    | Some (v, rest) =>
                        match lstrip_where is_json_ws rest with
                        | String "," rest =>
                            parse_members fuel (dict_set k v acc) rest
                        | String "}" rest =>
                            Some (VDict (dict_set k v acc), rest)
                        | _ => None
                        end
                    | None => None
                    end
                | _ => None
                end
            | None => None
            end
          else None
      end
  end
with parse_elements (fuel : nat) (acc : list value) (s : string)
  : option (value * string) :=
  match fuel with
  | O => None
  | Datatypes.S fuel =>
      match parse_value fuel s with
      | Some (v, rest) =>
          match lstrip_where is_json_ws rest with
          | String "," rest => parse_elements fuel (acc ++ [v])%list rest
          | String "]" rest => Some (VList (acc ++ [v])%list, rest)
          | _ => None
          end
      | None => None
      end
  end.

Definition json_loads_fragment (s : string) : result value :=
  match parse_value (Datatypes.S (String.length s)) s with
  | Some (v, rest) =>
      match lstrip_where is_json_ws rest with
      | EmptyString => Ok v
      | _ => Raise JSONDecodeError
      end
  | None => Raise JSONDecodeError
  end.

(** A piece of text between double quotes. *)
Definition quoted (s : string) : string :=
  String dquote (s +:+ String dquote EmptyString).

(** ** Concurrent access to the token

    [_access_token] (threads, [_sync_auth_lock]) and [_async_access_token]
    (coroutines, [_async_auth_lock]) run by several callers at once on one
    client.  Each caller is a small state machine over the points where
    another caller may run; the scheduler picks any caller at any step.
    The credentials object is resolved already; the clock does not move
    during the race.  The callers of one path are modelled first, with
    the lock of that path; then callers of both paths together, each
    taking the lock of its own path. *)

Module TokenRace.

Inductive path : Type :=
  | Blocking     (* _access_token *)
  | Suspending.  (* _async_access_token *)

  (** Where a caller stands. *)
Inductive pc : Type :=
  | Start
  | WaitLock
  | Locked
  | Refreshing
  | Returned (r : result string).

  (** What the callers share: the credentials object, the lock of the
      path, and the number of calls to [_refresh_auth] made so far. *)
Record shared : Type := {
    credentials : Credentials;
    lock_held : bool;
    refreshes : nat
  }.

Record system : Type := {
    world : shared;
    callers : list pc
  }.

  (** The end of both functions: raise when there is no token, else
      return it. *)
Definition token_result (c : Credentials) : result string :=
    if negb (ostr_truthy (token c))
    then Raise (RuntimeError "Could not resolve API token from the environment")
    else Ok (default "" (token c)).

  Section Step.
    (** [credentials.refresh(Request())]: the refreshed object, or the
        exception raised. *)
    Variable refresh : Credentials -> result Credentials.

    (** One step of one caller, or [None] when it cannot move (it waits
        for the lock, or it has returned). *)
Definition caller_step (p : path) (w : shared) (c : pc)
      : option (shared * pc) :=
      match c with
      | Start =>
          match p with
          | Blocking => Some (w, WaitLock)
          | Suspending =>
              (* the check outside the lock *)
              if needs_refresh (credentials w) then Some (w, WaitLock)
              else Some (w, Returned (token_result (credentials w)))
          end
      | WaitLock =>
          if lock_held w then None
          else Some ({| credentials := credentials w; lock_held := true;
                        refreshes := refreshes w |}, Locked)
      | Locked =>
          (* the check inside the lock *)
          if needs_refresh (credentials w) then
            Some ({| credentials := credentials w; lock_held := true;
                     refreshes := Datatypes.S (refreshes w) |}, Refreshing)
          else
            Some ({| credentials := credentials w; lock_held := false;
                     refreshes := refreshes w |},
                  Returned (token_result (credentials w)))
      | Refreshing =>
          match refresh (credentials w) with
          | Ok c' =>
              Some ({| credentials := c'; lock_held := false;
                       refreshes := refreshes w |},
                    Returned (token_result c'))
          | Raise e =>
              Some ({| credentials := credentials w; lock_held := false;
                       refreshes := refreshes w |}, Returned (Raise e))
          end
      | Returned _ => None
      end.

    (** The scheduler runs caller [i]; a caller that cannot move leaves
        the system as it is. *)
Definition schedule_one (p : path) (s : system) (i : nat) : system :=
      match callers s !! i with
      | Some c =>
          match caller_step p (world s) c with
          | Some (w, c') => {| world := w; callers := <[i := c']> (callers s) |}
          | None => s
          end
      | None => s
      end.

Definition run (p : path) (s : system) (schedule : list nat) : system :=
      fold_left (schedule_one p) schedule s.
  End Step.

  (** [n] callers enter while the token needs a refresh. *)
Definition race (c : Credentials) (n : nat) : system :=
    {| world := {| credentials := c; lock_held := false; refreshes := 0 |};
       callers := replicate n Start |}.

Definition has_returned (c : pc) : bool :=
    match c with Returned _ => true | _ => false end.

Definition returned_ok (c : pc) : bool :=
    match c with Returned (Ok _) => true | _ => false end.

Definition all_returned (s : system) : bool :=
    forallb has_returned (callers s).

  (** A caller between acquiring and releasing the lock. *)
Definition holds_lock (c : pc) : bool :=
    match c with Locked | Refreshing => true | _ => false end.

  (** What holds of every state the race reaches: the lock is held
      exactly while one caller is between acquire and release; while the
      token still needs a refresh, the refreshes made are those under
      way (none or one); once it does not, exactly one was made and none
      is under way; and a caller returns only a token, which it does only
      once the token is fresh. *)
Record invariant (s : system) : Prop := {
    inv_holder_locks :
      forall i c, callers s !! i = Some c -> holds_lock c = true ->
                  lock_held (world s) = true;
    inv_one_holder :
      forall i j ci cj,
        callers s !! i = Some ci -> callers s !! j = Some cj ->
        holds_lock ci = true -> holds_lock cj = true -> i = j;
    inv_lock_has_holder :
      lock_held (world s) = true ->
      exists i c, callers s !! i = Some c /\ holds_lock c = true;
    inv_stale :
      needs_refresh (credentials (world s)) = true ->
      (refreshes (world s) = 0%nat
       /\ forall i, callers s !! i <> Some Refreshing)
      \/ (refreshes (world s) = 1%nat
          /\ exists i, callers s !! i = Some Refreshing);
    inv_fresh :
      needs_refresh (credentials (world s)) = false ->
      refreshes (world s) = 1%nat
      /\ forall i, callers s !! i <> Some Refreshing;
    inv_returned :
      forall i r, callers s !! i = Some (Returned r) ->
                  needs_refresh (credentials (world s)) = false
                  /\ exists t, r = Ok t
  }.

  (** Four turns in a row take a caller from any point to its return,
      when nobody else holds the lock. *)
Definition finish (i : nat) : list nat := [i; i; i; i].

  (** Every caller finished in turn. *)
Definition finish_all (n : nat) : list nat := flat_map finish (seq 0 n).

  (** Credentials for examples: an expired token, and a refresh that
      installs a fresh one. *)
Definition stale_credentials : Credentials :=
    {| token := Some "old"; expired := true; quota_project_id := None |}.

Definition refresh_ok (c : Credentials) : result Credentials :=
    Ok {| token := Some "new"; expired := false;
          quota_project_id := quota_project_id c |}.

  (** A refresh that fails. *)
Definition refresh_down (c : Credentials) : result Credentials :=
    Raise (RuntimeError "refresh failed").

  (** Two callers enter together; the first wins the lock and refreshes
      while the second waits, then the second takes its turn. *)
Definition two_racing : list nat := [0; 1; 0; 1; 0; 0; 1; 1; 1]%nat.

  (** *** Callers of both paths

      The initializer creates two locks, [_sync_auth_lock] and
      [_async_auth_lock]; [_access_token] takes the first and
      [_async_access_token] the second.  Callers of both paths share the
      credentials, but a caller sees and takes only the lock of its own
      path. *)
Record client_state : Type := {
    shared_credentials : Credentials;
    sync_lock_held : bool;
    async_lock_held : bool;
    refresh_calls : nat;
    path_callers : list (path * pc)
  }.

  (** What a caller of path [p] sees of the client. *)
Definition view (p : path) (s : client_state) : shared :=
    {| credentials := shared_credentials s;
       lock_held := match p with
                    | Blocking => sync_lock_held s
                    | Suspending => async_lock_held s
                    end;
       refreshes := refresh_calls s |}.

  Section BothPaths.
    Variable refresh : Credentials -> result Credentials.

    (** The scheduler runs caller [i], which takes the step of its own
        path on what it sees; the lock of the other path stays as it
        is. *)
Definition schedule_caller (s : client_state) (i : nat) : client_state :=
      match path_callers s !! i with
      | Some (p, c) =>
          match caller_step refresh p (view p s) c with
          | Some (w, c') =>
              {| shared_credentials := credentials w;
                 sync_lock_held := match p with
                                   | Blocking => lock_held w
                                   | Suspending => sync_lock_held s
                                   end;
                 async_lock_held := match p with
                                    | Blocking => async_lock_held s
                                    | Suspending => lock_held w
                                    end;
                 refresh_calls := refreshes w;
                 path_callers := <[i := (p, c')]> (path_callers s) |}
          | None => s
          end
      | None => s
      end.

Definition run_callers (s : client_state) (schedule : list nat)
      : client_state :=
      fold_left schedule_caller schedule s.
  End BothPaths.

  (** Callers of the given paths enter while the token needs a refresh. *)
Definition race_of (c : Credentials) (paths : list path) : client_state :=
    {| shared_credentials := c; sync_lock_held := false;
       async_lock_held := false; refresh_calls := 0;
       path_callers := map (fun p => (p, Start)) paths |}.

  (** What the callers of path [p] make of the client when every caller
      is one of them. *)
Definition as_one_path (p : path) (s : client_state) : system :=
    {| world := view p s; callers := map snd (path_callers s) |}.

  (** A thread in [_access_token] takes its lock and starts to refresh;
      a coroutine in [_async_access_token] finds the token still expired,
      takes the other lock and starts to refresh as well; then both
      finish. *)
Definition thread_and_coroutine : list nat :=
    [0; 0; 0; 1; 1; 1; 0; 1]%nat.

End TokenRace.


(** ** Inputs for examples *)

Definition headers_ab : gmap string string := {[ "a" := "1"; "b" := "2" ]}.
Definition headers_bc : gmap string string := {[ "b" := "3"; "c" := "4" ]}.
Definition headers_abc : gmap string string :=
  {[ "a" := "1"; "b" := "3"; "c" := "4" ]}.

Definition with_headers (h : gmap string string) : HttpOptions :=
  set_headers HttpOptions_default h.

(** A runtime for examples: version labels of one release, hosts always
    valid, no dictionary accepted as options, no response refused. *)
Definition example_runtime : Runtime :=
  {| version__version__ := "1.27.0"; sys_version_first := "3.11.2";
     netloc_valid := fun _ => true;
     model_validate := fun _ => Raise ValidationError;
     json_dumps := fun _ => "{}";
     raise_for_response := fun _ => None |}.


(** ** Well-formed base URLs

    A base URL of the shape scheme://host/path, as the client's own base
    URLs are: a lower-case scheme, a plain non-empty host, and a path that
    is empty or starts with a slash and holds no query, fragment or
    parameter delimiter. *)

Definition url_scheme_ok (sch : string) : bool :=
  match sch with
  | String c _ =>
      is_ascii_alpha c
      && str_forall (fun c => is_scheme_char c && negb (is_upper c)) sch
  | EmptyString => false
  end.

Definition url_host_ok (nl : string) : bool :=
  str_truthy nl
  && str_forall (fun c => (code c <? 128)%N
                          && negb (Ascii.eqb c "[") && negb (Ascii.eqb c "]")
                          && negb (is_netloc_delim c)
                          && negb (is_unsafe_url_byte c)) nl.

Definition url_path_ok (bp : string) : bool :=
  match bp with
  | EmptyString => true
  | String c _ =>
      Ascii.eqb c "/"
      && str_forall (fun c => negb (Ascii.eqb c "?") && negb (Ascii.eqb c "#")
                              && negb (Ascii.eqb c ";")
                              && negb (is_unsafe_url_byte c)) bp
  end.

(** One trailing slash removed, when there is one; one leading slash
    removed, when there is one. *)
Definition without_trailing_slash (s : string) : string :=
  if ends_with_char "/" s then drop_last s else s.

Definition without_leading_slash (s : string) : string :=
  if startswith s "/" then drop_first s else s.

(** ** The stream decoder, as the specification words it

    Lines without content are skipped; of each other line the text is
    taken, the prefix stripped when present, and the rest decoded; the
    records come out in order until a line fails to decode. *)

Definition decode_line {J} (json_loads : string -> result J)
    (decode_utf8 : string -> result string) (chunk : line) : result J :=
  text ← line_text decode_utf8 chunk;
  json_loads (strip_data_prefix text).

Fixpoint collect {A} (outcomes : list (result A)) : generated A :=
  match outcomes with
  | [] => ([], None)
  | Ok a :: rest => yield_cons a (collect rest)
  | Raise e :: _ => ([], Some e)
  end.

Definition live_response (lines : list line) : HttpResponse :=
  HttpResponse__init__ ∅ (StreamLive lines) None.

(** The three lines of the example: two records and an empty line. *)
Definition example_lines : list line :=
  [ LStr ("data: {" +:+ quoted "a" +:+ ":1}");
    LStr EmptyString;
    LStr ("data: {" +:+ quoted "a" +:+ ":2}") ].

(** A wrapped operation for examples: the state counts the calls, and
    every call answers with status 503. *)
Definition always_503 (calls : nat) : nat * result Z :=
  (Datatypes.S calls, Ok 503).

Definition retry_three_times : HttpRetryOptions :=
  {| attempts := Some 3; initial_delay := None; max_delay := None;
     exp_base := None; jitter := None; http_status_codes := None |}.

(** An environment for examples: nothing set, no ambient credentials. *)
Definition empty_env : Env :=
  {| GOOGLE_GENAI_USE_VERTEXAI := None; GOOGLE_CLOUD_PROJECT := None;
     GOOGLE_CLOUD_LOCATION := None; GOOGLE_API_KEY := None;
     GEMINI_API_KEY := None;
     google_auth_default :=
       Raise (RuntimeError "no application default credentials") |}.

(** Upload servers for examples.  The state counts the POSTs received. *)
Definition upload_answer (wire : Z) (status : string) : WireResponse :=
  {| wire_status := wire;
     wire_headers := {[ "x-goog-upload-status" := status ]};
     wire_text := "{}" |}.

(** Answers 'active' to the first POST and 'final' afterwards. *)
Definition active_then_final (posts : nat) (_ : WireRequest)
  : nat * WireResponse :=
  (Datatypes.S posts,
   match posts with
   | O => upload_answer 200 "active"
   | _ => upload_answer 200 "final"
   end).

(** An answer without the upload status header. *)
Definition answer_without_status : WireResponse :=
  {| wire_status := 200; wire_headers := ∅; wire_text := "" |}.

(** Answers the first POST without an upload status, the second with
    'active' and every later one with 'final'. *)
Definition silent_then_active_then_final (posts : nat) (_ : WireRequest)
  : nat * WireResponse :=
  (Datatypes.S posts,
   match posts with
   | O => answer_without_status
   | Datatypes.S O => upload_answer 200 "active"
   | _ => upload_answer 200 "final"
   end).

(** Answers 'active' to every POST. *)
Definition always_active (posts : nat) (_ : WireRequest)
  : nat * WireResponse :=
  (Datatypes.S posts, upload_answer 200 "active").

(** Answers 'final' with the wire status 503. *)
Definition final_with_503 (posts : nat) (_ : WireRequest)
  : nat * WireResponse :=
  (Datatypes.S posts, upload_answer 503 "final").

(** A client in API-key mode, as the initializer leaves it. *)
Definition example_client : BaseApiClient :=
  finish_init example_runtime None None None (Some "key") None
    "https://generativelanguage.googleapis.com/" "v1beta" None
    HttpOptions_default.

(** ** The upload trace, as the specification words it *)

(** The requests of a trace, in order, and its last response. *)
Definition posts (events : list upload_event) : list WireRequest :=
  flat_map (fun e => match e with Post rq _ => [rq] | SleepFor _ => [] end)
    events.

Fixpoint last_response (events : list upload_event) : option WireResponse :=
  match events with
  | [] => None
  | e :: rest =>
      match last_response rest with
      | Some r => Some r
      | None => match e with Post _ r => Some r | SleepFor _ => None end
      end
  end.

(** The answers of a trace, in order. *)
Definition answers (events : list upload_event) : list WireResponse :=
  flat_map (fun e => match e with Post _ r => [r] | SleepFor _ => [] end)
    events.

(** An answer that carries no upload status. *)
Definition without_status (response : WireResponse) : bool :=
  negb (ostr_truthy (upload_status response)).

(** A request that carries the command 'upload, finalize'. *)
Definition finalizes (request : WireRequest) : bool :=
  bool_decide (w_headers request !! "X-Goog-Upload-Command"
               = Some "upload, finalize").

(** The requests of an upload, told from the answers it gets: the chunk
    read at the current offset goes out with that offset; an answer that
    carries an upload status moves the offset forward by the chunk's byte
    count, and the next chunk is read; an answer that carries none leaves
    chunk and offset as they are. *)
Fixpoint requests_for (upload_url : string) (upload_size : Z)
    (timeout_in_seconds : option Q) (CHUNK_SIZE : Z)
    (answers : list WireResponse) (file : string) (offset : Z)
  : list WireRequest :=
  match answers with
  | [] => []
  | response :: answers =>
      let '(file_chunk, rest) := file_read CHUNK_SIZE file in
      chunk_request upload_url upload_size timeout_in_seconds file_chunk offset
      :: (if without_status response
          then requests_for upload_url upload_size timeout_in_seconds
                 CHUNK_SIZE answers file offset
          else requests_for upload_url upload_size timeout_in_seconds
                 CHUNK_SIZE answers rest
                 (offset + Z.of_nat (String.length file_chunk)))
  end.

(** The requests of the first [k] chunks of a file read from [offset]:
    each chunk goes out with the current offset, and the offset advances
    by the number of bytes of the chunk. *)
Fixpoint expected_requests (upload_url : string) (upload_size : Z)
    (timeout_in_seconds : option Q) (CHUNK_SIZE : Z) (k : nat)
    (file : string) (offset : Z) : list WireRequest :=
  match k with
  | O => []
  | Datatypes.S k =>
      let '(file_chunk, file) := file_read CHUNK_SIZE file in
      chunk_request upload_url upload_size timeout_in_seconds file_chunk offset
      :: expected_requests upload_url upload_size timeout_in_seconds
           CHUNK_SIZE k file (offset + Z.of_nat (String.length file_chunk))
  end.

(** The offset after the first [k] chunks. *)
Fixpoint offset_after (CHUNK_SIZE : Z) (k : nat) (file : string) (offset : Z)
  : Z :=
  match k with
  | O => offset
  | Datatypes.S k =>
      let '(file_chunk, file) := file_read CHUNK_SIZE file in
      offset_after CHUNK_SIZE k file
        (offset + Z.of_nat (String.length file_chunk))
  end.

(** Each chunk request repeated as many times as it was POSTed. *)
Fixpoint repeated (counts : list nat) (requests : list WireRequest)
  : list WireRequest :=
  match counts, requests with
  | n :: counts, rq :: requests =>
      (replicate n rq ++ repeated counts requests)%list
  | _, _ => []
  end.

(** A client whose API key is an ephemeral token, a call's options that
    blank the base URL, and a store holding the caller's dictionary. *)
Definition ephemeral_client : BaseApiClient :=
  finish_init example_runtime None None None (Some "auth_tokens/abc") None
    "https://generativelanguage.googleapis.com/" "v1beta" None
    HttpOptions_default.

Definition blank_base_url : HttpOptions :=
  {| base_url := Some EmptyString; api_version := None; headers := None;
     timeout := None; client_args := None; async_client_args := None;
     extra_body := None; retry_options := None |}.

(** The extra body a build merges into the caller's dictionary: the one
    of the options in force, once the options of the call have validated
    and the base URL has been found set; nothing when the build fails
    before that point. *)
Definition merged_extra_body (rt : Runtime) (self : BaseApiClient)
    (http_options : option HttpOptionsOrDict) : pydict :=
  match patch_for_call rt self http_options with
  | Ok p =>
      if ostr_truthy (base_url (patched_options p))
      then default [] (extra_body (patched_options p))
      else []
  | Raise _ => []
  end.

(** Options of a call that blank the base URL and configure an extra
    body. *)
Definition blank_base_url_with (eb : pydict) : HttpOptions :=
  {| base_url := Some EmptyString; api_version := None; headers := None;
     timeout := None; client_args := None; async_client_args := None;
     extra_body := Some eb; retry_options := None |}.

Definition caller_dict : pydict :=
  [("_url", VDict [("model", VStr "m")]);
   ("contents", VList [VStr "hello"]);
   ("_query", VDict []);
   ("generationConfig", VDict [("temperature", VInt 1)])].

Definition caller_store : store := {[ 1%positive := caller_dict ]}.

Definition with_extra_body (eb : pydict) : HttpOptions :=
  {| base_url := None; api_version := None; headers := None;
     timeout := None; client_args := None; async_client_args := None;
     extra_body := Some eb; retry_options := None |}.

Definition example_extra_body : pydict :=
  [("generationConfig", VDict [("topK", VInt 5)]); ("labels", VStr "x")].

(** The two requests of the example upload: a file of ten bytes in
    chunks of six. *)
Definition example_rq1 : WireRequest :=
  chunk_request "https://upload" 10 None "012345" 0.

Definition example_rq2 : WireRequest :=
  chunk_request "https://upload" 10 None "6789" 6.

(** * Further functions of the module *)

(** ** The quotient in floating point

    [_get_timeout_in_seconds] divides the timeout by [1000.0]: Python
    converts the integer to the nearest binary64 number and divides in
    binary64, each step rounding to the nearest number, ties to even.
    Every binary64 number is a rational, so the quotient is told here as
    a rational. *)

(** [num / den] rounded to the nearest integer, a tie going to the even
    one ([num] not negative, [den] positive). *)
Definition round_half_even (num den : Z) : Z :=
  let q := num / den in
  match 2 * (num mod den) ?= den with
  | Lt => q
  | Gt => q + 1
  | Eq => if Z.even q then q else q + 1
  end.

(** 2^e <= n / d, for positive [n] and [d]. *)
Definition pow2_le (e n d : Z) : bool :=
  if 0 <=? e then 2 ^ e * d <=? n else d <=? n * 2 ^ (- e).

(** The binary exponent of the positive rational n / d: the [e] with
    2^e <= n / d < 2^(e + 1). *)
Definition binary_exponent (n d : Z) : Z :=
  let e := Z.log2 n - Z.log2 d in
  if pow2_le e n d then e else e - 1.

(** A binary64 number is a significand of at most 53 bits and an
    exponent: the pair (m, k) stands for m * 2^k.  The nearest one to a
    positive rational n / d, ties to even, as long as the exponent stays
    in range (neither overflow nor a subnormal result). *)
Definition binary64_nearest (n d : Z) : Z * Z :=
  let k := binary_exponent n d - 52 in
  (if 0 <=? k then round_half_even n (d * 2 ^ k)
   else round_half_even (n * 2 ^ (- k)) d,
   k).

(** Numerator and denominator of m * 2^k. *)
Definition float_ratio (f : Z * Z) : Z * Z :=
  let '(m, k) := f in
  if 0 <=? k then (m * 2 ^ k, 1) else (m, 2 ^ (- k)).

Definition float_value (f : Z * Z) : Q :=
  let '(n, d) := float_ratio f in n # Z.to_pos d.

(** [timeout / 1000.0] for an integer [timeout]: the integer becomes the
    nearest float (OverflowError, here [None], from 2^1024 on), which is
    divided by 1000 with the quotient rounded to the nearest float. *)
Definition int_truediv_1000 (timeout : Z) : option Q :=
  if timeout =? 0 then Some 0%Q
  else
    let '(n, d) := float_ratio (binary64_nearest (Z.abs timeout) 1) in
    if 2 ^ 1024 * d <=? n then None
    else
      let q := float_value (binary64_nearest n (d * 1000)) in
      Some (if timeout <? 0 then (- q)%Q else q).

(** ** Truthiness of values and optional dictionaries *)

Definition value_truthy (v : value) : bool :=
  match v with
  | VNone => false
  | VBool b => b
  | VInt z => negb (z =? 0)
  | VStr s => str_truthy s
  | VList l => match l with [] => false | _ => true end
  | VDict d => dict_truthy d
  end.

(** [d.get(k)]: [None] when the key is missing. *)
Definition dict_get_or_None (k : string) (d : pydict) : value :=
  default VNone (dict_get k d).

(** Truthiness of an [Optional[dict]]. *)
Definition odict_truthy (o : option pydict) : bool :=
  match o with Some d => dict_truthy d | None => false end.

(** ** SSL contexts of the HTTP clients *)

Section SslContext.
  (** The context [ssl.create_default_context(cafile=..., capath=...)]
      builds from the environment, and membership of a key in the
      parameters of [httpx.Client.__init__] and of
      [aiohttp.ClientSession._request]. *)
  Variable ssl_create_default_context : value.
  Variable httpx_parameter : string -> bool.
  Variable aiohttp_parameter : string -> bool.

  (** The nested [_maybe_set(args, ctx)] of both functions; [verify] is the
      key of the enclosing function, [is_parameter] its signature test. *)
Definition _maybe_set (verify : string) (is_parameter : string -> bool)
      (args : option pydict) (ctx : value) : pydict :=
    let args :=
      if negb (odict_truthy args)
         || negb (value_truthy (dict_get_or_None verify (default [] args)))
      then dict_set verify ctx (default [] args)
      else default [] args in
    (* Drop the args that the client does not use. *)
    dict_del_where (fun key => negb (is_parameter key)) args.

  (** [BaseApiClient._ensure_httpx_ssl_ctx]: the arguments of the sync and
      of the async client. *)
Definition _ensure_httpx_ssl_ctx (options : HttpOptions) : pydict * pydict :=
    let verify := "verify" in
    let args := client_args options in
    let async_args := async_client_args options in
    let ctx :=
      if odict_truthy args then dict_get_or_None verify (default [] args)
      else if odict_truthy async_args
           then dict_get_or_None verify (default [] async_args)
           else VNone in
    let ctx := if negb (value_truthy ctx) then ssl_create_default_context
               else ctx in
    (_maybe_set verify httpx_parameter args ctx,
     _maybe_set verify httpx_parameter async_args ctx).

  (** [BaseApiClient._ensure_aiohttp_ssl_ctx] *)
Definition _ensure_aiohttp_ssl_ctx (options : HttpOptions) : pydict :=
    let verify := "ssl" in
    let async_args := async_client_args options in
    let ctx :=
      if odict_truthy async_args
      then dict_get_or_None verify (default [] async_args)
      else VNone in
    let ctx := if negb (value_truthy ctx) then ssl_create_default_context
               else ctx in
    _maybe_set verify aiohttp_parameter async_args ctx.
End SslContext.

(** ** The websocket base URL *)

(** [parsed._replace(scheme=s)] *)
Definition replace_scheme (u : ParseResult) (s : string) : ParseResult :=
  {| url_scheme := s; url_netloc := url_netloc u; url_path := url_path u;
     url_params := url_params u; url_query := url_query u;
     url_fragment := url_fragment u |}.

(** [BaseApiClient._websocket_base_url].  [geturl()] is [urlunparse] of
    the parts.  Without a base URL, [urlparse(None)] answers with empty
    [bytes] parts, and putting them together with the [str] scheme raises
    [TypeError]. *)
Definition _websocket_base_url (rt : Runtime) (self : BaseApiClient)
  : result string :=
  match base_url (_http_options self) with
  | Some b =>
      url_parts ← urlparse rt b;
      Ok (urlunparse (replace_scheme url_parts "wss"))
  | None => Raise TypeError
  end.

(** ** The [json] property of a response *)

(** What [HttpResponse.json] gives: a value ([None] standing for the
    empty string the property returns for an empty body), an exception of
    the module's kinds, or the [IndexError] of indexing an empty list. *)
Inductive json_outcome (J : Type) : Type :=
| JsonOk (v : option J)
| JsonRaise (e : exn)
| JsonIndexError.
Arguments JsonOk {J} v.
Arguments JsonRaise {J} e.
Arguments JsonIndexError {J}.

(** [HttpResponse.json]: [self.response_stream[0]], decoded unless empty.
    [None] and a live response cannot be indexed. *)
Definition json {J : Type} (json_loads : string -> result J)
    (self : HttpResponse) : json_outcome J :=
  match response_stream self with
  | StreamList [] => JsonIndexError
  | StreamList (first :: _) =>
      if negb (str_truthy first) then JsonOk None
      else match json_loads first with
           | Ok v => JsonOk (Some v)
           | Raise e => JsonRaise e
           end
  | StreamNone => JsonRaise TypeError
  | StreamLive _ => JsonRaise TypeError
  end.

(** ** The suspend-capable token access, run by one caller alone *)

Section AsyncToken.
  Variable refresh : Credentials -> result Credentials.
  Variable env : Env.

  (** [BaseApiClient._async_access_token] with no other coroutine running:
      each check outside a lock is followed by the same check inside. *)
Definition _async_access_token (self : BaseApiClient)
    : BaseApiClient * list effect * result string :=
    let '(self, effects, loaded) :=
      if negb (is_some (_credentials self)) then
        (* async with self._async_auth_lock: *)
        if negb (is_some (_credentials self)) then
          match _load_auth env (project self) with
          | Raise e => (self, [AuthDefault], Raise e)
          | Ok (c, p) =>
              (set_credentials self (Some c)
                 (if negb (ostr_truthy (project self)) then p
                  else project self),
               [AuthDefault], Ok tt)
          end
        else (self, [], Ok tt)
      else (self, [], Ok tt) in
    match loaded with
    | Raise e => (self, effects, Raise e)
    | Ok _ =>
        match _credentials self with
        | Some c =>
            let '(effects, refreshed) :=
              if needs_refresh c then
                (* async with self._async_auth_lock: *)
                if needs_refresh c
                then ((effects ++ [AuthRefresh])%list, refresh c)
                else (effects, Ok c)
              else (effects, Ok c) in
            match refreshed with
            | Raise e => (self, effects, Raise e)
            | Ok c =>
                let self := set_credentials self (Some c) (project self) in
                if negb (ostr_truthy (token c)) then
                  (self, effects,
                   Raise (RuntimeError
                     "Could not resolve API token from the environment"))
                else (self, effects, Ok (default "" (token c)))
            end
        | None =>
            (self, effects,
             Raise (RuntimeError
               "Could not resolve API token from the environment"))
        end
    end.
End AsyncToken.

(** ** Calls: [request] and [download_file] *)

(** [types.HttpResponse], the response handed to the SDK's callers. *)
Record SdkHttpResponse : Type := {
  sdk_headers : gmap string string;
  sdk_body : string
}.

Section Calls.
  Context {Srv : Type}.
  Variable httpx_request : Srv -> WireRequest -> Srv * WireResponse.
  Variable iter_lines : WireResponse -> list line.
  Variable refresh : Credentials -> result Credentials.
  Variable rt : Runtime.
  Variable env : Env.

  (** [response.response_stream[0] if response.response_stream else ''] *)
Definition response_body (response : HttpResponse) : result string :=
    match response_stream response with
    | StreamList (first :: _) => Ok first
    | StreamList [] => Ok EmptyString
    | StreamNone => Ok EmptyString
    | StreamLive _ => Raise TypeError
    end.

  (** [BaseApiClient.request]: the store, the client and the remote side
      after the call, what the retry object did, and the response or the
      exception raised. *)
Definition request (self : BaseApiClient) (http_method path : string)
      (request_dict : loc) (http_options : option HttpOptionsOrDict)
      (σ : store) (srv : Srv)
    : store * BaseApiClient * Srv * list (retry_event HttpResponse)
      * result SdkHttpResponse :=
    let '(σ, self, built) :=
      _build_request rt self http_method path request_dict http_options σ in
    match built with
    | Raise e => (σ, self, srv, [], Raise e)
    | Ok http_request =>
        let '((srv, self, _), events, response) :=
          _request httpx_request iter_lines refresh rt env σ self
            http_request false srv in
        (σ, self, srv, events,
         response ← response;
         body ← response_body response;
         Ok {| sdk_headers := resp_headers response; sdk_body := body |})
    end.

  (** [BaseApiClient.download_file].  The request dictionary is a new,
      empty object; the exchange goes to the HTTP client directly.  The
      bytes [response.read()] gives are the body the transport holds. *)
Definition download_file (self : BaseApiClient) (path : string)
      (http_options : option HttpOptionsOrDict) (σ : store) (srv : Srv)
    : store * BaseApiClient * Srv * list WireRequest * result string :=
    let request_dict := fresh (dom σ) in
    let σ := <[request_dict := []]> σ in
    let '(σ, self, built) :=
      _build_request rt self "get" path request_dict http_options σ in
    match built with
    | Raise e => (σ, self, srv, [], Raise e)
    | Ok http_request =>
        let data :=
          if data_truthy σ (req_data http_request) then
            match req_data http_request with
            | DataDict l => Some (json_dumps rt (default [] (σ !! l)))
            | DataBytes b => Some b
            end
          else None in
        let wire :=
          {| w_method := req_method http_request;
             w_url := req_url http_request;
             w_headers := req_headers http_request;
             w_content := data;
             w_timeout := req_timeout http_request |} in
        let '(srv, response) := httpx_request srv wire in
        (σ, self, srv, [wire],
         match raise_for_response rt response with
         | Some e => Raise e
         | None => Ok (wire_text response)
         end)
    end.
End Calls.

(** ** The lock of the token access *)

Module TokenLock.
Import TokenRace.

  (** The discipline of the lock: it is held exactly while one caller is
      between acquiring and releasing it, and by one caller at most. *)
Record lock_discipline (s : system) : Prop := {
    ld_holder_locks :
      forall i c, callers s !! i = Some c -> holds_lock c = true ->
                  lock_held (world s) = true;
    ld_one_holder :
      forall i j ci cj,
        callers s !! i = Some ci -> callers s !! j = Some cj ->
        holds_lock ci = true -> holds_lock cj = true -> i = j;
    ld_lock_has_holder :
      lock_held (world s) = true ->
      exists i c, callers s !! i = Some c /\ holds_lock c = true
  }.

  (** Some caller can take a step. *)
Definition can_move (refresh : Credentials -> result Credentials) (p : path)
      (s : system) : Prop :=
    exists i c, callers s !! i = Some c
                /\ caller_step refresh p (world s) c <> None.

  (** With a valid token [c] nothing is refreshed and every caller that
      returns, returns it; on the suspend-capable path no caller gets as
      far as the lock. *)
Definition quiet (c : Credentials) (p : path) (s : system) : Prop :=
    credentials (world s) = c /\ refreshes (world s) = 0%nat
    /\ (p = Suspending -> lock_held (world s) = false)
    /\ forall i x, callers s !! i = Some x ->
         x <> Refreshing
         /\ (forall r, x = Returned r -> r = token_result c)
         /\ (p = Suspending -> x = Start \/ has_returned x = true).

  (** Credentials that hold a valid token. *)
Definition valid_credentials : Credentials :=
    {| token := Some "tok"; expired := false; quota_project_id := None |}.

End TokenLock.

(** ** More inputs for examples *)

(** Client arguments for the SSL examples: the names of a few parameters
    of the HTTP client, and a context object. *)
Definition example_parameter (key : string) : bool :=
  str_mem key ["verify"; "timeout"; "proxy"; "ssl"].

Definition example_context : value := VStr "default context".

Definition with_client_args (args async_args : option pydict) : HttpOptions :=
  {| base_url := None; api_version := None; headers := None;
     timeout := None; client_args := args; async_client_args := async_args;
     extra_body := None; retry_options := None |}.

Definition with_timeout (t : Z) : HttpOptions :=
  {| base_url := None; api_version := None; headers := None;
     timeout := Some t; client_args := None; async_client_args := None;
     extra_body := None; retry_options := None |}.

(** An environment that names an API key, and one that switches Vertex AI
    on and names project and location. *)
Definition env_with_key : Env :=
  {| GOOGLE_GENAI_USE_VERTEXAI := None; GOOGLE_CLOUD_PROJECT := None;
     GOOGLE_CLOUD_LOCATION := None; GOOGLE_API_KEY := Some "key";
     GEMINI_API_KEY := Some "other";
     google_auth_default :=
       Raise (RuntimeError "no application default credentials") |}.

(** The key of the environment written with white space around it: a
    no-break space (U+00A0, the bytes C2 A0) in front and a space behind. *)
Definition env_with_spaced_key : Env :=
  {| GOOGLE_GENAI_USE_VERTEXAI := None; GOOGLE_CLOUD_PROJECT := None;
     GOOGLE_CLOUD_LOCATION := None;
     GOOGLE_API_KEY :=
       Some (String (ascii_of_N 194) (String (ascii_of_N 160) "key "));
     GEMINI_API_KEY := None;
     google_auth_default :=
       Raise (RuntimeError "no application default credentials") |}.

Definition env_vertex : Env :=
  {| GOOGLE_GENAI_USE_VERTEXAI := Some "TRUE";
     GOOGLE_CLOUD_PROJECT := Some "my-project";
     GOOGLE_CLOUD_LOCATION := Some "us-central1"; GOOGLE_API_KEY := None;
     GEMINI_API_KEY := None;
     google_auth_default :=
       Raise (RuntimeError "no application default credentials") |}.

(** A client in Vertex AI mode with project and location. *)
Definition vertex_client : BaseApiClient :=
  finish_init example_runtime (Some true) (Some "my-project")
    (Some "us-central1") None None
    "https://us-central1-aiplatform.googleapis.com/" "v1beta1" None
    HttpOptions_default.

(** Servers for examples: one that never sends an upload status, and one
    that echoes the URL asked for. *)
Definition no_status (posts : nat) (_ : WireRequest) : nat * WireResponse :=
  (Datatypes.S posts,
   {| wire_status := 200; wire_headers := ∅; wire_text := EmptyString |}).

Definition echo_url (calls : nat) (rq : WireRequest) : nat * WireResponse :=
  (Datatypes.S calls,
   {| wire_status := 200; wire_headers := ∅; wire_text := w_url rq |}).

(** What a buffered chunk decodes to: the empty record when it is empty,
    else what the decoder makes of it, as it is. *)
Definition decode_chunk {J} (json_loads : string -> result J)
    (empty_record : J) (chunk : string) : result J :=
  if str_truthy chunk then json_loads chunk else Ok empty_record.

Definition buffered_response (headers : gmap string string)
    (chunks : list string) : HttpResponse :=
  HttpResponse__init__ headers (StreamList chunks) None.

(** A runtime whose [raise_for_response] raises for every status but 200,
    a client configured to retry three times, a server that always
    answers 503, and a request for examples. *)
Definition strict_runtime : Runtime :=
  {| version__version__ := "1.27.0"; sys_version_first := "3.11.2";
     netloc_valid := fun _ => true;
     model_validate := fun _ => Raise ValidationError;
     json_dumps := fun _ => "{}";
     raise_for_response :=
       fun r => if wire_status r =? 200 then None
                else Some (APIError (wire_status r)) |}.

Definition with_retry (o : HttpRetryOptions) : HttpOptions :=
  {| base_url := None; api_version := None; headers := None;
     timeout := None; client_args := None; async_client_args := None;
     extra_body := None; retry_options := Some o |}.

Definition retrying_client : BaseApiClient :=
  finish_init strict_runtime None None None (Some "key") None
    "https://generativelanguage.googleapis.com/" "v1beta"
    (Some (AsHttpOptions (with_retry retry_three_times)))
    (with_retry retry_three_times).

Definition server_503 (calls : nat) (_ : WireRequest) : nat * WireResponse :=
  (Datatypes.S calls,
   {| wire_status := 503; wire_headers := ∅; wire_text := "unavailable" |}).

Definition example_request : HttpRequest :=
  {| req_headers := ∅;
     req_url := "https://generativelanguage.googleapis.com/v1beta/models";
     req_method := "get"; req_data := DataDict 1%positive;
     req_timeout := None |}.

Definition no_lines (_ : WireResponse) : list line := [].

(** Whether the initializer runs in Vertex AI mode: the argument when it
    is given, else the switch of the environment. *)
Definition vertexai_in_force (env : Env) (vertexai : option bool) : option bool :=
  match vertexai with
  | None =>
      let flag := str_map ascii_lower
                    (default "0" (GOOGLE_GENAI_USE_VERTEXAI env)) in
      if str_mem flag ["true"; "1"] then Some true else None
  | Some b => Some b
  end.

(** The message of the initializer when no API key can be found. *)
Definition missing_key_error : exn :=
  ValueError
    "Missing key inputs argument! To use the Google AI API, provide (`api_key`) arguments. To use the Google Cloud API, provide (`vertexai`, `project` & `location`) arguments.".

(** The default headers of a client with the given API key. *)
Definition default_headers (rt : Runtime) (key : string) : gmap string string :=
  _append_library_version_headers rt
    (<["x-goog-api-key" := str_strip key]>
       {[ "Content-Type" := "application/json" ]}).

(** The base URL of a client in Vertex AI mode: the global endpoint with
    an API key or the location 'global', else the endpoint of the
    location. *)
Definition vertex_base_url (k l : option string) : string :=
  if ostr_truthy k
     || match l with Some l => String.eqb l "global" | None => false end
  then "https://aiplatform.googleapis.com/"
  else ("https://" +:+ fmt_ostr l) +:+ "-aiplatform.googleapis.com/".

(** ** What a build leaves behind *)

(** The store after a build: the special keys deleted, then the extra
    body merged in. *)
Definition store_after_build (p : patched) (request_dict : loc) (σ : store)
  : store :=
  let σ := alter (dict_del_where (fun key => startswith key "_"))
             request_dict σ in
  match extra_body (patched_options p) with
  | Some eb =>
      if dict_truthy eb
      then alter (fun d => recursive_dict_update d eb) request_dict σ
      else σ
  | None => σ
  end.

(** A client but for the extra body of its options. *)
Definition without_extra_body (self : BaseApiClient) : BaseApiClient :=
  set_http_options self
    {| base_url := base_url (_http_options self);
       api_version := api_version (_http_options self);
       headers := headers (_http_options self);
       timeout := timeout (_http_options self);
       client_args := client_args (_http_options self);
       async_client_args := async_client_args (_http_options self);
       extra_body := None;
       retry_options := retry_options (_http_options self) |}.

(** The client after a successful build. *)
Definition client_after_build (self : BaseApiClient) (p : patched)
    (h : gmap string string) : BaseApiClient :=
  match p with
  | Fresh _ => self
  | ClientOwn o => set_http_options self (set_headers o h)
  end.

(** A client configured with a timeout of five seconds, and a store for
    two calls. *)
Definition timeout_client : BaseApiClient :=
  finish_init example_runtime None None None (Some "key") None
    "https://generativelanguage.googleapis.com/" "v1beta"
    (Some (AsHttpOptions (with_timeout 5000))) (with_timeout 5000).

Definition two_dicts : store := {[ 1%positive := []; 2%positive := [] ]}.
(** * Properties *)

(** ** Options merger *)

Section OptionsMerger.
  Variable rt : Runtime.

Lemma append_label_other label key (h : gmap string string) k :
    k ≠ key -> append_label label key h !! k = h !! k.
  Proof.
    intros Hk. unfold append_label.
    destruct (h !! key) as [old|]; [destruct (negb (str_in label old))|];
      rewrite ?lookup_insert_ne; auto.
  Qed.

Lemma append_label_key label key (h : gmap string string) :
    append_label label key h !! key =
      Some match h !! key with
           | Some old => if str_in label old then old
                         else (label +:+ " ") +:+ old
           | None => label
           end.
  Proof.
    unfold append_label.
    destruct (h !! key) as [old|] eqn:E.
    - destruct (str_in label old); simpl; rewrite ?lookup_insert_eq; auto.
    - apply lookup_insert_eq.
  Qed.

  (** Outside the two telemetry keys the version labelling changes nothing. *)
Lemma append_library_version_headers_other (h : gmap string string) k :
    k ≠ "user-agent" -> k ≠ "x-goog-api-client" ->
    _append_library_version_headers rt h !! k = h !! k.
  Proof.
    intros H1 H2. unfold _append_library_version_headers.
    rewrite !append_label_other; auto.
  Qed.

Lemma lookup_merged (p b : gmap string string) k :
    (p ∪ b) !! k = match p !! k with Some v => Some v | None => b !! k end.
  Proof.
    rewrite lookup_union. destruct (p !! k), (b !! k); reflexivity.
  Qed.
End OptionsMerger.

(** C3, as stated, fails: for base headers {a:1,b:2} and override headers
    {b:3,c:4} the merged headers are not exactly {a:1,b:3,c:4}; the result
    also carries the telemetry entry under user-agent. *)
Lemma patch_http_options_headers_not_exact :
  (headers (_patch_http_options example_runtime
              (with_headers headers_ab) (with_headers headers_bc))
     ≫= (fun h => h !! "user-agent"))
  = Some "google-genai-sdk/1.27.0 gl-python/3.11.2"
  /\ headers_abc !! "user-agent" = None
  /\ headers (_patch_http_options example_runtime
                (with_headers headers_ab) (with_headers headers_bc))
     ≠ Some headers_abc.
Proof.
  assert (H : headers (_patch_http_options example_runtime
                (with_headers headers_ab) (with_headers headers_bc))
     ≫= (fun h => h !! "user-agent")
     = Some "google-genai-sdk/1.27.0 gl-python/3.11.2") by (vm_compute; reflexivity).
  split; [exact H|]. split; [vm_compute; reflexivity|].
  intros E. rewrite E in H. vm_compute in H. discriminate.
Qed.

(** C3, amended: the header maps merge key-wise with the override winning
    per key on every key except the two telemetry keys user-agent and
    x-goog-api-client, which always come out set (to the version label,
    put in front of a merged value that lacks it); for base headers
    {a:1,b:2} and override headers {b:3,c:4} the result is {a:1,b:3,c:4}
    plus those two entries; and every other field takes the override's
    value when it is not None and the base's value otherwise, field by
    field. *)
Theorem patch_http_options_merges (rt : Runtime) (options patch_options : HttpOptions) :
  let r := _patch_http_options rt options patch_options in
  let base_h := default ∅ (headers options) in
  let patch_h := default ∅ (headers patch_options) in
  let label := version_header_value rt in
  (exists h, headers r = Some h
     /\ (forall k, k ≠ "user-agent" -> k ≠ "x-goog-api-client" ->
           h !! k = match patch_h !! k with
                    | Some v => Some v
                    | None => base_h !! k
                    end)
     /\ (forall k, k = "user-agent" \/ k = "x-goog-api-client" ->
           h !! k = Some match (patch_h ∪ base_h) !! k with
                         | Some old => if str_in label old then old
                                       else (label +:+ " ") +:+ old
                         | None => label
                         end))
  /\ base_url r = match base_url patch_options with
                  | Some v => Some v | None => base_url options end
  /\ api_version r = match api_version patch_options with
                     | Some v => Some v | None => api_version options end
  /\ timeout r = match timeout patch_options with
                 | Some v => Some v | None => timeout options end
  /\ client_args r = match client_args patch_options with
                     | Some v => Some v | None => client_args options end
  /\ async_client_args r = match async_client_args patch_options with
                           | Some v => Some v
                           | None => async_client_args options end
  /\ extra_body r = match extra_body patch_options with
                    | Some v => Some v | None => extra_body options end
  /\ retry_options r = match retry_options patch_options with
                       | Some v => Some v | None => retry_options options end
  /\ headers (_patch_http_options rt (with_headers headers_ab)
                (with_headers headers_bc))
     = Some (<["x-goog-api-client" := label]>
               (<["user-agent" := label]> headers_abc)).
Proof.
  intros r base_h patch_h label.
  split; [|repeat split; reflexivity].
  eexists; split; [reflexivity|]. split.
  - intros k H1 H2.
    rewrite append_library_version_headers_other by assumption.
    apply lookup_merged.
  - intros k [-> | ->]; unfold _append_library_version_headers.
    + rewrite append_label_other by discriminate.
      apply append_label_key.
    + rewrite append_label_key.
      rewrite append_label_other by discriminate. reflexivity.
Qed.

(** ** URL joining *)

Ltac ascii_cases c :=
  destruct c as [[|] [|] [|] [|] [|] [|] [|] [|]];
  vm_compute; try reflexivity; try discriminate; try congruence.

Lemma str_app_cons x (a b : string) : String x a +:+ b = String x (a +:+ b).
Proof. reflexivity. Qed.

Lemma str_app_nil (b : string) : EmptyString +:+ b = b.
Proof. reflexivity. Qed.

Ltac sapp := rewrite ?str_app_cons, ?str_app_nil in *.

Lemma str_append_assoc (a b c : string) : (a +:+ b) +:+ c = a +:+ (b +:+ c).
Proof. induction a as [|x a IH]; sapp; [reflexivity | f_equal; exact IH]. Qed.

Lemma str_append_nil_r (a : string) : a +:+ EmptyString = a.
Proof. induction a as [|x a IH]; sapp; [reflexivity | f_equal; exact IH]. Qed.

Lemma str_forall_app p (a b : string) :
  str_forall p (a +:+ b) = str_forall p a && str_forall p b.
Proof.
  induction a as [|x a IH]; sapp; simpl; [reflexivity|].
  rewrite IH. now rewrite andb_assoc.
Qed.

Lemma str_forall_impl (p q : ascii -> bool) (s : string) :
  (forall c, p c = true -> q c = true) ->
  str_forall p s = true -> str_forall q s = true.
Proof.
  intros Hpq. induction s as [|x s IH]; simpl; [auto|].
  intros H. apply andb_true_iff in H as [H1 H2].
  rewrite (Hpq _ H1), (IH H2). reflexivity.
Qed.

Lemma str_filter_all p (s : string) :
  str_forall p s = true -> str_filter p s = s.
Proof.
  induction s as [|x s IH]; simpl; [auto|].
  intros H. apply andb_true_iff in H as [H1 H2].
  now rewrite H1, (IH H2).
Qed.

Lemma str_map_id f (s : string) :
  str_forall (fun c => Ascii.eqb (f c) c) s = true -> str_map f s = s.
Proof.
  induction s as [|x s IH]; simpl; [auto|].
  intros H. apply andb_true_iff in H as [H1 H2].
  apply Ascii.eqb_eq in H1. now rewrite H1, (IH H2).
Qed.

Lemma break_at_none p (a : string) :
  str_forall (fun c => negb (p c)) a = true ->
  break_at p a = (a, EmptyString).
Proof.
  induction a as [|x a IH]; simpl; [auto|].
  intros H. apply andb_true_iff in H as [H1 H2].
  apply negb_true_iff in H1. now rewrite H1, (IH H2).
Qed.

Lemma break_at_app p (a : string) c t :
  str_forall (fun c => negb (p c)) a = true -> p c = true ->
  break_at p (a +:+ String c t) = (a, String c t).
Proof.
  intros Ha Hc. induction a as [|x a IH]; sapp; simpl.
  - now rewrite Hc.
  - simpl in Ha. apply andb_true_iff in Ha as [H1 H2].
    apply negb_true_iff in H1. now rewrite H1, (IH H2).
Qed.

Lemma has_char_none c (s : string) :
  str_forall (fun a => negb (Ascii.eqb a c)) s = true -> has_char c s = false.
Proof.
  induction s as [|x s IH]; simpl; [auto|].
  intros H. apply andb_true_iff in H as [H1 H2].
  apply negb_true_iff in H1. now rewrite H1, (IH H2).
Qed.

Lemma ends_with_char_snoc c (s : string) :
  ends_with_char c (s +:+ String c EmptyString) = true.
Proof.
  induction s as [|x s IH]; sapp; simpl.
  - apply Ascii.eqb_refl.
  - destruct (s +:+ String c EmptyString) eqn:E; [|exact IH].
    destruct s; discriminate.
Qed.

Lemma drop_last_snoc c (s : string) :
  drop_last (s +:+ String c EmptyString) = s.
Proof.
  induction s as [|x s IH]; sapp; simpl; [reflexivity|].
  destruct (s +:+ String c EmptyString) eqn:E.
  - destruct s; discriminate.
  - now rewrite IH.
Qed.

Lemma scheme_char_not_colon c :
  is_scheme_char c && negb (is_upper c) = true ->
  negb (Ascii.eqb ":" c) = true.
Proof. ascii_cases c. Qed.

Lemma scheme_char_safe c :
  is_scheme_char c && negb (is_upper c) = true ->
  negb (is_unsafe_url_byte c) = true.
Proof. ascii_cases c. Qed.

Lemma scheme_char_lower c :
  is_scheme_char c && negb (is_upper c) = true ->
  Ascii.eqb (ascii_lower c) c = true.
Proof. ascii_cases c. Qed.

Lemma scheme_char_is c :
  is_scheme_char c && negb (is_upper c) = true -> is_scheme_char c = true.
Proof. ascii_cases c. Qed.

Lemma alpha_not_c0 c : is_ascii_alpha c = true -> is_c0_or_space c = false.
Proof. ascii_cases c. Qed.

Lemma split_scheme_found (sch rest : string) :
  url_scheme_ok sch = true ->
  split_scheme (sch +:+ String ":" rest) = (sch, rest).
Proof.
  intros Hs. unfold split_scheme.
  destruct sch as [|c0 sch']; [discriminate|].
  unfold url_scheme_ok in Hs. apply andb_true_iff in Hs as [Ha Hall].
  rewrite break_at_app.
  - rewrite Ha.
    rewrite (str_forall_impl _ _ _ scheme_char_is Hall). simpl andb. cbv iota.
    rewrite str_map_id; [reflexivity|].
    exact (str_forall_impl _ _ _ scheme_char_lower Hall).
  - exact (str_forall_impl _ (fun c => negb (Ascii.eqb ":" c)) _
             scheme_char_not_colon Hall).
  - reflexivity.
Qed.

Lemma host_char_facts c :
  (code c <? 128)%N && negb (Ascii.eqb c "[") && negb (Ascii.eqb c "]")
  && negb (is_netloc_delim c) && negb (is_unsafe_url_byte c) = true ->
  negb (is_netloc_delim c) = true
  /\ negb (is_unsafe_url_byte c) = true
  /\ negb (Ascii.eqb c "[") = true
  /\ negb (Ascii.eqb c "]") = true
  /\ (code c <? 128)%N && negb (Ascii.eqb c "[") && negb (Ascii.eqb c "]") = true.
Proof.
  destruct (code c <? 128)%N, (Ascii.eqb c "["), (Ascii.eqb c "]"),
    (is_netloc_delim c), (is_unsafe_url_byte c); simpl;
    intros H; try discriminate; repeat split; reflexivity.
Qed.

Lemma path_char_facts c :
  negb (Ascii.eqb c "?") && negb (Ascii.eqb c "#") && negb (Ascii.eqb c ";")
  && negb (is_unsafe_url_byte c) = true ->
  negb (Ascii.eqb c "?") = true /\ negb (Ascii.eqb c "#") = true
  /\ negb (Ascii.eqb c ";") = true /\ negb (is_unsafe_url_byte c) = true.
Proof.
  destruct (Ascii.eqb c "?"), (Ascii.eqb c "#"), (Ascii.eqb c ";"),
    (is_unsafe_url_byte c); simpl;
    intros H; try discriminate; repeat split; reflexivity.
Qed.

Lemma url_path_ok_chars (bp : string) :
  url_path_ok bp = true ->
  str_forall (fun c => negb (Ascii.eqb c "?") && negb (Ascii.eqb c "#")
                       && negb (Ascii.eqb c ";")
                       && negb (is_unsafe_url_byte c)) bp = true.
Proof.
  destruct bp as [|c t]; [reflexivity|]. unfold url_path_ok.
  intros H. now apply andb_true_iff in H as [_ H].
Qed.

Lemma split_once_none c (s : string) :
  str_forall (fun a => negb (Ascii.eqb a c)) s = true ->
  split_once c s = (s, EmptyString).
Proof.
  intros H. unfold split_once. rewrite break_at_none; [reflexivity|].
  eapply str_forall_impl; [|exact H]. intros a Ha. simpl.
  now rewrite Ascii.eqb_sym.
Qed.

Lemma break_netloc (nl bp : string) :
  url_host_ok nl = true -> url_path_ok bp = true ->
  break_at is_netloc_delim (nl +:+ bp) = (nl, bp).
Proof.
  intros Hn Hp. unfold url_host_ok in Hn. apply andb_true_iff in Hn as [_ Hn].
  assert (Hd : str_forall (fun c => negb (is_netloc_delim c)) nl = true).
  { eapply str_forall_impl; [|exact Hn]. intros c Hc.
    now apply host_char_facts in Hc. }
  destruct bp as [|c t].
  - rewrite str_append_nil_r. now apply break_at_none.
  - apply break_at_app; [exact Hd|].
    unfold url_path_ok in Hp. apply andb_true_iff in Hp as [Hc _].
    apply Ascii.eqb_eq in Hc. subst c. reflexivity.
Qed.

Lemma check_netloc_plain rt (nl : string) :
  url_host_ok nl = true -> check_netloc rt nl = Ok tt.
Proof.
  intros Hn. unfold url_host_ok in Hn. apply andb_true_iff in Hn as [_ Hn].
  unfold check_netloc.
  rewrite !has_char_none.
  - simpl. unfold is_plain_netloc.
    erewrite str_forall_impl; [reflexivity | | exact Hn].
    intros c Hc. now apply host_char_facts in Hc.
  - eapply str_forall_impl; [|exact Hn]. intros c Hc.
    now apply host_char_facts in Hc.
  - eapply str_forall_impl; [|exact Hn]. intros c Hc.
    now apply host_char_facts in Hc.
Qed.

Lemma prefix_nil (s : string) : String.prefix EmptyString s = true.
Proof. destruct s; reflexivity. Qed.

Lemma starts_double_slash_cons (s : string) :
  starts_double_slash (String "/" (String "/" s)) = true.
Proof. unfold starts_double_slash. simpl. apply prefix_nil. Qed.

Lemma split_netloc_found rt (nl bp : string) :
  url_host_ok nl = true -> url_path_ok bp = true ->
  split_netloc rt (String "/" (String "/" (nl +:+ bp))) = Ok (nl, bp).
Proof.
  intros Hn Hp. unfold split_netloc.
  rewrite starts_double_slash_cons. cbv iota.
  change (drop_first (drop_first (String "/" (String "/" (nl +:+ bp)))))
    with (nl +:+ bp).
  rewrite (break_netloc _ _ Hn Hp), (check_netloc_plain _ _ Hn). reflexivity.
Qed.

(** A well-formed base URL parses into its three parts. *)
Lemma urlparse_well_formed rt (sch nl bp : string) :
  url_scheme_ok sch = true -> url_host_ok nl = true -> url_path_ok bp = true ->
  urlparse rt (sch +:+ "://" +:+ nl +:+ bp) =
    Ok {| url_scheme := sch; url_netloc := nl; url_path := bp;
          url_params := EmptyString; url_query := EmptyString;
          url_fragment := EmptyString |}.
Proof.
  intros Hs Hn Hp. unfold urlparse.
  assert (Hsafe : str_forall (fun c => negb (is_unsafe_url_byte c))
                    (sch +:+ "://" +:+ nl +:+ bp) = true).
  { rewrite !str_forall_app.
    apply andb_true_iff; split;
      [|apply andb_true_iff; split; [|apply andb_true_iff; split]].
    - destruct sch as [|c0 s']; [discriminate|].
      unfold url_scheme_ok in Hs. apply andb_true_iff in Hs as [_ Hs].
      exact (str_forall_impl _ _ _ scheme_char_safe Hs).
    - reflexivity.
    - unfold url_host_ok in Hn. apply andb_true_iff in Hn as [_ Hn].
      eapply str_forall_impl; [|exact Hn]. intros c Hc.
      now apply host_char_facts in Hc.
    - eapply str_forall_impl; [|exact (url_path_ok_chars _ Hp)].
      intros c Hc. now apply path_char_facts in Hc. }
  assert (Hl : lstrip_where is_c0_or_space (sch +:+ "://" +:+ nl +:+ bp)
               = sch +:+ "://" +:+ nl +:+ bp).
  { destruct sch as [|c0 s']; [discriminate|]. sapp. simpl.
    unfold url_scheme_ok in Hs. apply andb_true_iff in Hs as [Ha _].
    now rewrite (alpha_not_c0 _ Ha). }
  rewrite Hl, (str_filter_all _ _ Hsafe).
  change (sch +:+ "://" +:+ nl +:+ bp)
    with (sch +:+ String ":" (String "/" (String "/" (nl +:+ bp)))).
  rewrite (split_scheme_found _ _ Hs), (split_netloc_found _ _ _ Hn Hp).
  unfold mbind, result_bind.
  pose proof (url_path_ok_chars _ Hp) as Hc.
  rewrite (split_once_none "#" bp), (split_once_none "?" bp).
  - rewrite (has_char_none ";" bp), andb_false_r; [reflexivity|].
    eapply str_forall_impl; [|exact Hc]. intros c H. now apply path_char_facts in H.
  - eapply str_forall_impl; [|exact Hc]. intros c H. now apply path_char_facts in H.
  - eapply str_forall_impl; [|exact Hc]. intros c H. now apply path_char_facts in H.
Qed.

Lemma url_scheme_ok_truthy (sch : string) :
  url_scheme_ok sch = true -> str_truthy sch = true.
Proof. destruct sch; [discriminate | reflexivity]. Qed.

Lemma url_host_ok_truthy (nl : string) :
  url_host_ok nl = true -> str_truthy nl = true.
Proof. unfold url_host_ok. intros H. now apply andb_true_iff in H as [H _]. Qed.

(** Putting a well-formed URL back together. *)
Lemma urlunparse_well_formed (sch nl rest : string) :
  url_scheme_ok sch = true -> url_host_ok nl = true ->
  urlunparse {| url_scheme := sch; url_netloc := nl;
                url_path := String "/" rest;
                url_params := EmptyString; url_query := EmptyString;
                url_fragment := EmptyString |}
  = sch +:+ "://" +:+ nl +:+ String "/" rest.
Proof.
  intros Hs Hn. unfold urlunparse, urlunsplit. cbn [url_params url_path
    url_scheme url_netloc url_query url_fragment str_truthy].
  rewrite (url_host_ok_truthy _ Hn), (url_scheme_ok_truthy _ Hs).
  cbn [orb andb]. cbv iota.
  replace (String.prefix "/" (String "/" rest)) with true
    by (simpl; now rewrite prefix_nil).
  cbn [negb]. cbv iota.
  rewrite !str_append_assoc. reflexivity.
Qed.

Lemma trailing_slash_stripped_path (bp rest : string) :
  url_path_ok bp = true ->
  exists y, without_trailing_slash bp +:+ String "/" rest = String "/" y.
Proof.
  intros Hp. unfold without_trailing_slash.
  destruct bp as [|c t]; [now exists rest|].
  unfold url_path_ok in Hp. apply andb_true_iff in Hp as [Hc _].
  apply Ascii.eqb_eq in Hc. subst c.
  destruct (ends_with_char "/" (String "/" t)).
  - destruct t as [|d t']; simpl drop_last.
    + now exists rest.
    + sapp. eexists. reflexivity.
  - sapp. eexists. reflexivity.
Qed.

(** What [_join_url_path] computes on a well-formed base URL. *)
Lemma join_url_path_well_formed rt (sch nl bp p : string) :
  url_scheme_ok sch = true -> url_host_ok nl = true -> url_path_ok bp = true ->
  _join_url_path rt (sch +:+ "://" +:+ nl +:+ bp) p =
    Ok (sch +:+ "://" +:+ nl +:+ without_trailing_slash bp +:+ "/"
        +:+ without_leading_slash p).
Proof.
  intros Hs Hn Hp. unfold _join_url_path.
  rewrite (urlparse_well_formed _ _ _ _ Hs Hn Hp).
  cbn [url_path]. fold (without_trailing_slash bp).
  fold (without_leading_slash p). unfold replace_path.
  cbn [url_scheme url_netloc url_params url_query url_fragment].
  rewrite str_append_assoc.
  change ("/" +:+ without_leading_slash p)
    with (String "/" (without_leading_slash p)).
  destruct (trailing_slash_stripped_path bp (without_leading_slash p) Hp)
    as [y Hy].
  rewrite Hy, (urlunparse_well_formed _ _ _ Hs Hn), <- Hy. reflexivity.
Qed.

Lemma url_path_ok_snoc (bp : string) :
  url_path_ok bp = true -> url_path_ok (bp +:+ "/") = true.
Proof.
  intros Hp. pose proof (url_path_ok_chars _ Hp) as Hc.
  destruct bp as [|c t]; [reflexivity|].
  unfold url_path_ok in Hp. apply andb_true_iff in Hp as [H0 _].
  sapp. unfold url_path_ok. rewrite H0.
  change (String c (t +:+ "/")) with (String c t +:+ "/").
  rewrite str_forall_app, Hc. reflexivity.
Qed.

Lemma without_trailing_slash_snoc (bp : string) :
  without_trailing_slash (bp +:+ "/") = bp.
Proof.
  unfold without_trailing_slash.
  now rewrite ends_with_char_snoc, drop_last_snoc.
Qed.

Lemma without_leading_slash_cons (p : string) :
  without_leading_slash (String "/" p) = p.
Proof.
  unfold without_leading_slash, startswith. simpl.
  now rewrite prefix_nil.
Qed.

(** C4, as stated, fails: the join does not always leave exactly one slash
    at the boundary.  A path that begins with two slashes, or a base URL
    that ends with two, keeps one of them next to the joining slash.  Nor
    is the result always the base URL, a slash and the path: the path is
    joined to the path component of the base URL, so a parameter, query
    or fragment of the base URL ends up behind it, and the scheme comes
    out in lower case. *)
Lemma join_url_path_counterexamples :
  _join_url_path example_runtime "https://h/" "//v1/x" = Ok "https://h//v1/x"
  /\ _join_url_path example_runtime "https://h//" "v1/x" = Ok "https://h//v1/x"
  /\ _join_url_path example_runtime "https://h/a;b" "x" = Ok "https://h/a/x;b"
  /\ _join_url_path example_runtime "https://h/api?k=v" "x"
     = Ok "https://h/api/x?k=v"
  /\ _join_url_path example_runtime "HTTPS://h/api" "x" = Ok "https://h/api/x".
Proof. repeat split; vm_compute; reflexivity. Qed.

(** C4, amended: for every base URL scheme://host/path whose scheme is in
    lower case ([url_scheme_ok]), whose host is not empty and holds only
    ASCII characters other than '/', '?', '#', '[', ']', tab, carriage
    return and line feed ([url_host_ok]), and whose path is empty or
    begins with a slash and holds no '?', '#', ';', tab, carriage return
    or line feed ([url_path_ok]), and for every path, [_join_url_path]
    removes one trailing slash from the base URL, when it ends with one,
    and one leading slash from the path, when it begins with one, and
    joins the two with one slash, dropping no segment.  So when the base
    URL does not end with two slashes and the path does not begin with
    two, exactly one slash stands at the boundary wherever the single
    slash was written; for any base URL at all a single leading slash on
    the path makes no difference; and join("https://h/","/v1/x"),
    join("https://h","v1/x") and join("https://h/","v1/x") all produce
    "https://h/v1/x". *)
Theorem join_url_path_single_slash (rt : Runtime) (sch nl bp p : string) :
  url_scheme_ok sch = true -> url_host_ok nl = true -> url_path_ok bp = true ->
  let b := sch +:+ "://" +:+ nl +:+ bp in
  _join_url_path rt b p =
    Ok (sch +:+ "://" +:+ nl +:+ without_trailing_slash bp +:+ "/"
        +:+ without_leading_slash p)
  /\ (ends_with_char "/" bp = false -> startswith p "/" = false ->
      _join_url_path rt b p = Ok (b +:+ "/" +:+ p)
      /\ _join_url_path rt (b +:+ "/") p = Ok (b +:+ "/" +:+ p)
      /\ _join_url_path rt b ("/" +:+ p) = Ok (b +:+ "/" +:+ p)
      /\ _join_url_path rt (b +:+ "/") ("/" +:+ p) = Ok (b +:+ "/" +:+ p))
  /\ (forall base_url,
        startswith p "/" = false ->
        _join_url_path rt base_url ("/" +:+ p) = _join_url_path rt base_url p)
  /\ _join_url_path rt "https://h/" "/v1/x" = Ok "https://h/v1/x"
  /\ _join_url_path rt "https://h" "v1/x" = Ok "https://h/v1/x"
  /\ _join_url_path rt "https://h/" "v1/x" = Ok "https://h/v1/x".
Proof.
  intros Hs Hn Hp b.
  assert (Hb : forall q, _join_url_path rt b q =
            Ok (sch +:+ "://" +:+ nl +:+ without_trailing_slash bp +:+ "/"
                +:+ without_leading_slash q))
    by (intros q; now apply join_url_path_well_formed).
  assert (Hb' : forall q, _join_url_path rt (b +:+ "/") q =
            Ok (sch +:+ "://" +:+ nl +:+ bp +:+ "/"
                +:+ without_leading_slash q)).
  { intros q. unfold b. rewrite !str_append_assoc.
    rewrite (join_url_path_well_formed rt sch nl (bp +:+ "/") q Hs Hn
               (url_path_ok_snoc _ Hp)).
    now rewrite without_trailing_slash_snoc. }
  split; [apply Hb|]. split; [|split].
  - intros He Hq.
    assert (Ebp : without_trailing_slash bp = bp)
      by (unfold without_trailing_slash; now rewrite He).
    assert (Ep : without_leading_slash p = p)
      by (unfold without_leading_slash; now rewrite Hq).
    change ("/" +:+ p) with (String "/" p).
    rewrite !Hb, !Hb', without_leading_slash_cons, Ebp, Ep.
    unfold b. rewrite !str_append_assoc. auto.
  - intros base_url Hq. unfold _join_url_path.
    change ("/" +:+ p) with (String "/" p).
    fold (without_leading_slash (String "/" p)).
    fold (without_leading_slash p).
    rewrite without_leading_slash_cons.
    unfold without_leading_slash. now rewrite Hq.
  - repeat split; vm_compute; reflexivity.
Qed.

(** The join theorem at the base URL https://h/api and the path v1/x. *)
Lemma join_url_path_single_slash_witness :
  url_scheme_ok "https" = true /\ url_host_ok "h" = true
  /\ url_path_ok "/api" = true
  /\ _join_url_path example_runtime "https://h/api/" "/v1/x"
     = Ok "https://h/api/v1/x".
Proof.
  split; [reflexivity|]. split; [reflexivity|]. split; [reflexivity|].
  exact (proj2 (proj2 (proj2 (proj1 (proj2
    (join_url_path_single_slash example_runtime "https" "h" "/api" "v1/x"
       eq_refl eq_refl eq_refl)) eq_refl eq_refl)))).
Defined.

(** ** Stream decoding *)

Lemma substring_all (s : string) : String.substring 0 (String.length s) s = s.
Proof. induction s as [|c s IH]; simpl; [reflexivity | now rewrite IH]. Qed.

Lemma strip_data_prefix_present (s : string) :
  startswith ("data: " +:+ s) "data: " = true
  /\ strip_data_prefix ("data: " +:+ s) = s.
Proof.
  assert (H : startswith ("data: " +:+ s) "data: " = true).
  { unfold startswith. sapp. simpl. apply prefix_nil. }
  split; [exact H|]. unfold strip_data_prefix. rewrite H.
  sapp. simpl. rewrite Nat.sub_0_r. apply substring_all.
Qed.

Lemma strip_data_prefix_absent (s : string) :
  startswith s "data: " = false -> strip_data_prefix s = s.
Proof. intros H. unfold strip_data_prefix. now rewrite H. Qed.

Section SegmentsFacts.
  Context {J : Type}.
  Variable json_loads : string -> result J.
  Variable empty_record : J.
  Variable decode_utf8 : string -> result string.

Lemma segments_live_collect (lines : list line) :
    segments_live json_loads decode_utf8 lines =
      collect (map (decode_line json_loads decode_utf8)
                   (List.filter line_truthy lines)).
  Proof.
    induction lines as [|chunk rest IH]; [reflexivity|].
    simpl. destruct (line_truthy chunk); [|exact IH].
    simpl. unfold decode_line at 1.
    destruct (line_text decode_utf8 chunk) as [text|e]; [|reflexivity].
    unfold mbind, result_bind.
    destruct (json_loads (strip_data_prefix text)); [|reflexivity].
    now rewrite IH.
  Qed.

Lemma collect_all_ok (outcomes : list (result J)) :
    Forall (fun r => is_Ok r = true) outcomes ->
    snd (collect outcomes) = None
    /\ map Ok (fst (collect outcomes)) = outcomes.
  Proof.
    induction 1 as [|r rest Hr _ [IH1 IH2]]; [split; reflexivity|].
    destruct r as [a|e]; [|discriminate]. simpl.
    split; [exact IH1 | now rewrite IH2].
  Qed.
End SegmentsFacts.

(** C5: on a live line-oriented stream [segments] skips the lines without
    content and hands every other line, in order and with the prefix
    'data: ' stripped when the line starts with it, to the JSON decoder,
    yielding one record per such line (until a line fails to decode); the
    three lines of the example decode to exactly the records {a:1} and
    {a:2}. *)
Theorem segments_strips_prefix_and_skips_empty {J : Type}
    (json_loads : string -> result J) (empty_record : J)
    (decode_utf8 : string -> result string) (lines : list line) :
  let run := segments json_loads empty_record decode_utf8 (live_response lines) in
  let kept := List.filter line_truthy lines in
  (* one decode per line with content, in order *)
  run = collect (map (decode_line json_loads decode_utf8) kept)
  (* the text decoded is the line without its prefix *)
  /\ (forall s, decode_line json_loads decode_utf8 (LStr ("data: " +:+ s))
                = json_loads s)
  /\ (forall s, startswith s "data: " = false ->
                decode_line json_loads decode_utf8 (LStr s) = json_loads s)
  (* when every kept line decodes, each yields exactly one record *)
  /\ (Forall (fun c => is_Ok (decode_line json_loads decode_utf8 c) = true) kept ->
      snd run = None
      /\ List.length (fst run) = List.length kept
      /\ map Ok (fst run) = map (decode_line json_loads decode_utf8) kept)
  (* a line without content yields nothing *)
  /\ (forall before after,
        segments json_loads empty_record decode_utf8
          (live_response (before ++ LStr EmptyString :: after)%list)
        = segments json_loads empty_record decode_utf8
            (live_response (before ++ after)%list))
  /\ segments json_loads_fragment (VDict []) Ok (live_response example_lines)
     = ([VDict [("a", VInt 1)]; VDict [("a", VInt 2)]], None).
Proof.
  intros run kept.
  assert (Hrun : run = collect (map (decode_line json_loads decode_utf8) kept))
    by apply segments_live_collect.
  split; [exact Hrun|]. split; [|split; [|split; [|split]]].
  - intros s. unfold decode_line. simpl.
    now rewrite (proj2 (strip_data_prefix_present s)).
  - intros s Hs. unfold decode_line. simpl.
    now rewrite (strip_data_prefix_absent s Hs).
  - intros Hall. rewrite Hrun.
    assert (Hall' : Forall (fun r => is_Ok r = true)
              (map (decode_line json_loads decode_utf8) kept))
      by (apply Forall_map; exact Hall).
    destruct (collect_all_ok _ Hall') as [H1 H2].
    split; [exact H1|]. split; [|exact H2].
    apply (f_equal (@List.length _)) in H2.
    now rewrite !length_map in H2.
  - intros before after. unfold segments, live_response. simpl.
    rewrite !segments_live_collect, !List.filter_app. reflexivity.
  - vm_compute. reflexivity.
Qed.

(** ** Retry orchestrator *)

Section RetryFacts.
  Context {S R : Type}.
  Variable status_code_of : R -> Z.
  Variable fn : S -> S * result R.
  Variable args : RetryArgs.

Lemma after_runs_shift k st :
    after_runs fn k (fst (fn st)) = after_runs fn (Datatypes.S k) st.
  Proof.
    unfold after_runs. induction k as [|k IH]; [reflexivity|].
    simpl. now rewrite IH.
  Qed.

  (** When every outcome asks for a retry, the loop runs the operation
      once more than it has attempts remaining, and stops on the last
      outcome. *)
Lemma attempt_loop_always_retried (remaining : nat) (st : S) :
    (forall s, should_retry status_code_of args (snd (fn s)) = true) ->
    let '(st', events, res) := attempt_loop status_code_of fn args remaining st in
    executions events = Datatypes.S remaining
    /\ st' = after_runs fn (Datatypes.S remaining) st
    /\ res = on_exhausted args (snd (fn (after_runs fn remaining st))).
  Proof.
    intros Hretry. revert st.
    induction remaining as [|n IH]; intros st; simpl.
    - specialize (Hretry st). destruct (fn st) as [st1 o1] eqn:E.
      simpl in Hretry. rewrite Hretry. simpl.
      unfold after_runs. simpl. rewrite ?E. auto.
    - pose proof (Hretry st) as H1. destruct (fn st) as [st1 o1] eqn:E.
      simpl in H1. rewrite H1.
      specialize (IH st1).
      destruct (attempt_loop status_code_of fn args n st1)
        as [[st2 events] res].
      destruct IH as (He & Hs & Hr).
      replace st1 with (fst (fn st)) in Hs, Hr by now rewrite E.
      rewrite after_runs_shift in Hs, Hr.
      split; [|split]; [|exact Hs|exact Hr].
      unfold executions in *. simpl. now rewrite He.
  Qed.
End RetryFacts.

(** C2: with attempts = 3 and an operation whose result always carries a
    status code of the policy's retriable set, the orchestrator built from
    [_retry_args] runs the operation exactly three times and then returns
    the third result itself, not a retry-exhaustion error. *)
Theorem retry_runs_exactly_three_times {S R : Type} (status_code_of : R -> Z)
    (fn : S -> S * result R) (options : HttpRetryOptions) (st : S) :
  attempts options = Some 3 ->
  (forall s, exists r,
      snd (fn s) = Ok r
      /\ In (status_code_of r)
            (list_or (http_status_codes options) _RETRY_HTTP_STATUS_CODES)) ->
  let '(st', events, res) :=
    Retrying__call__ status_code_of fn (_retry_args (Some options)) st in
  executions events = 3%nat
  /\ executions events ≠ 4%nat
  /\ st' = after_runs fn 3 st
  /\ res = snd (fn (after_runs fn 2 st))
  /\ (exists r, res = Ok r)
  /\ res ≠ Raise RetryError.
Proof.
  intros Hatt Hcodes.
  set (args := _retry_args (Some options)).
  assert (Hretry : forall s, should_retry status_code_of args (snd (fn s)) = true).
  { intros s. destruct (Hcodes s) as (r & Hr & Hin). rewrite Hr.
    unfold should_retry, args. simpl.
    apply existsb_exists. exists (status_code_of r). split; [exact Hin|].
    apply Z.eqb_refl. }
  unfold Retrying__call__.
  replace (Z.to_nat (stop args - 1)) with 2%nat
    by (unfold args; simpl; rewrite Hatt; reflexivity).
  pose proof (attempt_loop_always_retried status_code_of fn args 2 st Hretry) as H.
  destruct (attempt_loop status_code_of fn args 2 st) as [[st' events] res].
  destruct H as (He & Hs & Hr).
  assert (Hres : res = snd (fn (after_runs fn 2 st)))
    by (rewrite Hr; reflexivity).
  destruct (Hcodes (after_runs fn 2 st)) as (r & Hok & _).
  repeat split; auto.
  - rewrite He. discriminate.
  - exists r. now rewrite Hres.
  - rewrite Hres, Hok. discriminate.
Qed.

(** The retry theorem at an operation that always answers 503. *)
Lemma retry_runs_exactly_three_times_witness :
  let '(st', events, res) :=
    Retrying__call__ (fun code : Z => code) always_503
      (_retry_args (Some retry_three_times)) 0%nat in
  executions events = 3%nat
  /\ executions events ≠ 4%nat
  /\ st' = after_runs always_503 3 0%nat
  /\ res = snd (always_503 (after_runs always_503 2 0%nat))
  /\ (exists r, res = Ok r)
  /\ res ≠ Raise RetryError.
Proof.
  apply (retry_runs_exactly_three_times (fun code : Z => code) always_503
           retry_three_times 0%nat eq_refl).
  intros s. exists 503. split; [reflexivity|]. simpl. auto 10.
Defined.

(** ** Client construction *)

(** C8: constructing a client with project or location set together with
    api_key, or with credentials set together with api_key, fails with a
    ValueError (the configuration error) in the initializer itself, before
    it has made any call that leaves the process.  (A value is set when it
    is truthy: not None and not the empty string.) *)
Theorem init_rejects_mutually_exclusive_inputs (rt : Runtime) (env : Env)
    (vertexai : option bool) (api_key : option string)
    (credentials : option Credentials) (project location : option string)
    (http_options : option HttpOptionsOrDict) :
  ostr_truthy api_key = true ->
  ostr_truthy project = true \/ ostr_truthy location = true
  \/ is_some credentials = true ->
  exists msg,
    BaseApiClient__init__ rt env vertexai api_key credentials project location
      http_options
    = ([], Raise (ValueError msg))
    /\ (ostr_truthy project = true \/ ostr_truthy location = true ->
        msg = "Project/location and API key are mutually exclusive in the client initializer.")
    /\ (ostr_truthy project = false -> ostr_truthy location = false ->
        msg = "Credentials and API key are mutually exclusive in the client initializer.").
Proof.
  intros Hkey Hother. unfold BaseApiClient__init__. rewrite Hkey.
  destruct (ostr_truthy project) eqn:Hp; [|destruct (ostr_truthy location) eqn:Hl].
  - eexists. split; [reflexivity|]. split; [reflexivity | discriminate].
  - eexists. split; [reflexivity|]. split; [reflexivity | discriminate].
  - destruct Hother as [H | [H | H]]; try discriminate.
    rewrite H. eexists. split; [reflexivity|].
    split; [intros [?|?]; discriminate | reflexivity].
Qed.

(** The construction theorem at project and api_key both given. *)
Lemma init_rejects_mutually_exclusive_inputs_witness :
  exists msg,
    BaseApiClient__init__ example_runtime empty_env None (Some "key") None
      (Some "my-project") None None
    = ([], Raise (ValueError msg))
    /\ (ostr_truthy (Some "my-project") = true \/ ostr_truthy None = true ->
        msg = "Project/location and API key are mutually exclusive in the client initializer.")
    /\ (ostr_truthy (Some "my-project") = false -> ostr_truthy None = false ->
        msg = "Credentials and API key are mutually exclusive in the client initializer.").
Proof.
  exact (init_rejects_mutually_exclusive_inputs example_runtime empty_env None
           (Some "key") None (Some "my-project") None None eq_refl
           (or_introl eq_refl)).
Defined.

(** ** Status of the responses built by the module *)

(** C9: every HttpResponse the module builds has status_code 200: the
    constructor sets it whatever its arguments, and the responses
    returned by [_upload_fd] and [_request_once] come from the
    constructor unchanged, so an upload answered on the wire with status
    503 still returns a response that reports 200. *)
Theorem http_response_status_is_always_200 :
  (forall headers response_stream byte_stream,
      status_code (HttpResponse__init__ headers response_stream byte_stream)
      = 200)
  /\ (forall (Srv : Type) (httpx_request : Srv -> WireRequest -> Srv * WireResponse)
        CHUNK_SIZE fuel self file upload_url upload_size http_options srv r,
        snd (_upload_fd httpx_request CHUNK_SIZE fuel self file upload_url
               upload_size http_options srv) = Some (Ok r) ->
        status_code r = 200)
  /\ (forall (Srv : Type) (httpx_request : Srv -> WireRequest -> Srv * WireResponse)
        iter_lines refresh rt env σ stream st r,
        snd (_request_once httpx_request iter_lines refresh rt env σ stream st)
        = Ok r ->
        status_code r = 200)
  /\ (exists r events,
        _upload_fd final_with_503 6 5 example_client "0123456789"
          "https://upload" 10 None 0%nat = (1%nat, events, Some (Ok r))
        /\ (exists request response,
              events = [Post request response] /\ wire_status response = 503)
        /\ status_code r = 200).
Proof.
  split; [reflexivity|]. split; [|split].
  - intros Srv httpx_request CHUNK_SIZE fuel self file upload_url upload_size
      http_options srv r. unfold _upload_fd.
    destruct (upload_loop _ _ _ _ _ _ _ _ _) as [[srv' events] exit].
    simpl. destruct exit as [[response|e]|]; try discriminate.
    destruct (negb _); [discriminate|].
    intros H. injection H as <-. reflexivity.
  - intros Srv httpx_request iter_lines refresh rt env σ stream
      [[srv self] http_request] r. unfold _request_once.
    destruct (obool_truthy (vertexai self) && negb (ostr_truthy (api_key self))).
    + destruct (_access_token refresh env self) as [[self' effs] tok].
      destruct tok as [tok|e]; simpl; [|discriminate].
      destruct (wire_body _ _ _ _) as [data|e]; simpl; [|discriminate].
      destruct (httpx_request srv _) as [srv' response]. simpl.
      destruct (raise_for_response rt response); [discriminate|].
      intros H. injection H as <-. reflexivity.
    + simpl. destruct (wire_body _ _ _ _) as [data|e]; simpl; [|discriminate].
      destruct (httpx_request srv _) as [srv' response]. simpl.
      destruct (raise_for_response rt response); [discriminate|].
      intros H. injection H as <-. reflexivity.
  - eexists. eexists. split; [vm_compute; reflexivity|].
    split; [|reflexivity]. eexists. eexists. split; reflexivity.
Qed.

(** ** Resumable upload *)

Lemma str_take_length n (s : string) :
  String.length (str_take n s) = Nat.min n (String.length s).
Proof.
  revert s. induction n as [|n IH]; intros [|c t]; simpl; auto.
Qed.

Lemma str_drop_length n (s : string) :
  String.length (str_drop n s) = (String.length s - n)%nat.
Proof.
  revert s. induction n as [|n IH]; intros [|c t]; simpl; auto.
Qed.

Lemma posts_app (a b : list upload_event) :
  posts (a ++ b) = (posts a ++ posts b)%list.
Proof. unfold posts. apply flat_map_app. Qed.

Lemma last_response_app (a b : list upload_event) :
  last_response (a ++ b) =
    match last_response b with
    | Some r => Some r
    | None => last_response a
    end.
Proof.
  induction a as [|e a IH]; simpl.
  - now destruct (last_response b).
  - rewrite IH. now destruct (last_response b).
Qed.

(** The header lines of a chunk request. *)
Lemma chunk_request_headers upload_url upload_size tmo (chunk : string) offset :
  let rq := chunk_request upload_url upload_size tmo chunk offset in
  let chunk_size := Z.of_nat (String.length chunk) in
  w_method rq = "POST" /\ w_url rq = upload_url /\ w_content rq = Some chunk
  /\ w_headers rq !! "X-Goog-Upload-Offset" = Some (str_of_Z offset)
  /\ w_headers rq !! "Content-Length" = Some (str_of_Z chunk_size)
  /\ w_headers rq !! "X-Goog-Upload-Command" =
       Some (if upload_size <=? offset + chunk_size
             then "upload, finalize" else "upload").
Proof.
  intros rq chunk_size. repeat split; try reflexivity.
  all: unfold rq, chunk_request, upload_headers,
         _populate_server_timeout_header; cbn [w_headers];
       fold chunk_size;
       replace (chunk_size + offset) with (offset + chunk_size) by lia;
       destruct tmo as [t|];
       [destruct (Q_truthy t && _)|];
       rewrite ?lookup_insert_ne by discriminate;
       rewrite ?lookup_insert_eq; rewrite ?lookup_insert_ne by discriminate;
       rewrite ?lookup_insert_eq; rewrite ?lookup_singleton_eq;
       try reflexivity;
       destruct (upload_size <=? offset + chunk_size); reflexivity.
Qed.

Section UploadFacts.
  Context {Srv : Type}.
  Variable httpx_request : Srv -> WireRequest -> Srv * WireResponse.
  Variable CHUNK_SIZE : Z.
  Variable upload_url : string.
  Variable upload_size : Z.
  Variable tmo : option Q.

  (** One chunk is POSTed between once and [remaining + 1] times, always
      as the same request; the response kept is the last one. *)
Lemma post_chunk_spec (remaining : nat) (retry_count : Z)
      (request : WireRequest) (srv : Srv) :
    let '(_, events, response) :=
      post_chunk httpx_request remaining retry_count request srv in
    exists n, (1 <= n <= Datatypes.S remaining)%nat
              /\ posts events = replicate n request
              /\ last_response events = Some response.
  Proof.
    revert retry_count srv.
    induction remaining as [|k IH]; intros retry_count srv; simpl.
    - destruct (httpx_request srv request) as [srv1 response].
      destruct (ostr_truthy (upload_status response));
        exists 1%nat; repeat split; auto.
    - destruct (httpx_request srv request) as [srv1 response].
      destruct (ostr_truthy (upload_status response)).
      + exists 1%nat. repeat split; auto. lia.
      + specialize (IH (retry_count + 1) srv1).
        destruct (post_chunk httpx_request k (retry_count + 1) request srv1)
          as [[srv2 events] last].
        destruct IH as (n & Hn & Hp & Hl).
        exists (Datatypes.S n). split; [lia|].
        cbn [posts flat_map app]. fold (posts events). rewrite Hp.
        split; [reflexivity|].
        cbn [last_response]. now rewrite Hl.
  Qed.

  (** The trace of the chunk loop and the way it is left. *)
Lemma upload_loop_trace (fuel : nat) (file : string) (offset : Z) (srv : Srv) :
    let '(_, events, exit) :=
      upload_loop httpx_request CHUNK_SIZE fuel upload_url upload_size tmo
        file offset srv in
    exists counts : list nat,
      (List.length counts <= fuel)%nat
      /\ Forall (fun n => (1 <= n <= MAX_RETRY_COUNT)%nat) counts
      /\ posts events =
           repeated counts
             (expected_requests upload_url upload_size tmo CHUNK_SIZE
                (List.length counts) file offset)
      /\ match exit with
         | Some (Break response) =>
             last_response events = Some response
             /\ upload_status response <> Some "active"
         | Some (Raised e) =>
             e = all_content_error
             /\ (exists response,
                    last_response events = Some response
                    /\ upload_status response = Some "active")
             /\ upload_size <=
                  offset_after CHUNK_SIZE (List.length counts) file offset
         | None =>
             List.length counts = fuel
             /\ (fuel = 0%nat -> events = [])
             /\ (fuel <> 0%nat ->
                 offset_after CHUNK_SIZE (List.length counts) file offset
                   < upload_size
                 /\ exists response,
                      last_response events = Some response
                      /\ upload_status response = Some "active")
         end.
  Proof.
    revert file offset srv.
    induction fuel as [|fuel IH]; intros file offset srv.
    - simpl. exists []. repeat split; auto; congruence.
    - cbn [upload_loop].
      destruct (file_read CHUNK_SIZE file) as [file_chunk rest] eqn:Eread.
      pose proof (post_chunk_spec (MAX_RETRY_COUNT - 1) 0
        (chunk_request upload_url upload_size tmo file_chunk offset) srv) as Hpc.
      destruct (post_chunk httpx_request (MAX_RETRY_COUNT - 1) 0 _ srv)
        as [[srv1 events] response].
      destruct Hpc as (n & Hn & Hposts & Hlast).
      case_bool_decide as Hactive; cbn [negb].
      + destruct (upload_size <=? offset + Z.of_nat (String.length file_chunk))
          eqn:Hdone.
        * exists [n]. cbn [List.length expected_requests offset_after repeated].
          rewrite Eread. repeat split; auto.
          -- lia.
          -- rewrite app_nil_r. exact Hposts.
          -- eauto.
          -- now apply Z.leb_le.
        * specialize (IH rest (offset + Z.of_nat (String.length file_chunk)) srv1).
          destruct (upload_loop httpx_request CHUNK_SIZE fuel upload_url
                      upload_size tmo rest _ srv1) as [[srv2 more] exit].
          destruct IH as (counts & Hlen & Hall & Hmore & Hexit).
          exists (n :: counts).
          cbn [List.length expected_requests offset_after repeated].
          rewrite Eread. split; [lia|]. split; [constructor; auto|].
          split; [rewrite posts_app, Hposts, Hmore; reflexivity|].
          rewrite last_response_app.
          destruct exit as [[resp|e]|].
          -- destruct Hexit as [H1 H2]. now rewrite H1.
          -- destruct Hexit as (H1 & (resp & H2 & H3) & H4).
             repeat split; auto. exists resp. now rewrite H2.
          -- destruct Hexit as (H1 & H0 & H2). split; [lia|].
             split; [discriminate|]. intros _.
             destruct fuel as [|fuel'].
             ++ destruct counts; [|simpl in H1; lia]. simpl.
                apply Z.leb_gt in Hdone. split; [exact Hdone|].
                rewrite (H0 eq_refl). simpl. eauto.
             ++ destruct H2 as [H2 (resp & H3 & H4)]; [discriminate|].
                split; [exact H2|]. exists resp. now rewrite H3.
      + exists [n]. cbn [List.length expected_requests offset_after repeated].
        rewrite Eread. repeat split; auto.
        * lia.
        * rewrite app_nil_r. exact Hposts.
  Qed.

  (** With a file that holds the bytes still owed, every round of the
      loop either leaves it or moves the offset forward, so the loop is
      left within [upload_size - offset + 1] rounds. *)
Lemma upload_loop_terminates (fuel : nat) (file : string) (offset : Z) (srv : Srv) :
    0 < CHUNK_SIZE ->
    upload_size - offset <= Z.of_nat (String.length file) ->
    (Z.to_nat (upload_size - offset) < fuel)%nat ->
    snd (upload_loop httpx_request CHUNK_SIZE fuel upload_url upload_size tmo
           file offset srv) <> None.
  Proof.
    intros Hchunk. revert file offset srv.
    induction fuel as [|fuel IH]; intros file offset srv Hfile Hfuel; [lia|].
    cbn [upload_loop]. unfold file_read.
    pose proof (str_take_length (Z.to_nat CHUNK_SIZE) file) as Htake.
    pose proof (str_drop_length (Z.to_nat CHUNK_SIZE) file) as Hdrop.
    destruct (post_chunk httpx_request (MAX_RETRY_COUNT - 1) 0 _ srv)
      as [[srv1 events] response].
    destruct (negb _); [discriminate|].
    destruct (upload_size <=? _) eqn:Hdone; [discriminate|].
    apply Z.leb_gt in Hdone.
    specialize (IH (str_drop (Z.to_nat CHUNK_SIZE) file)
                   (offset + Z.of_nat (String.length
                      (str_take (Z.to_nat CHUNK_SIZE) file))) srv1).
    destruct (upload_loop httpx_request CHUNK_SIZE fuel upload_url upload_size
                tmo _ _ srv1) as [[srv2 more] exit].
    simpl in *. apply IH; lia.
  Qed.

  (** A response on which the loop breaks is an answer of the backend. *)
Lemma post_chunk_answer (remaining : nat) (retry_count : Z)
      (request : WireRequest) (srv : Srv) :
    exists s, snd (post_chunk httpx_request remaining retry_count request srv)
              = snd (httpx_request s request).
  Proof.
    revert retry_count srv.
    induction remaining as [|k IH]; intros retry_count srv; simpl.
    - exists srv. destruct (httpx_request srv request) as [srv1 response].
      now destruct (ostr_truthy (upload_status response)).
    - destruct (httpx_request srv request) as [srv1 response] eqn:E.
      destruct (ostr_truthy (upload_status response)).
      + exists srv. now rewrite E.
      + destruct (IH (retry_count + 1) srv1) as [s Hs]. exists s.
        destruct (post_chunk httpx_request k (retry_count + 1) request srv1)
          as [[srv2 events] last]. exact Hs.
  Qed.

Lemma upload_loop_break_answer (fuel : nat) (file : string) (offset : Z)
      (srv : Srv) (response : WireResponse) :
    snd (upload_loop httpx_request CHUNK_SIZE fuel upload_url upload_size tmo
           file offset srv) = Some (Break response) ->
    exists s rq, response = snd (httpx_request s rq).
  Proof.
    revert file offset srv.
    induction fuel as [|fuel IH]; intros file offset srv; [discriminate|].
    cbn [upload_loop].
    destruct (file_read CHUNK_SIZE file) as [file_chunk rest].
    destruct (post_chunk_answer (MAX_RETRY_COUNT - 1) 0
      (chunk_request upload_url upload_size tmo file_chunk offset) srv)
      as [s Hs].
    destruct (post_chunk httpx_request (MAX_RETRY_COUNT - 1) 0 _ srv)
      as [[srv1 events] last].
    simpl in Hs.
    destruct (negb _).
    - simpl. intros H. injection H as <-. eauto.
    - destruct (upload_size <=? _); [discriminate|].
      specialize (IH rest (offset + Z.of_nat (String.length file_chunk)) srv1).
      destruct (upload_loop httpx_request CHUNK_SIZE fuel upload_url
                  upload_size tmo rest _ srv1) as [[srv2 more] exit].
      simpl in *. exact IH.
  Qed.
End UploadFacts.

Lemma answers_app (a b : list upload_event) :
  answers (a ++ b) = (answers a ++ answers b)%list.
Proof. unfold answers. apply flat_map_app. Qed.

Section UploadAnswers.
  Context {Srv : Type}.
  Variable httpx_request : Srv -> WireRequest -> Srv * WireResponse.
  Variable CHUNK_SIZE : Z.
  Variable upload_url : string.
  Variable upload_size : Z.
  Variable tmo : option Q.

  (** The answers to one chunk: all but the last carry no upload status,
      and there are at most [remaining] of those; the last one carries a
      status unless the chunk has gone out [remaining + 1] times. *)
Lemma post_chunk_answers (remaining : nat) (retry_count : Z)
      (request : WireRequest) (srv : Srv) :
    let '(_, events, response) :=
      post_chunk httpx_request remaining retry_count request srv in
    exists pre,
      answers events = (pre ++ [response])%list
      /\ posts events = replicate (Datatypes.S (List.length pre)) request
      /\ Forall (fun r => without_status r = true) pre
      /\ (List.length pre <= remaining)%nat
      /\ (without_status response = true -> List.length pre = remaining).
  Proof.
    revert retry_count srv.
    induction remaining as [|k IH]; intros retry_count srv; simpl.
    - destruct (httpx_request srv request) as [srv1 response].
      destruct (ostr_truthy (upload_status response)) eqn:E;
        exists []; unfold without_status; rewrite E; repeat split; auto;
        discriminate.
    - destruct (httpx_request srv request) as [srv1 response].
      destruct (ostr_truthy (upload_status response)) eqn:E.
      + exists []. unfold without_status. rewrite E.
        repeat split; auto; [simpl; lia | discriminate].
      + specialize (IH (retry_count + 1) srv1).
        destruct (post_chunk httpx_request k (retry_count + 1) request srv1)
          as [[srv2 events] last].
        destruct IH as (pre & Ha & Hp & Hall & Hlen & Hlast).
        exists (response :: pre).
        cbn [answers posts flat_map app]. fold (answers events).
        fold (posts events). rewrite Ha, Hp.
        split; [reflexivity|]. split; [reflexivity|].
        split; [constructor; [unfold without_status; now rewrite E | exact Hall]|].
        split; [simpl; lia|]. intros H. simpl. now rewrite (Hlast H).
  Qed.

  (** Answers without a status leave chunk and offset as they are. *)
Lemma requests_for_retried (pre rest : list WireResponse) (file : string)
      (offset : Z) :
    Forall (fun r => without_status r = true) pre ->
    requests_for upload_url upload_size tmo CHUNK_SIZE (pre ++ rest) file offset
    = (replicate (List.length pre)
         (chunk_request upload_url upload_size tmo
            (fst (file_read CHUNK_SIZE file)) offset)
       ++ requests_for upload_url upload_size tmo CHUNK_SIZE rest file offset)%list.
  Proof.
    induction 1 as [|r pre Hr _ IH]; [reflexivity|].
    cbn [app requests_for List.length replicate].
    destruct (file_read CHUNK_SIZE file) as [chunk rest'] eqn:E.
    rewrite Hr, IH. reflexivity.
  Qed.

  (** The requests of the chunk loop are those its answers call for, and
      three answers in a row without a status end the loop. *)
Lemma upload_loop_requests (fuel : nat) (file : string) (offset : Z) (srv : Srv) :
    let '(_, events, exit) :=
      upload_loop httpx_request CHUNK_SIZE fuel upload_url upload_size tmo
        file offset srv in
    posts events
    = requests_for upload_url upload_size tmo CHUNK_SIZE (answers events)
        file offset
    /\ (forall i r1 r2 r3,
          answers events !! i = Some r1 ->
          answers events !! Datatypes.S i = Some r2 ->
          answers events !! Datatypes.S (Datatypes.S i) = Some r3 ->
          without_status r1 = true -> without_status r2 = true ->
          without_status r3 = true ->
          List.length (answers events) = Datatypes.S (Datatypes.S (Datatypes.S i))
          /\ exit = Some (Break r3)).
  Proof.
    revert file offset srv.
    induction fuel as [|fuel IH]; intros file offset srv.
    - simpl. split; [reflexivity|]. intros i r1 r2 r3 H. discriminate.
    - cbn [upload_loop].
      destruct (file_read CHUNK_SIZE file) as [file_chunk rest] eqn:Eread.
      pose proof (post_chunk_answers (MAX_RETRY_COUNT - 1) 0
        (chunk_request upload_url upload_size tmo file_chunk offset) srv) as Hpc.
      destruct (post_chunk httpx_request (MAX_RETRY_COUNT - 1) 0 _ srv)
        as [[srv1 events] response].
      destruct Hpc as (pre & Ha & Hp & Hall & Hlen & Hlast).
      change (MAX_RETRY_COUNT - 1)%nat with 2%nat in Hlen, Hlast.
      assert (Hreq : forall more,
                 requests_for upload_url upload_size tmo CHUNK_SIZE
                   ((pre ++ [response]) ++ more) file offset
                 = (posts events
                    ++ (if without_status response
                        then requests_for upload_url upload_size tmo CHUNK_SIZE
                               more file offset
                        else requests_for upload_url upload_size tmo CHUNK_SIZE
                               more rest
                               (offset + Z.of_nat (String.length file_chunk))))%list).
      { intros more. rewrite <- app_assoc, (requests_for_retried _ _ _ _ Hall).
        rewrite Eread. cbn [fst app requests_for]. rewrite Eread, Hp.
        cbn [replicate]. rewrite replicate_cons_app, <- app_assoc.
        reflexivity. }
      assert (Hend : forall (i : nat) (r1 r2 r3 : WireResponse),
                 (pre ++ [response])%list !! i = Some r1 ->
                 (pre ++ [response])%list !! Datatypes.S i = Some r2 ->
                 (pre ++ [response])%list !! Datatypes.S (Datatypes.S i) = Some r3 ->
                 i = 0%nat /\ r3 = response /\ List.length pre = 2%nat).
      { intros i r1 r2 r3 _ _ H3.
        apply lookup_lt_Some in H3 as Hlt. rewrite length_app in Hlt.
        simpl in Hlt.
        assert (i = 0%nat /\ List.length pre = 2%nat) as [-> Hpre] by lia.
        split; [reflexivity|]. split; [|exact Hpre].
        rewrite lookup_app_r in H3 by lia. rewrite Hpre in H3.
        simpl in H3. congruence. }
      case_bool_decide as Hactive; cbn [negb].
      + assert (Hst : without_status response = false)
          by (unfold without_status; now rewrite Hactive).
        destruct (upload_size <=? offset + Z.of_nat (String.length file_chunk)).
        * split.
          -- rewrite Ha. specialize (Hreq []). rewrite app_nil_r in Hreq.
             rewrite Hreq, Hst. cbn [requests_for]. now rewrite app_nil_r.
          -- intros i r1 r2 r3 H1 H2 H3 _ _ Hw3. rewrite Ha in H1, H2, H3.
             destruct (Hend i r1 r2 r3 H1 H2 H3) as (_ & -> & _). congruence.
        * specialize (IH rest (offset + Z.of_nat (String.length file_chunk)) srv1).
          destruct (upload_loop httpx_request CHUNK_SIZE fuel upload_url
                      upload_size tmo rest _ srv1) as [[srv2 more] exit].
          destruct IH as [IHp IHe].
          rewrite posts_app, answers_app, Ha. split.
          -- rewrite Hreq, Hst, IHp. reflexivity.
          -- intros i r1 r2 r3 H1 H2 H3 Hw1 Hw2 Hw3.
             assert (Hn : length (pre ++ [response])%list = Datatypes.S (length pre))
               by (rewrite length_app; simpl; lia).
             destruct (decide (i <= List.length pre)%nat) as [Hi|Hi].
             ++ (* the window holds the last answer to this chunk *)
                exfalso.
                assert (Hresp : exists j r, (j = i \/ j = Datatypes.S i
                                             \/ j = Datatypes.S (Datatypes.S i))
                                  /\ j = List.length pre
                                  /\ without_status r = true
                                  /\ ((pre ++ [response]) ++ answers more)%list !! j
                                     = Some r).
                { destruct (decide (List.length pre = i)) as [E|E];
                    [exists i, r1; auto 6|].
                  destruct (decide (List.length pre = Datatypes.S i)) as [E'|E'];
                    [exists (Datatypes.S i), r2; auto 6|].
                  exists (Datatypes.S (Datatypes.S i)), r3.
                  repeat split; auto; lia. }
                destruct Hresp as (j & r & _ & -> & Hw & Hj).
                rewrite lookup_app_l in Hj by lia.
                rewrite lookup_app_r in Hj by lia.
                rewrite Nat.sub_diag in Hj. simpl in Hj. congruence.
             ++ rewrite lookup_app_r in H1, H2, H3 by lia.
                rewrite Hn in H1, H2, H3.
                replace (Datatypes.S i - Datatypes.S (length pre))%nat
                  with (Datatypes.S (i - Datatypes.S (length pre)))%nat in H2 by lia.
                replace (Datatypes.S (Datatypes.S i) - Datatypes.S (length pre))%nat
                  with (Datatypes.S (Datatypes.S (i - Datatypes.S (length pre))))%nat
                  in H3 by lia.
                destruct (IHe _ _ _ _ H1 H2 H3 Hw1 Hw2 Hw3) as [Hl He].
                split; [|exact He]. rewrite length_app, Hn, Hl. lia.
      + split.
        * rewrite Ha. specialize (Hreq []). rewrite app_nil_r in Hreq.
          rewrite Hreq. cbn [requests_for].
          destruct (without_status response); now rewrite app_nil_r.
        * intros i r1 r2 r3 H1 H2 H3 _ _ _. rewrite Ha in H1, H2, H3 |- *.
          destruct (Hend i r1 r2 r3 H1 H2 H3) as (-> & -> & Hpre).
          rewrite length_app, Hpre. split; reflexivity.
  Qed.
End UploadAnswers.

Lemma finalizes_chunk_request upload_url upload_size tmo (chunk : string) offset :
  finalizes (chunk_request upload_url upload_size tmo chunk offset)
  = (upload_size <=? offset + Z.of_nat (String.length chunk)).
Proof.
  unfold finalizes.
  destruct (chunk_request_headers upload_url upload_size tmo chunk offset)
    as (_ & _ & _ & _ & _ & ->).
  destruct (upload_size <=? offset + Z.of_nat (String.length chunk));
    [now rewrite bool_decide_eq_true_2 | now rewrite bool_decide_eq_false_2].
Qed.

Lemma without_status_not_active (r : WireResponse) :
  without_status r = true -> upload_status r <> Some "active".
Proof. unfold without_status. intros H E. now rewrite E in H. Qed.

Section UploadEnds.
  Context {Srv : Type}.
  Variable httpx_request : Srv -> WireRequest -> Srv * WireResponse.
  Variable CHUNK_SIZE : Z.
  Variable upload_url : string.
  Variable upload_size : Z.
  Variable tmo : option Q.

  (** How the chunk loop goes on and how it ends. *)
Lemma upload_loop_ends (fuel : nat) (file : string) (offset : Z) (srv : Srv) :
    let '(_, events, exit) :=
      upload_loop httpx_request CHUNK_SIZE fuel upload_url upload_size tmo
        file offset srv in
    (forall i r,
        answers events !! i = Some r ->
        (Datatypes.S i < List.length (answers events))%nat ->
        without_status r = true \/ upload_status r = Some "active")
    /\ (forall i rq r,
          posts events !! i = Some rq -> answers events !! i = Some r ->
          (Datatypes.S i < List.length (answers events))%nat ->
          upload_status r = Some "active" -> finalizes rq = false)
    /\ (forall r,
          last (answers events) = Some r -> without_status r = true ->
          exists i r1 r2,
            List.length (answers events)
            = Datatypes.S (Datatypes.S (Datatypes.S i))
            /\ answers events !! i = Some r1
            /\ answers events !! Datatypes.S i = Some r2
            /\ without_status r1 = true /\ without_status r2 = true)
    /\ (forall rq r,
          last (posts events) = Some rq -> last (answers events) = Some r ->
          exit = if bool_decide (upload_status r = Some "active")
                 then if finalizes rq then Some (Raised all_content_error)
                      else None
                 else Some (Break r))
    /\ (fuel = 0%nat -> events = [])
    /\ (fuel <> 0%nat -> posts events <> [] /\ answers events <> []).
  Proof.
    revert file offset srv.
    induction fuel as [|fuel IH]; intros file offset srv.
    - simpl. repeat split; try discriminate; congruence.
    - cbn [upload_loop].
      destruct (file_read CHUNK_SIZE file) as [file_chunk rest] eqn:Eread.
      set (request := chunk_request upload_url upload_size tmo file_chunk offset).
      pose proof (post_chunk_answers httpx_request (MAX_RETRY_COUNT - 1) 0
                    request srv) as Hpc.
      destruct (post_chunk httpx_request (MAX_RETRY_COUNT - 1) 0 request srv)
        as [[srv1 events] response].
      destruct Hpc as (pre & Ha & Hp & Hall & Hlen & Hlast).
      change (MAX_RETRY_COUNT - 1)%nat with 2%nat in Hlen, Hlast.
      pose proof (finalizes_chunk_request upload_url upload_size tmo
                    file_chunk offset) as Hfin. fold request in Hfin.
      assert (Hn : length (pre ++ [response])%list = Datatypes.S (length pre))
        by (rewrite length_app; simpl; lia).
      assert (Hpre : forall (i : nat) r, (pre ++ [response])%list !! i = Some r ->
                       (i < length pre)%nat -> without_status r = true).
      { intros i r Hi Hlt. rewrite lookup_app_l in Hi by lia.
        rewrite Forall_forall in Hall. apply Hall.
        apply list_elem_of_lookup. eauto. }
      assert (Hresp : forall r, (pre ++ [response])%list !! length pre = Some r ->
                       r = response).
      { intros r Hi. rewrite lookup_app_r in Hi by lia.
        rewrite Nat.sub_diag in Hi. simpl in Hi. congruence. }
      assert (Hlp : last (posts events) = Some request).
      { rewrite Hp. cbn [replicate]. rewrite replicate_cons_app.
        apply last_snoc. }
      assert (Hla : last (answers events) = Some response)
        by (rewrite Ha; apply last_snoc).
      assert (Hthird : without_status response = true ->
                exists i r1 r2,
                  length (pre ++ [response])%list
                  = Datatypes.S (Datatypes.S (Datatypes.S i))
                  /\ (pre ++ [response])%list !! i = Some r1
                  /\ (pre ++ [response])%list !! Datatypes.S i = Some r2
                  /\ without_status r1 = true /\ without_status r2 = true).
      { intros Hw. specialize (Hlast Hw).
        destruct pre as [|r1 [|r2 [|r3 pre]]]; try discriminate.
        exists 0%nat, r1, r2. repeat split; apply (Hpre _ _) with (i := 0%nat) ||
          idtac.
        - apply (Hpre 0%nat r1); [reflexivity | simpl; lia].
        - apply (Hpre 1%nat r2); [reflexivity | simpl; lia]. }
      (* the two ways of ending at this chunk *)
      assert (Hhere : forall exit,
                exit = (if bool_decide (upload_status response = Some "active")
                        then if finalizes request
                             then Some (Raised all_content_error) else None
                        else Some (Break response)) ->
                exit <> None ->
                (forall i r,
                    answers events !! i = Some r ->
                    (Datatypes.S i < length (answers events))%nat ->
                    without_status r = true \/ upload_status r = Some "active")
                /\ (forall i rq r,
                      posts events !! i = Some rq -> answers events !! i = Some r ->
                      (Datatypes.S i < length (answers events))%nat ->
                      upload_status r = Some "active" -> finalizes rq = false)
                /\ (forall r,
                      last (answers events) = Some r -> without_status r = true ->
                      exists i r1 r2,
                        length (answers events)
                        = Datatypes.S (Datatypes.S (Datatypes.S i))
                        /\ answers events !! i = Some r1
                        /\ answers events !! Datatypes.S i = Some r2
                        /\ without_status r1 = true /\ without_status r2 = true)
                /\ (forall rq r,
                      last (posts events) = Some rq ->
                      last (answers events) = Some r ->
                      exit = if bool_decide (upload_status r = Some "active")
                             then if finalizes rq
                                  then Some (Raised all_content_error) else None
                             else Some (Break r))
                /\ (Datatypes.S fuel = 0%nat -> events = [])
                /\ (Datatypes.S fuel <> 0%nat ->
                    posts events <> [] /\ answers events <> [])).
      { intros exit Hexit _. rewrite Ha, Hn.
        split; [|split; [|split; [|split; [|split]]]].
        - intros i r Hi Hlt. left. apply (Hpre i r Hi). lia.
        - intros i rq r _ Hi Hlt Hact.
          assert (Hw : without_status r = true) by (apply (Hpre i r Hi); lia).
          now apply without_status_not_active in Hw.
        - intros r Hr Hw. rewrite last_snoc in Hr. injection Hr as <-.
          rewrite <- Hn. now apply Hthird.
        - intros rq r Hrq Hr. rewrite Hlp in Hrq. rewrite last_snoc in Hr.
          injection Hrq as <-. injection Hr as <-. exact Hexit.
        - discriminate.
        - intros _. rewrite Hp. split; [discriminate|].
          destruct pre; discriminate. }
      case_bool_decide as Hactive; cbn [negb].
      + destruct (upload_size <=? offset + Z.of_nat (String.length file_chunk))
          eqn:Hdone.
        * apply Hhere; [|discriminate]. now rewrite Hfin.
        * clear Hhere.
          assert (Hmore : let '(_, more, exit) :=
                    upload_loop httpx_request CHUNK_SIZE fuel upload_url
                      upload_size tmo rest
                      (offset + Z.of_nat (String.length file_chunk)) srv1 in
                    (answers more = [] /\ posts more = [] /\ exit = None)
                    \/ (answers more <> [] /\ posts more <> [])).
          { destruct fuel as [|fuel']; [left; auto|].
            specialize (IH rest (offset + Z.of_nat (String.length file_chunk))
                          srv1).
            destruct (upload_loop httpx_request CHUNK_SIZE (Datatypes.S fuel')
                        upload_url upload_size tmo rest _ srv1)
              as [[srv2 more] exit].
            right. destruct IH as (_ & _ & _ & _ & _ & IHn).
            destruct IHn; [discriminate|]. auto. }
          specialize (IH rest (offset + Z.of_nat (String.length file_chunk)) srv1).
          destruct (upload_loop httpx_request CHUNK_SIZE fuel upload_url
                      upload_size tmo rest _ srv1) as [[srv2 more] exit].
          destruct IH as (IHc & IHf & IHd & IHe & _ & _).
          rewrite posts_app, answers_app, Ha, Hp.
          assert (Hlr : length (replicate (Datatypes.S (length pre)) request)
                        = Datatypes.S (length pre)) by apply length_replicate.
          rewrite length_app, Hn.
          split; [|split; [|split; [|split; [|split]]]].
          -- intros i r Hi Hlt.
             destruct (lt_eq_lt_dec i (length pre)) as [[Hi1|Hi2]|Hi3].
             ++ left. apply (Hpre i r); [|exact Hi1].
                now rewrite lookup_app_l in Hi by lia.
             ++ right. subst i. rewrite lookup_app_l in Hi by lia.
                now rewrite (Hresp r Hi).
             ++ rewrite lookup_app_r in Hi by lia. rewrite Hn in Hi.
                apply (IHc _ r Hi). lia.
          -- intros i rq r Hq Hi Hlt Hact.
             destruct (lt_eq_lt_dec i (length pre)) as [[Hi1|Hi2]|Hi3].
             ++ exfalso. rewrite lookup_app_l in Hi by lia.
                now apply (without_status_not_active r (Hpre i r Hi Hi1)).
             ++ subst i. rewrite lookup_app_l in Hq by lia.
                apply lookup_replicate in Hq as [-> _].
                now rewrite Hfin.
             ++ rewrite lookup_app_r in Hi by lia. rewrite Hn in Hi.
                rewrite lookup_app_r in Hq by lia. rewrite Hlr in Hq.
                apply (IHf _ rq r Hq Hi); [lia | exact Hact].
          -- intros r Hr Hw. rewrite last_app in Hr.
             destruct Hmore as [(Hm & _ & _)|[Hm _]].
             ++ rewrite Hm in Hr. cbn [last] in Hr. rewrite last_snoc in Hr.
                injection Hr as <-.
                now apply without_status_not_active in Hw.
             ++ destruct (last (answers more)) as [r'|] eqn:Hl;
                  [|now apply last_None in Hl].
                injection Hr as ->.
                destruct (IHd r eq_refl Hw) as (i & r1 & r2 & E & H1 & H2 & Hw12).
                exists (Datatypes.S (length pre) + i)%nat, r1, r2.
                split; [lia|].
                split; [rewrite lookup_app_r by lia; rewrite Hn;
                        now replace (Datatypes.S (length pre) + i
                                     - Datatypes.S (length pre))%nat with i by lia|].
                split; [|exact Hw12].
                rewrite lookup_app_r by lia. rewrite Hn.
                now replace (Datatypes.S (Datatypes.S (length pre) + i)
                             - Datatypes.S (length pre))%nat
                  with (Datatypes.S i) by lia.
          -- intros rq r Hrq Hr. rewrite last_app in Hrq. rewrite last_app in Hr.
             destruct Hmore as [(Hm & Hm' & ->)|[Hm Hm']].
             ++ rewrite Hm in Hr. rewrite Hm' in Hrq. cbn [last] in Hr, Hrq.
                rewrite last_snoc in Hr. cbn [replicate] in Hrq.
                rewrite replicate_cons_app, last_snoc in Hrq.
                injection Hr as <-. injection Hrq as <-.
                rewrite bool_decide_eq_true_2 by exact Hactive.
                now rewrite Hfin.
             ++ destruct (last (answers more)) as [r'|] eqn:Hl;
                  [|now apply last_None in Hl].
                destruct (last (posts more)) as [rq'|] eqn:Hl';
                  [|now apply last_None in Hl'].
                injection Hr as ->. injection Hrq as ->.
                now apply IHe.
          -- discriminate.
          -- intros _. split; [discriminate|]. destruct pre; discriminate.
      + apply Hhere; [reflexivity|discriminate].
  Qed.
End UploadEnds.

(** The example of the specification, run: ten bytes, chunks of six, a
    server answering 'active' and then 'final'. *)
Lemma upload_example_two_posts :
  _upload_fd active_then_final 6 2 example_client "0123456789"
    "https://upload" 10 None 0%nat
  = (2%nat,
     [Post example_rq1 (upload_answer 200 "active");
      Post example_rq2 (upload_answer 200 "final")],
     Some (Ok (HttpResponse__init__ (wire_headers (upload_answer 200 "final"))
                 (StreamList ["{}"]) None)))
  /\ _upload_fd active_then_final 6 1 example_client "0123456789"
       "https://upload" 10 None 0%nat
     = (1%nat, [Post example_rq1 (upload_answer 200 "active")], None)
  /\ w_headers example_rq1 !! "X-Goog-Upload-Offset" = Some "0"
  /\ w_headers example_rq1 !! "X-Goog-Upload-Command" = Some "upload"
  /\ w_content example_rq1 = Some "012345"
  /\ w_headers example_rq2 !! "X-Goog-Upload-Offset" = Some "6"
  /\ w_headers example_rq2 !! "X-Goog-Upload-Command" = Some "upload, finalize"
  /\ w_content example_rq2 = Some "6789".
Proof.
  split; [vm_compute; reflexivity|].
  split; [vm_compute; reflexivity|].
  repeat (split; [vm_compute; reflexivity|]).
  vm_compute; reflexivity.
Qed.

(** C1, as stated, fails: the offset does not advance after each
    response.  An answer that carries no upload status is followed by the
    same chunk at the same offset: with a file of size 10, chunk size 6
    and a server that answers without a status, then 'active', then
    'final', three POSTs occur, with offsets 0, 0 and 6. *)
Lemma upload_offset_kept_after_silent_answer :
  _upload_fd silent_then_active_then_final 6 2 example_client "0123456789"
    "https://upload" 10 None 0%nat
  = (3%nat,
     [Post example_rq1 answer_without_status; SleepFor 1;
      Post example_rq1 (upload_answer 200 "active");
      Post example_rq2 (upload_answer 200 "final")],
     Some (Ok (HttpResponse__init__ (wire_headers (upload_answer 200 "final"))
                 (StreamList ["{}"]) None)))
  /\ w_headers example_rq1 !! "X-Goog-Upload-Offset" = Some "0"
  /\ w_content example_rq1 = Some "012345"
  /\ w_headers example_rq2 !! "X-Goog-Upload-Offset" = Some "6".
Proof. repeat split; vm_compute; reflexivity. Qed.

(** C1, amended: an upload driven by [_upload_fd] from offset 0 POSTs the
    chunk read at the current offset with X-Goog-Upload-Offset equal to
    that offset and the command 'upload, finalize' exactly when
    offset + chunk_size >= upload_size.  After an answer that carries an
    upload status the offset advances by the chunk's byte count and the
    next chunk is read; after an answer that carries none the same
    request goes out again at the same offset, a chunk going out at most
    three times: the upload goes on after an answer only if it carries no
    status or is 'active' to a request that did not finalize, it stops on
    an answer without a status only if that is the third in a row, and
    then with the error of an upload that is not finalized.  The last
    answer decides: 'final' returns the response, 'active' to a request
    that finalized (offset >= upload_size) raises the protocol
    violation, anything else raises the error of an upload that is not
    finalized.  With a file that holds upload_size bytes the call ends,
    and against a server that answers 'active' for ever it ends in the
    protocol violation.  For a file of size 10, chunk size 6 and a
    server answering 'active' then 'final': two POSTs, with offsets 0 and
    6, and success only after the second. *)
Theorem upload_fd_protocol {Srv : Type}
    (httpx_request : Srv -> WireRequest -> Srv * WireResponse)
    (CHUNK_SIZE : Z) (fuel : nat) (self : BaseApiClient)
    (file upload_url : string) (upload_size : Z)
    (http_options : option HttpOptionsOrDict) (srv : Srv) :
  0 < CHUNK_SIZE ->
  let tmo := _get_timeout_in_seconds (upload_timeout self http_options) in
  let run := _upload_fd httpx_request CHUNK_SIZE fuel self file upload_url
               upload_size http_options srv in
  let events := snd (fst run) in
  let result := snd run in
  posts events
  = requests_for upload_url upload_size tmo CHUNK_SIZE (answers events) file 0
  /\ (forall i r,
        answers events !! i = Some r ->
        (Datatypes.S i < List.length (answers events))%nat ->
        without_status r = true \/ upload_status r = Some "active")
  /\ (forall i rq r,
        posts events !! i = Some rq -> answers events !! i = Some r ->
        (Datatypes.S i < List.length (answers events))%nat ->
        upload_status r = Some "active" -> finalizes rq = false)
  /\ (forall i r1 r2 r3,
        answers events !! i = Some r1 ->
        answers events !! Datatypes.S i = Some r2 ->
        answers events !! Datatypes.S (Datatypes.S i) = Some r3 ->
        without_status r1 = true -> without_status r2 = true ->
        without_status r3 = true ->
        List.length (answers events) = Datatypes.S (Datatypes.S (Datatypes.S i))
        /\ result = Some (Raise not_finalized_error))
  /\ (forall r,
        last (answers events) = Some r -> without_status r = true ->
        exists i r1 r2,
          List.length (answers events)
          = Datatypes.S (Datatypes.S (Datatypes.S i))
          /\ answers events !! i = Some r1
          /\ answers events !! Datatypes.S i = Some r2
          /\ without_status r1 = true /\ without_status r2 = true)
  /\ (forall rq r,
        last (posts events) = Some rq -> last (answers events) = Some r ->
        result =
          if bool_decide (upload_status r = Some "final") then
            Some (Ok (HttpResponse__init__ (wire_headers r)
                        (StreamList [wire_text r]) None))
          else if bool_decide (upload_status r = Some "active") then
            if finalizes rq then Some (Raise all_content_error) else None
          else Some (Raise not_finalized_error))
  /\ (forall r, result = Some (Ok r) ->
        exists response,
          last (answers events) = Some response
          /\ upload_status response = Some "final"
          /\ r = HttpResponse__init__ (wire_headers response)
                   (StreamList [wire_text response]) None)
  /\ (forall chunk offset,
        let rq := chunk_request upload_url upload_size tmo chunk offset in
        let chunk_size := Z.of_nat (String.length chunk) in
        w_method rq = "POST" /\ w_url rq = upload_url
        /\ w_content rq = Some chunk
        /\ w_headers rq !! "X-Goog-Upload-Offset" = Some (str_of_Z offset)
        /\ w_headers rq !! "Content-Length" = Some (str_of_Z chunk_size)
        /\ w_headers rq !! "X-Goog-Upload-Command" =
             Some (if upload_size <=? offset + chunk_size
                   then "upload, finalize" else "upload")
        /\ finalizes rq = (upload_size <=? offset + chunk_size))
  /\ (upload_size <= Z.of_nat (String.length file) ->
      (Z.to_nat upload_size < fuel)%nat ->
      result <> None
      /\ ((forall s rq,
              upload_status (snd (httpx_request s rq)) = Some "active") ->
          result = Some (Raise all_content_error)))
  /\ (_upload_fd active_then_final 6 2 example_client "0123456789"
        "https://upload" 10 None 0%nat
      = (2%nat,
         [Post example_rq1 (upload_answer 200 "active");
          Post example_rq2 (upload_answer 200 "final")],
         Some (Ok (HttpResponse__init__
                     (wire_headers (upload_answer 200 "final"))
                     (StreamList ["{}"]) None)))
      /\ _upload_fd active_then_final 6 1 example_client "0123456789"
           "https://upload" 10 None 0%nat
         = (1%nat, [Post example_rq1 (upload_answer 200 "active")], None)
      /\ w_headers example_rq1 !! "X-Goog-Upload-Offset" = Some "0"
      /\ w_headers example_rq1 !! "X-Goog-Upload-Command" = Some "upload"
      /\ w_content example_rq1 = Some "012345"
      /\ w_headers example_rq2 !! "X-Goog-Upload-Offset" = Some "6"
      /\ w_headers example_rq2 !! "X-Goog-Upload-Command"
         = Some "upload, finalize"
      /\ w_content example_rq2 = Some "6789").
Proof.
  intros Hchunk tmo run events result.
  unfold run, _upload_fd in events, result. fold tmo in events, result.
  pose proof (upload_loop_trace httpx_request CHUNK_SIZE upload_url upload_size
                tmo fuel file 0 srv) as Htrace.
  pose proof (upload_loop_requests httpx_request CHUNK_SIZE upload_url
                upload_size tmo fuel file 0 srv) as Hrequests.
  pose proof (upload_loop_ends httpx_request CHUNK_SIZE upload_url
                upload_size tmo fuel file 0 srv) as Hends.
  pose proof (upload_loop_terminates httpx_request CHUNK_SIZE upload_url
                upload_size tmo fuel file 0 srv Hchunk) as Hterm.
  pose proof (upload_loop_break_answer httpx_request CHUNK_SIZE upload_url
                upload_size tmo fuel file 0 srv) as Hanswer.
  destruct (upload_loop httpx_request CHUNK_SIZE fuel upload_url upload_size
              tmo file 0 srv) as [[srv' evs] exit].
  cbn [fst snd] in *. subst events result.
  destruct Htrace as (counts & Hlen & Hall & Hposts & Hexit).
  destruct Hrequests as [Hreq Hsilent].
  destruct Hends as (Hon & Hnf & Hthird & Hlast & Hzero & Hsome).
  assert (Hresult : forall rq r,
            last (posts evs) = Some rq -> last (answers evs) = Some r ->
            match exit with
            | Some (Break response) =>
                if negb (bool_decide (upload_status response = Some "final"))
                then Some (Raise not_finalized_error)
                else Some (Ok (HttpResponse__init__ (wire_headers response)
                                 (StreamList [wire_text response]) None))
            | Some (Raised e) => Some (Raise e)
            | None => None
            end
            = if bool_decide (upload_status r = Some "final") then
                Some (Ok (HttpResponse__init__ (wire_headers r)
                            (StreamList [wire_text r]) None))
              else if bool_decide (upload_status r = Some "active") then
                if finalizes rq then Some (Raise all_content_error) else None
              else Some (Raise not_finalized_error)).
  { intros rq r Hrq Hr. rewrite (Hlast rq r Hrq Hr).
    case_bool_decide as Hactive.
    - rewrite bool_decide_eq_false_2 by congruence.
      now destruct (finalizes rq).
    - now case_bool_decide. }
  split; [exact Hreq|].
  split; [exact Hon|]. split; [exact Hnf|].
  split; [|split; [exact Hthird|split; [exact Hresult|]]].
  - intros i r1 r2 r3 H1 H2 H3 Hw1 Hw2 Hw3.
    destruct (Hsilent i r1 r2 r3 H1 H2 H3 Hw1 Hw2 Hw3) as [Hl ->].
    split; [exact Hl|].
    rewrite bool_decide_eq_false_2; [reflexivity|].
    intros Hfinal. unfold without_status in Hw3. now rewrite Hfinal in Hw3.
  - split; [|split; [|split]].
    + intros r Hr.
      destruct fuel as [|fuel'].
      { rewrite (Hzero eq_refl) in *. cbn in Hlast.
        destruct exit as [[resp|e]|]; [|discriminate|discriminate].
        destruct Hexit as [H1 _]. discriminate. }
      destruct Hsome as [Hp Ha]; [discriminate|].
      destruct (last (posts evs)) as [rq|] eqn:Hlp;
        [|now apply last_None in Hlp].
      destruct (last (answers evs)) as [response|] eqn:Hla;
        [|now apply last_None in Hla].
      rewrite (Hresult rq response eq_refl eq_refl) in Hr.
      exists response. split; [reflexivity|].
      case_bool_decide as Hfinal.
      * injection Hr as <-. auto.
      * case_bool_decide; [destruct (finalizes rq)|]; discriminate.
    + intros chunk offset.
      pose proof (chunk_request_headers upload_url upload_size tmo chunk offset)
        as H. cbv zeta in H |- *.
      destruct H as (H1 & H2 & H3 & H4 & H5 & H6).
      repeat (split; [assumption|]).
      apply finalizes_chunk_request.
    + intros Hfile Hfuel.
      assert (Hne : exit <> None) by (apply Hterm; lia).
      split.
      * destruct exit as [[resp|e]|]; [destruct (negb _)| |]; congruence.
      * intros Halways.
        destruct exit as [[resp|e]|]; [| |congruence].
        -- destruct (Hanswer resp eq_refl) as (s & rq & ->).
           destruct Hexit as [_ H2]. elim H2. apply Halways.
        -- destruct Hexit as (-> & _). reflexivity.
    + exact upload_example_two_posts.
Qed.

(** The upload theorem at chunks of six bytes: the example upload, the
    upload whose first answer carries no status, and the same file
    against a server that answers 'active' for ever. *)
Lemma upload_fd_protocol_witness :
  0 < 6
  /\ (forall r,
        snd (_upload_fd active_then_final 6 2 example_client "0123456789"
               "https://upload" 10 None 0%nat) = Some (Ok r) ->
        exists response,
          last (answers
                  (snd (fst (_upload_fd active_then_final 6 2 example_client
                               "0123456789" "https://upload" 10 None 0%nat))))
          = Some response
          /\ upload_status response = Some "final"
          /\ r = HttpResponse__init__ (wire_headers response)
                   (StreamList [wire_text response]) None)
  /\ posts (snd (fst (_upload_fd silent_then_active_then_final 6 2
                        example_client "0123456789" "https://upload" 10 None
                        0%nat)))
     = requests_for "https://upload" 10 None 6
         [answer_without_status; upload_answer 200 "active";
          upload_answer 200 "final"] "0123456789" 0
  /\ snd (_upload_fd always_active 6 11 example_client "0123456789"
            "https://upload" 10 None 0%nat)
     = Some (Raise all_content_error).
Proof.
  split; [lia|]. split; [|split].
  - exact (proj1 (proj2 (proj2 (proj2 (proj2 (proj2 (proj2
      (upload_fd_protocol active_then_final 6 2 example_client "0123456789"
         "https://upload" 10 None 0%nat eq_refl)))))))).
  - exact (proj1
      (upload_fd_protocol silent_then_active_then_final 6 2 example_client
         "0123456789" "https://upload" 10 None 0%nat eq_refl)).
  - refine (proj2 (proj1 (proj2 (proj2 (proj2 (proj2 (proj2 (proj2 (proj2
      (proj2 (upload_fd_protocol always_active 6 11 example_client
                "0123456789" "https://upload" 10 None 0%nat eq_refl)))))))))
      _ _) _).
    + vm_compute. discriminate.
    + vm_compute. lia.
    + intros s rq. reflexivity.
Defined.

(** ** Building requests *)

(** C7, as stated, fails: with an ephemeral-token API key a build can fail
    with another error than EphemeralTokenAPIKeyError.  When the call's
    options blank the base URL, the base-URL check, which comes first,
    raises ValueError('Base URL must be set.'). *)
Lemma build_request_base_url_error_first :
  startswith (default "" (api_key ephemeral_client)) "auth_tokens/" = true
  /\ snd (_build_request example_runtime ephemeral_client "post"
            "models/m:generateContent" 1%positive
            (Some (AsHttpOptions blank_base_url)) caller_store)
     = Raise (ValueError "Base URL must be set.").
Proof. split; vm_compute; reflexivity. Qed.

(** C7, amended: while the client's API key starts with 'auth_tokens/',
    no call built through [_build_request] yields a request, and the
    builder makes no network request at all; the build fails with
    EphemeralTokenAPIKeyError whenever the steps before the check pass
    (the call's options validate, the merged base URL is not empty and
    urllib accepts it), in particular for every call without options of
    its own on a client whose base URL is the public endpoint; otherwise
    it fails with the error of the earlier step. *)
Theorem build_request_rejects_ephemeral_token (rt : Runtime)
    (self : BaseApiClient) (http_method path : string) (request_dict : loc)
    (http_options : option HttpOptionsOrDict) (σ : store) :
  ostr_truthy (api_key self) = true ->
  startswith (default "" (api_key self)) "auth_tokens/" = true ->
  let r := snd (_build_request rt self http_method path request_dict
                  http_options σ) in
  (exists e, r = Raise e)
  /\ (forall p url,
        patch_for_call rt self http_options = Ok p ->
        ostr_truthy (base_url (patched_options p)) = true ->
        _join_url_path rt (default "" (base_url (patched_options p)))
          (versioned (patched_options p)
             (qualified_path self http_method path)) = Ok url ->
        r = Raise ephemeral_error)
  /\ (http_options = None ->
      base_url (_http_options self)
        = Some "https://generativelanguage.googleapis.com/" ->
      r = Raise ephemeral_error)
  /\ (forall e, r = Raise e ->
        e = ephemeral_error
        \/ patch_for_call rt self http_options = Raise e
        \/ e = ValueError "Base URL must be set."
        \/ exists p,
             patch_for_call rt self http_options = Ok p
             /\ _join_url_path rt (default "" (base_url (patched_options p)))
                  (versioned (patched_options p)
                     (qualified_path self http_method path)) = Raise e).
Proof.
  intros Hkey Hprefix r.
  assert (Hgen : forall p url,
        patch_for_call rt self http_options = Ok p ->
        ostr_truthy (base_url (patched_options p)) = true ->
        _join_url_path rt (default "" (base_url (patched_options p)))
          (versioned (patched_options p)
             (qualified_path self http_method path)) = Ok url ->
        r = Raise ephemeral_error).
  { intros p url Hp Hb Hj. unfold r, _build_request.
    rewrite Hp. cbv zeta. rewrite Hb. cbn [negb]. cbv iota.
    rewrite Hj, Hkey, Hprefix. cbn [andb].
    now destruct (extra_body (patched_options p)) as [eb|];
      [destruct (dict_truthy eb)|]. }
  assert (Hclass : forall e, r = Raise e ->
        e = ephemeral_error
        \/ patch_for_call rt self http_options = Raise e
        \/ e = ValueError "Base URL must be set."
        \/ exists p,
             patch_for_call rt self http_options = Ok p
             /\ _join_url_path rt (default "" (base_url (patched_options p)))
                  (versioned (patched_options p)
                     (qualified_path self http_method path)) = Raise e).
  { intros e. unfold r, _build_request.
    destruct (patch_for_call rt self http_options) as [p|e0] eqn:Hp.
    - cbv zeta.
      destruct (ostr_truthy (base_url (patched_options p))); cbn [negb];
        cbv iota.
      + destruct (_join_url_path rt _ _) as [url|e1] eqn:Hj.
        * rewrite Hkey, Hprefix. cbn [andb].
          destruct (extra_body (patched_options p)) as [eb|];
            [destruct (dict_truthy eb)|];
            cbn [snd]; intros H; injection H as <-; auto.
        * destruct (extra_body (patched_options p)) as [eb|];
            [destruct (dict_truthy eb)|];
            cbn [snd]; intros H; injection H as <-;
            right; right; right; exists p; auto.
      + cbn [snd]. intros H; injection H as <-. auto.
    - cbn [snd]. intros H; injection H as <-. auto. }
  split; [|split; [exact Hgen|split; [|exact Hclass]]].
  - destruct r as [req|e] eqn:Hr; [|eauto]. exfalso.
    revert Hr. unfold r, _build_request.
    destruct (patch_for_call rt self http_options) as [p|e0]; [|discriminate].
    cbv zeta.
    destruct (ostr_truthy (base_url (patched_options p))); cbn [negb];
      cbv iota; [|discriminate].
    destruct (_join_url_path rt _ _) as [url|e1]; [|
      destruct (extra_body (patched_options p)) as [eb|];
        [destruct (dict_truthy eb)|]; discriminate].
    rewrite Hkey, Hprefix. cbn [andb].
    destruct (extra_body (patched_options p)) as [eb|];
      [destruct (dict_truthy eb)|]; discriminate.
  - intros -> Hbase.
    eapply (Hgen (ClientOwn (_http_options self))).
    + reflexivity.
    + cbn [patched_options]. now rewrite Hbase.
    + cbn [patched_options]. rewrite Hbase. cbn [default].
      apply (join_url_path_well_formed rt "https"
               "generativelanguage.googleapis.com" "/" _
               eq_refl eq_refl eq_refl).
Qed.

(** The rejection theorem at a call without options of its own. *)
Lemma build_request_rejects_ephemeral_token_witness :
  snd (_build_request example_runtime ephemeral_client "post"
         "models/m:generateContent" 1%positive None caller_store)
  = Raise ephemeral_error.
Proof.
  exact (proj1 (proj2 (proj2
    (build_request_rejects_ephemeral_token example_runtime ephemeral_client
       "post" "models/m:generateContent" 1%positive None caller_store
       eq_refl eq_refl))) eq_refl eq_refl).
Defined.

Lemma dict_get_del_where (p : string -> bool) (d : pydict) (k : string) :
  dict_get k (dict_del_where p d) = if p k then None else dict_get k d.
Proof.
  unfold dict_del_where.
  induction d as [|[k' v] t IH]; simpl; [now destruct (p k)|].
  destruct (p k') eqn:Hk'; simpl.
  - rewrite IH. destruct (String.eqb_spec k k') as [->|Hne].
    + now rewrite Hk'.
    + reflexivity.
  - rewrite IH. destruct (String.eqb_spec k k') as [->|Hne].
    + now rewrite Hk'.
    + reflexivity.
Qed.

Lemma dict_get_set (k k' : string) (v : value) (d : pydict) :
  dict_get k (dict_set k' v d) = if String.eqb k k' then Some v else dict_get k d.
Proof.
  induction d as [|[k0 v0] t IH]; simpl.
  - reflexivity.
  - destruct (String.eqb_spec k' k0) as [->|Hne]; simpl.
    + now destruct (String.eqb k k0).
    + rewrite IH. destruct (String.eqb_spec k k0) as [->|Hne2].
      * destruct (String.eqb_spec k0 k') as [->|]; [congruence | reflexivity].
      * reflexivity.
Qed.

(** The merge leaves alone every key the update does not name. *)
Lemma recursive_dict_update_other (update target : pydict) (k : string) :
  dict_get k update = None ->
  dict_get k (recursive_dict_update target update) = dict_get k target.
Proof.
  revert target. induction update as [|[k' v] rest IH]; intros target; simpl.
  - reflexivity.
  - destruct (String.eqb_spec k k') as [->|Hne]; [discriminate|].
    intros Hrest. rewrite (IH _ Hrest), dict_get_set.
    now apply String.eqb_neq in Hne as ->.
Qed.

(** Under a key of the update, the target holds the deep merge of what it
    held with the update's value. *)
Lemma recursive_dict_update_key (update target : pydict) (k : string) (v : value) :
  List.NoDup (map fst update) -> List.In (k, v) update ->
  dict_get k (recursive_dict_update target update)
  = Some (deep_merge_value (dict_get k target) v).
Proof.
  revert target. induction update as [|[k' v'] rest IH]; intros target Hnd Hin;
    [contradiction|].
  simpl in Hnd. apply List.NoDup_cons_iff in Hnd as [Hfresh Hnd].
  destruct Hin as [Heq|Hin].
  - injection Heq as -> ->. simpl.
    rewrite recursive_dict_update_other.
    + rewrite dict_get_set, String.eqb_refl. reflexivity.
    + clear -Hfresh. induction rest as [|[k0 v0] t IHt]; [reflexivity|].
      simpl in *. destruct (String.eqb_spec k k0) as [->|]; [tauto|].
      apply IHt. tauto.
  - simpl. rewrite (IH _ Hnd Hin), dict_get_set.
    destruct (String.eqb_spec k k') as [->|]; [|reflexivity].
    elim Hfresh. apply in_map_iff. exists (k', v). auto.
Qed.

(** Where both sides hold a dictionary the merge descends. *)
Lemma deep_merge_value_dicts (td ud : pydict) :
  deep_merge_value (Some (VDict td)) (VDict ud)
  = VDict (recursive_dict_update td ud).
Proof.
  simpl. f_equal. revert td.
  induction ud as [|[k v] rest IH]; intros td; simpl; [reflexivity|].
  apply IH.
Qed.

Lemma deep_merge_value_replace (target : option value) (update : value) :
  (forall td ud, target = Some (VDict td) -> update <> VDict ud) ->
  deep_merge_value target update = update.
Proof.
  intros H. destruct update as [| | | | |ud]; try reflexivity.
  destruct target as [[| | | | |td]|]; try reflexivity.
  elim (H td ud); reflexivity.
Qed.

(** When a build returns a request, and what the store, the client and
    the request are then. *)
Lemma build_request_Ok_iff (rt : Runtime) (self : BaseApiClient)
    (http_method path : string) (request_dict : loc)
    (http_options : option HttpOptionsOrDict) (σ σ' : store)
    (self' : BaseApiClient) (req : HttpRequest) :
  _build_request rt self http_method path request_dict http_options σ
  = (σ', self', Ok req)
  <-> exists p h url,
        patch_for_call rt self http_options = Ok p
        /\ ostr_truthy (base_url (patched_options p)) = true
        /\ _join_url_path rt (default "" (base_url (patched_options p)))
             (versioned (patched_options p)
                (qualified_path self http_method path)) = Ok url
        /\ ostr_truthy (api_key self)
           && startswith (default "" (api_key self)) "auth_tokens/" = false
        /\ headers (patched_options p) = Some h
        /\ σ' = store_after_build p request_dict σ
        /\ let tmo := _get_timeout_in_seconds (timeout (patched_options p)) in
           let h' := _populate_server_timeout_header h tmo in
           self' = client_after_build self p h'
           /\ req = {| req_headers := h'; req_url := url;
                       req_method := http_method;
                       req_data := DataDict request_dict;
                       req_timeout := tmo |}.
Proof.
  unfold _build_request, store_after_build, client_after_build.
  destruct (patch_for_call rt self http_options) as [p|e].
  2: { split; [discriminate | intros (p & h & url & H & _); discriminate]. }
  cbv zeta.
  destruct (ostr_truthy (base_url (patched_options p))) eqn:Hb; cbn [negb].
  2: { split; [discriminate
              | intros (p0 & h & url & H & H' & _); injection H as <-;
                congruence]. }
  destruct (_join_url_path rt _ _) as [url|e] eqn:Hj.
  2: { split; [discriminate
              | intros (p0 & h & url & H & _ & H' & _); injection H as <-;
                congruence]. }
  destruct (ostr_truthy (api_key self)
            && startswith (default "" (api_key self)) "auth_tokens/") eqn:He.
  { split; [discriminate
           | intros (p0 & h & url0 & H & _ & _ & H' & _); discriminate]. }
  destruct (headers (patched_options p)) as [h|] eqn:Hh.
  2: { split; [discriminate
              | intros (p0 & h & url0 & H & _ & _ & _ & H' & _);
                injection H as <-; congruence]. }
  split.
  - intros H. injection H as <- <- <-.
    exists p, h, url. repeat split; auto.
  - intros (p0 & h0 & url0 & H1 & _ & H3 & _ & H5 & -> & -> & ->).
    injection H1 as <-. rewrite Hh in H5. injection H5 as <-.
    rewrite Hj in H3. injection H3 as <-. reflexivity.
Qed.

(** The store after a build, whether it returns a request or raises. *)
Lemma build_request_store (rt : Runtime) (self : BaseApiClient)
    (http_method path : string) (request_dict : loc)
    (http_options : option HttpOptionsOrDict) (σ : store) :
  fst (fst (_build_request rt self http_method path request_dict
              http_options σ))
  = alter (fun d => recursive_dict_update
                      (dict_del_where (fun key => startswith key "_") d)
                      (merged_extra_body rt self http_options))
      request_dict σ.
Proof.
  unfold _build_request, merged_extra_body.
  assert (Hid : forall s : store,
            s = alter (fun d => recursive_dict_update d []) request_dict s).
  { intros s. apply map_eq. intros l.
    destruct (decide (l = request_dict)) as [->|Hne].
    - rewrite lookup_alter_eq. now destruct (s !! request_dict).
    - now rewrite lookup_alter_ne. }
  assert (Hcomp : forall eb,
            alter (fun d => recursive_dict_update d eb) request_dict
              (alter (dict_del_where (fun key => startswith key "_"))
                 request_dict σ)
            = alter (fun d => recursive_dict_update
                               (dict_del_where (fun key => startswith key "_") d)
                               eb) request_dict σ).
  { intros eb. apply map_eq. intros l.
    destruct (decide (l = request_dict)) as [->|Hne].
    - rewrite !lookup_alter_eq. now destruct (σ !! request_dict).
    - now rewrite !lookup_alter_ne. }
  destruct (patch_for_call rt self http_options) as [p|e];
    [|cbn [fst]; rewrite <- Hcomp; apply Hid].
  cbv zeta.
  destruct (ostr_truthy (base_url (patched_options p))); cbn [negb];
    [|cbn [fst]; rewrite <- Hcomp; apply Hid].
  assert (Hσ : match extra_body (patched_options p) with
               | Some eb =>
                   if dict_truthy eb
                   then alter (fun d => recursive_dict_update d eb) request_dict
                          (alter (dict_del_where
                                    (fun key => startswith key "_"))
                             request_dict σ)
                   else alter (dict_del_where (fun key => startswith key "_"))
                          request_dict σ
               | None => alter (dict_del_where (fun key => startswith key "_"))
                           request_dict σ
               end
               = alter (fun d => recursive_dict_update
                                   (dict_del_where
                                      (fun key => startswith key "_") d)
                                   (default [] (extra_body (patched_options p))))
                   request_dict σ).
  { destruct (extra_body (patched_options p)) as [[|kv eb]|];
      cbn [dict_truthy default from_option id];
      rewrite <- Hcomp; try reflexivity; apply Hid. }
  destruct (_join_url_path rt _ _) as [url|e]; [|exact Hσ].
  destruct (_ && _); [exact Hσ|].
  destruct (headers (patched_options p)); exact Hσ.
Qed.

(** C10, as stated, fails: an extra body that is configured is not always
    merged.  The merge comes after the options of the call are validated
    and the base URL is checked; when the call's options blank the base
    URL the build raises first, and the caller's dictionary has lost its
    '_' keys but has not taken the fields of the extra body. *)
Lemma build_request_skips_merge :
  let run := _build_request example_runtime example_client "post"
               "models/m:generateContent" 1%positive
               (Some (AsHttpOptions (blank_base_url_with example_extra_body)))
               caller_store in
  extra_body (blank_base_url_with example_extra_body)
  = Some example_extra_body
  /\ snd run = Raise (ValueError "Base URL must be set.")
  /\ fst (fst run) !! 1%positive
     = Some [("contents", VList [VStr "hello"]);
             ("generationConfig", VDict [("temperature", VInt 1)])].
Proof. repeat split; vm_compute; reflexivity. Qed.

(** C10, amended: [_build_request] changes the caller's dictionary in
    place, whether it returns a request or raises: the keys that start
    with '_' are deleted, and then, when the options of the call have
    validated and the base URL is set, the extra body of the options in
    force is merged into the same dictionary ([merged_extra_body]; an
    extra body that is absent or empty merges nothing).  The merge is
    deep: under a key of the extra body a dictionary met by a dictionary
    is merged in turn, anything else is replaced by the extra body's
    value; the entries under other keys keep their values.  A request is
    returned exactly when the options validate, the base URL is set and
    joins with the path, the API key is no ephemeral token and headers
    are set; the request returned holds the reference of the caller's
    dictionary, not a copy.  The caller's dictionary is told by value:
    each nested dictionary belongs to the one entry that holds it, and
    what the merge makes of a nested dictionary that is shared is not
    stated. *)
Theorem build_request_mutates_caller_dict (rt : Runtime) (self : BaseApiClient)
    (http_method path : string) (request_dict : loc)
    (http_options : option HttpOptionsOrDict) (σ : store) (d : pydict) :
  σ !! request_dict = Some d ->
  let run := _build_request rt self http_method path request_dict
               http_options σ in
  let σ' := fst (fst run) in
  let stripped := dict_del_where (fun key => startswith key "_") d in
  let eb := merged_extra_body rt self http_options in
  σ' !! request_dict = Some (recursive_dict_update stripped eb)
  /\ ((exists req, snd run = Ok req)
      <-> exists p url,
            patch_for_call rt self http_options = Ok p
            /\ ostr_truthy (base_url (patched_options p)) = true
            /\ _join_url_path rt (default "" (base_url (patched_options p)))
                 (versioned (patched_options p)
                    (qualified_path self http_method path)) = Ok url
            /\ ostr_truthy (api_key self)
               && startswith (default "" (api_key self)) "auth_tokens/" = false
            /\ is_some (headers (patched_options p)) = true)
  /\ (forall req, snd run = Ok req -> req_data req = DataDict request_dict)
  /\ (forall k, startswith k "_" = true -> dict_get k stripped = None)
  /\ (forall k, startswith k "_" = false -> dict_get k stripped = dict_get k d)
  /\ (forall k,
        dict_get k eb = None ->
        dict_get k (recursive_dict_update stripped eb) = dict_get k stripped)
  /\ (forall k v,
        List.NoDup (map fst eb) -> List.In (k, v) eb ->
        dict_get k (recursive_dict_update stripped eb)
        = Some (deep_merge_value (dict_get k stripped) v))
  /\ (forall td ud,
        deep_merge_value (Some (VDict td)) (VDict ud)
        = VDict (recursive_dict_update td ud))
  /\ (forall target update,
        (forall td ud, target = Some (VDict td) -> update <> VDict ud) ->
        deep_merge_value target update = update).
Proof.
  intros Hd run σ' stripped eb.
  assert (Hσ : σ' = alter (fun d => recursive_dict_update
                                     (dict_del_where
                                        (fun key => startswith key "_") d) eb)
                      request_dict σ) by apply build_request_store.
  assert (Hok : forall req,
            snd run = Ok req ->
            exists σ1 self1,
              _build_request rt self http_method path request_dict
                http_options σ = (σ1, self1, Ok req)).
  { intros req. unfold run.
    destruct (_build_request rt self http_method path request_dict
                http_options σ) as [[σ1 self1] r].
    cbn [snd]. intros ->. eauto. }
  split; [rewrite Hσ, lookup_alter_eq, Hd; reflexivity|].
  split; [|split].
  - split.
    + intros [req Hreq]. destruct (Hok req Hreq) as (σ1 & self1 & Hrun).
      apply build_request_Ok_iff in Hrun
        as (p & h & url & H1 & H2 & H3 & H4 & H5 & _).
      exists p, url. rewrite H5. auto.
    + intros (p & url & H1 & H2 & H3 & H4 & H5).
      destruct (headers (patched_options p)) as [h|] eqn:Hh; [|discriminate].
      eexists. unfold run.
      erewrite (proj2 (build_request_Ok_iff rt self http_method path
                         request_dict http_options σ _ _ _)).
      * reflexivity.
      * exists p, h, url. repeat split; eauto.
  - intros req Hreq. destruct (Hok req Hreq) as (σ1 & self1 & Hrun).
    apply build_request_Ok_iff in Hrun
      as (p & h & url & _ & _ & _ & _ & _ & _ & _ & ->).
    reflexivity.
  - split; [|split; [|split; [|split; [|split]]]].
    + intros k Hk. unfold stripped. now rewrite dict_get_del_where, Hk.
    + intros k Hk. unfold stripped. now rewrite dict_get_del_where, Hk.
    + intros k. apply recursive_dict_update_other.
    + intros k v. apply recursive_dict_update_key.
    + apply deep_merge_value_dicts.
    + apply deep_merge_value_replace.
Qed.

(** The mutation theorem at the example dictionary and extra body: the
    special keys are gone, the extra body is merged, and the request
    holds the caller's reference. *)
Lemma build_request_mutates_caller_dict_witness :
  let run := _build_request example_runtime example_client "post"
               "models/m:generateContent" 1%positive
               (Some (AsHttpOptions (with_extra_body example_extra_body)))
               caller_store in
  caller_store !! 1%positive = Some caller_dict
  /\ fst (fst run) !! 1%positive
     = Some [("contents", VList [VStr "hello"]);
             ("generationConfig",
              VDict [("temperature", VInt 1); ("topK", VInt 5)]);
             ("labels", VStr "x")]
  /\ (forall req, snd run = Ok req -> req_data req = DataDict 1%positive).
Proof.
  pose proof (build_request_mutates_caller_dict example_runtime example_client
                "post" "models/m:generateContent" 1%positive
                (Some (AsHttpOptions (with_extra_body example_extra_body)))
                caller_store caller_dict eq_refl) as H.
  cbv zeta in H |- *.
  split; [reflexivity|]. split; [exact (proj1 H)|].
  exact (proj1 (proj2 (proj2 H))).
Defined.

(** ** Concurrent token access *)

Module TokenRaceFacts.
Import TokenRace.

Lemma insert_lookup_cases {A} (l : list A) (i j : nat) (c c' x : A) :
  l !! i = Some c -> <[i := c']> l !! j = Some x ->
  (j = i /\ x = c') \/ (j ≠ i /\ l !! j = Some x).
Proof.
  intros Hi Hj. destruct (decide (j = i)) as [->|Hne].
  - rewrite list_lookup_insert_eq in Hj by (eapply lookup_lt_Some; eauto).
    injection Hj as <-. auto.
  - rewrite list_lookup_insert_ne in Hj by congruence. auto.
Qed.

Lemma token_result_fresh (c : Credentials) :
  needs_refresh c = false -> exists t, token_result c = Ok t.
Proof.
  unfold needs_refresh, token_result. intros H.
  apply orb_false_iff in H as [_ H]. rewrite H. eauto.
Qed.

Lemma race_invariant (c : Credentials) (n : nat) :
  needs_refresh c = true -> invariant (race c n).
Proof.
  intros Hc.
  assert (Hstart : forall i x, callers (race c n) !! i = Some x -> x = Start).
  { intros i x H. simpl in H. apply lookup_replicate in H as [-> _].
    reflexivity. }
  split; simpl.
  - intros i x H Hh. apply Hstart in H. subst. discriminate.
  - intros i j ci cj H _ Hh. apply Hstart in H. subst. discriminate.
  - discriminate.
  - intros _. left. split; [reflexivity|]. intros i H.
    apply Hstart in H. discriminate.
  - congruence.
  - intros i r H. apply Hstart in H. discriminate.
Qed.

Section Steps.
  Variable refresh : Credentials -> result Credentials.
  Hypothesis refresh_works :
    forall c, exists c', refresh c = Ok c' /\ needs_refresh c' = false.

Ltac case_bool b H :=
    let C := fresh "C" in
    assert (C : {b = true} + {b = false}) by (destruct b; auto);
    destruct C as [H|H]; rewrite H.

Ltac cases_at Hi H :=
    let E := fresh "E" in
    destruct (insert_lookup_cases _ _ _ _ _ _ Hi H) as [[-> E]|[? ?]];
    [try subst; try discriminate|].

  (** A step of any caller keeps the invariant. *)
Lemma step_invariant (p : path) (s : system) (i : nat) :
    invariant s -> invariant (schedule_one refresh p s i).
  Proof.
    intros [I1 I2 I3 I4 I5 I6]. unfold schedule_one.
    destruct (callers s !! i) as [c|] eqn:Hi; [|now split].
    destruct c as [| | | |r]; cbn [caller_step].
    - (* Start *)
      assert (Hgo : invariant
                {| world := world s; callers := <[i:=WaitLock]> (callers s) |}).
      { split; cbn [world callers].
        - intros j x H Hh. cases_at Hi H. eauto.
        - intros j k cj ck Hj Hk Hhj Hhk.
          cases_at Hi Hj. cases_at Hi Hk. eauto.
        - intros Hl. destruct (I3 Hl) as (j & x & Hj & Hh).
          exists j, x. split; [|exact Hh].
          rewrite list_lookup_insert_ne; [exact Hj|].
          intros <-. rewrite Hi in Hj. injection Hj as <-. discriminate.
        - intros Hn. destruct (I4 Hn) as [[H0 Hno]|[H1 (j & Hj)]].
          + left. split; [exact H0|]. intros j H. cases_at Hi H.
            eapply Hno; eauto.
          + right. split; [exact H1|]. exists j.
            rewrite list_lookup_insert_ne; [exact Hj|].
            intros <-. rewrite Hi in Hj. discriminate.
        - intros Hn. destruct (I5 Hn) as [H1 Hno]. split; [exact H1|].
          intros j H. cases_at Hi H. eapply Hno; eauto.
        - intros j r H. cases_at Hi H. eauto. }
      destruct p; [exact Hgo|].
      case_bool (needs_refresh (credentials (world s))) Hn; [exact Hgo|].
      split; cbn [world callers].
      + intros j x H Hh. cases_at Hi H. eauto.
      + intros j k cj ck Hj Hk Hhj Hhk.
        cases_at Hi Hj. cases_at Hi Hk. eauto.
      + intros Hl. destruct (I3 Hl) as (j & x & Hj & Hh).
        exists j, x. split; [|exact Hh].
        rewrite list_lookup_insert_ne; [exact Hj|].
        intros <-. rewrite Hi in Hj. injection Hj as <-. discriminate.
      + congruence.
      + intros _. destruct (I5 Hn) as [H1 Hno]. split; [exact H1|].
        intros j H. cases_at Hi H. eapply Hno; eauto.
      + intros j r H.
        destruct (insert_lookup_cases _ _ _ _ _ _ Hi H) as [[-> E]|[? ?]].
        * injection E as ->. split; [exact Hn|].
          now apply token_result_fresh.
        * eauto.
    - (* WaitLock *)
      case_bool (lock_held (world s)) Hl; [now split|].
      assert (Hnone : forall j x, callers s !! j = Some x -> holds_lock x = false).
      { intros j x Hj. destruct (holds_lock x) eqn:Hh; [|reflexivity].
        rewrite (I1 _ _ Hj Hh) in Hl. discriminate. }
      split; cbn [world callers credentials lock_held refreshes].
      + reflexivity.
      + intros j k cj ck Hj Hk Hhj Hhk.
        destruct (insert_lookup_cases _ _ _ _ _ _ Hi Hj) as [[-> Ej]|[? Hj']];
        destruct (insert_lookup_cases _ _ _ _ _ _ Hi Hk) as [[-> Ek]|[? Hk']];
          auto.
        * rewrite (Hnone _ _ Hk') in Hhk. discriminate.
        * rewrite (Hnone _ _ Hj') in Hhj. discriminate.
        * rewrite (Hnone _ _ Hk') in Hhk. discriminate.
      + intros _. exists i, Locked. split; [|reflexivity].
        apply list_lookup_insert_eq. eapply lookup_lt_Some; eauto.
      + intros Hn. destruct (I4 Hn) as [[H0 Hno]|[H1 (j & Hj)]].
        * left. split; [exact H0|]. intros j H. cases_at Hi H.
          eapply Hno; eauto.
        * pose proof (Hnone _ _ Hj). discriminate.
      + intros Hn. destruct (I5 Hn) as [H1 Hno]. split; [exact H1|].
        intros j H. cases_at Hi H. eapply Hno; eauto.
      + intros j r H. cases_at Hi H. eauto.
    - (* Locked *)
      assert (Honly : forall j x, callers s !! j = Some x ->
                                  holds_lock x = true -> j = i).
      { intros j x Hj Hh. eapply I2; eauto. }
      case_bool (needs_refresh (credentials (world s))) Hn.
      + split; cbn [world callers credentials lock_held refreshes].
        * reflexivity.
        * intros j k cj ck Hj Hk Hhj Hhk.
          destruct (insert_lookup_cases _ _ _ _ _ _ Hi Hj) as [[-> Ej]|[? Hj']];
          destruct (insert_lookup_cases _ _ _ _ _ _ Hi Hk) as [[-> Ek]|[? Hk']];
            auto.
          -- symmetry. eauto.
          -- eauto.
          -- eauto.
        * intros _. exists i, Refreshing. split; [|reflexivity].
          apply list_lookup_insert_eq. eapply lookup_lt_Some; eauto.
        * intros _. right.
          destruct (I4 Hn) as [[H0 Hno]|[H1 (j & Hj)]].
          -- rewrite H0. split; [reflexivity|]. exists i.
             apply list_lookup_insert_eq. eapply lookup_lt_Some; eauto.
          -- pose proof (Honly _ _ Hj eq_refl) as ->.
             rewrite Hi in Hj. discriminate.
        * congruence.
        * intros j r H. cases_at Hi H. eauto.
      + split; cbn [world callers credentials lock_held refreshes].
        * intros j x H Hh.
          destruct (insert_lookup_cases _ _ _ _ _ _ Hi H) as [[-> E]|[Hne Hj]].
          -- subst. discriminate.
          -- elim Hne. eauto.
        * intros j k cj ck Hj Hk Hhj Hhk.
          destruct (insert_lookup_cases _ _ _ _ _ _ Hi Hj) as [[-> Ej]|[Hne Hj']].
          -- subst. discriminate.
          -- elim Hne. eauto.
        * discriminate.
        * congruence.
        * intros _. destruct (I5 Hn) as [H1 Hno]. split; [exact H1|].
          intros j H. cases_at Hi H. eapply Hno; eauto.
        * intros j r H.
          destruct (insert_lookup_cases _ _ _ _ _ _ Hi H) as [[-> E]|[? ?]].
          -- injection E as ->. split; [exact Hn|].
             now apply token_result_fresh.
          -- eauto.
    - (* Refreshing *)
      assert (Honly : forall j x, callers s !! j = Some x ->
                                  holds_lock x = true -> j = i).
      { intros j x Hj Hh. eapply I2; eauto. }
      destruct (refresh_works (credentials (world s))) as (c' & Hc' & Hfresh).
      rewrite Hc'.
      assert (Hwas : needs_refresh (credentials (world s)) = true).
      { destruct (needs_refresh (credentials (world s))) eqn:Hn; [reflexivity|].
        destruct (I5 eq_refl) as [_ Hno]. elim (Hno i). exact Hi. }
      split; cbn [world callers credentials lock_held refreshes].
      + intros j x H Hh.
        destruct (insert_lookup_cases _ _ _ _ _ _ Hi H) as [[-> E]|[Hne Hj]].
        * subst. discriminate.
        * elim Hne. eauto.
      + intros j k cj ck Hj Hk Hhj Hhk.
        destruct (insert_lookup_cases _ _ _ _ _ _ Hi Hj) as [[-> Ej]|[Hne Hj']].
        * subst. discriminate.
        * elim Hne. eauto.
      + discriminate.
      + congruence.
      + intros _. split.
        * destruct (I4 Hwas) as [[H0 Hno]|[H1 _]]; [|exact H1].
          elim (Hno i). exact Hi.
        * intros j H.
          destruct (insert_lookup_cases _ _ _ _ _ _ Hi H) as [[-> E]|[Hne Hj]].
          -- discriminate.
          -- elim Hne. eapply Honly; eauto.
      + intros j r H.
        destruct (insert_lookup_cases _ _ _ _ _ _ Hi H) as [[-> E]|[? Hj]].
        * injection E as ->. split; [exact Hfresh|].
          now apply token_result_fresh.
        * destruct (I6 _ _ Hj) as [Hn _]. congruence.
    - (* Returned *)
      now split.
  Qed.

Lemma run_invariant (p : path) (s : system) (schedule : list nat) :
    invariant s -> invariant (run refresh p s schedule).
  Proof.
    revert s. induction schedule as [|i rest IH]; intros s Hs; [exact Hs|].
    simpl. apply IH. now apply step_invariant.
  Qed.

  (** A caller running alone: its step, or no move. *)
Definition solo (p : path) (wc : shared * pc) : shared * pc :=
    match caller_step refresh p (fst wc) (snd wc) with
    | Some wc' => wc'
    | None => wc
    end.

Lemma schedule_one_solo (p : path) (s : system) (i : nat) (c : pc) :
    callers s !! i = Some c ->
    schedule_one refresh p s i
    = {| world := fst (solo p (world s, c));
         callers := <[i := snd (solo p (world s, c))]> (callers s) |}.
  Proof.
    intros Hi. unfold schedule_one, solo. rewrite Hi. cbn [fst snd].
    destruct (caller_step refresh p (world s) c) as [[w c']|]; [reflexivity|].
    cbn [fst snd]. rewrite list_insert_id by exact Hi. now destruct s.
  Qed.

Lemma turns_solo (p : path) (k : nat) (s : system) (i : nat) (c : pc) :
    callers s !! i = Some c ->
    run refresh p s (replicate k i)
    = {| world := fst (Nat.iter k (solo p) (world s, c));
         callers := <[i := snd (Nat.iter k (solo p) (world s, c))]> (callers s) |}.
  Proof.
    revert s c. induction k as [|k IH]; intros s c Hi.
    - cbn. rewrite list_insert_id by exact Hi. now destruct s.
    - assert (Hlt : (i < List.length (callers s))%nat)
        by (eapply lookup_lt_Some; eauto).
      change (run refresh p s (replicate (Datatypes.S k) i))
        with (run refresh p (schedule_one refresh p s i) (replicate k i)).
      rewrite (schedule_one_solo p s i c Hi).
      rewrite (IH _ (snd (solo p (world s, c))))
        by (cbn [callers]; now apply list_lookup_insert_eq).
      cbn [world callers]. rewrite list_insert_insert_eq.
      rewrite <- surjective_pairing, <- Nat.iter_succ_r. reflexivity.
  Qed.

  (** Alone, with the lock free or its own, a caller returns within four
      steps and leaves the lock free. *)
Lemma solo_returns (p : path) (w : shared) (c : pc) :
    lock_held w = false \/ holds_lock c = true ->
    (has_returned c = true -> lock_held w = false) ->
    lock_held (fst (Nat.iter 4 (solo p) (w, c))) = false
    /\ has_returned (snd (Nat.iter 4 (solo p) (w, c))) = true.
  Proof.
    intros Hfree Hret. destruct w as [cr lk n].
    destruct (refresh_works cr) as (cr' & Hr & _).
    destruct c as [| | | |r]; cbn [holds_lock has_returned] in *.
    - destruct Hfree as [Hf|?]; [|discriminate]. cbn in Hf. subst lk.
      destruct p; unfold solo; cbn; destruct (needs_refresh cr) eqn:Hn;
        repeat progress (cbn; rewrite ?Hn, ?Hr); auto.
    - destruct Hfree as [Hf|?]; [|discriminate]. cbn in Hf. subst lk.
      unfold solo; cbn; destruct (needs_refresh cr) eqn:Hn;
        repeat progress (cbn; rewrite ?Hn, ?Hr); auto.
    - unfold solo; cbn; destruct (needs_refresh cr) eqn:Hn;
        repeat progress (cbn; rewrite ?Hn, ?Hr); auto.
    - unfold solo; repeat progress (cbn; rewrite ?Hr); auto.
    - unfold solo; cbn. auto.
  Qed.

Lemma finish_caller (p : path) (s : system) (i : nat) (c : pc) :
    callers s !! i = Some c ->
    lock_held (world s) = false \/ holds_lock c = true ->
    lock_held (world (run refresh p s (finish i))) = false
    /\ exists c', has_returned c' = true
                  /\ callers (run refresh p s (finish i))
                     = <[i := c']> (callers s).
  Proof.
    intros Hi Hfree.
    change (finish i) with (replicate 4 i).
    rewrite (turns_solo p 4 s i c Hi). cbn [world callers].
    destruct (solo_returns p (world s) c Hfree) as [Hl Hr].
    - intros Hret. destruct Hfree as [?|Hh]; [assumption|].
      destruct c; discriminate.
    - split; [exact Hl|]. eauto.
  Qed.

Lemma finish_out_of_range (p : path) (s : system) (i : nat) :
    callers s !! i = None -> run refresh p s (finish i) = s.
  Proof.
    intros Hi. unfold finish, run. cbn [fold_left].
    unfold schedule_one. now rewrite !Hi.
  Qed.

  (** Finishing the callers of a list one after the other, from a state
      with the lock free: the lock is free again, who had returned still
      has, and every caller of the list has returned. *)
Lemma finish_list (p : path) (ks : list nat) (s : system) :
    lock_held (world s) = false ->
    let s' := run refresh p s (flat_map finish ks) in
    lock_held (world s') = false
    /\ List.length (callers s') = List.length (callers s)
    /\ (forall j c, callers s !! j = Some c -> has_returned c = true ->
          exists c', callers s' !! j = Some c' /\ has_returned c' = true)
    /\ (forall k, List.In k ks -> (k < List.length (callers s))%nat ->
          exists c', callers s' !! k = Some c' /\ has_returned c' = true).
  Proof.
    revert s. induction ks as [|k rest IH]; intros s Hfree; cbn zeta.
    - cbn. repeat split; eauto. intros k [].
    - cbn [flat_map]. unfold run. rewrite fold_left_app.
      fold (run refresh p s (finish k)).
      fold (run refresh p (run refresh p s (finish k)) (flat_map finish rest)).
      destruct (callers s !! k) as [c|] eqn:Hk.
      + destruct (finish_caller p s k c Hk (or_introl Hfree))
          as (Hl & c' & Hc' & Hcallers).
        assert (Hlt : (k < List.length (callers s))%nat)
          by (eapply lookup_lt_Some; eauto).
        destruct (IH _ Hl) as (H1 & H2 & H3 & H4).
        rewrite Hcallers in H2, H3, H4. rewrite length_insert in H2, H4.
        split; [exact H1|]. split; [exact H2|]. split.
        * intros j x Hj Hx. destruct (decide (j = k)) as [->|Hne].
          -- apply (H3 k c'); [now apply list_lookup_insert_eq | exact Hc'].
          -- apply (H3 j x); [|exact Hx].
             now rewrite list_lookup_insert_ne by congruence.
        * intros j [<-|Hin] Hj.
          -- apply (H3 k c'); [now apply list_lookup_insert_eq | exact Hc'].
          -- now apply H4.
      + rewrite (finish_out_of_range p s k Hk).
        destruct (IH _ Hfree) as (H1 & H2 & H3 & H4).
        split; [exact H1|]. split; [exact H2|]. split; [exact H3|].
        intros j [<-|Hin] Hj.
        * apply lookup_ge_None in Hk. lia.
        * now apply H4.
  Qed.

Lemma schedule_one_length (p : path) (s : system) (i : nat) :
    List.length (callers (schedule_one refresh p s i))
    = List.length (callers s).
  Proof.
    unfold schedule_one. destruct (callers s !! i) as [c|]; [|reflexivity].
    destruct (caller_step refresh p (world s) c) as [[w c']|]; [|reflexivity].
    cbn [callers]. apply length_insert.
  Qed.

Lemma run_length (p : path) (s : system) (schedule : list nat) :
    List.length (callers (run refresh p s schedule))
    = List.length (callers s).
  Proof.
    revert s. induction schedule as [|i rest IH]; intros s; [reflexivity|].
    cbn. unfold run in IH. rewrite IH. apply schedule_one_length.
  Qed.

  (** From the invariant: at most one refresh, and exactly one once some
      caller has returned. *)
Lemma invariant_counts (s : system) :
    invariant s ->
    (refreshes (world s) <= 1)%nat
    /\ (all_returned s = true -> callers s <> [] ->
        refreshes (world s) = 1%nat
        /\ forallb returned_ok (callers s) = true).
  Proof.
    intros [I1 I2 I3 I4 I5 I6]. split.
    - destruct (needs_refresh (credentials (world s))) eqn:Hn.
      + destruct (I4 eq_refl) as [[-> _]|[-> _]]; lia.
      + destruct (I5 eq_refl) as [-> _]. lia.
    - intros Hall Hne. unfold all_returned in Hall.
      rewrite forallb_forall in Hall. split.
      + destruct (callers s) as [|c0 rest] eqn:Hcs; [congruence|].
        pose proof (Hall c0 (or_introl eq_refl)) as H0.
        destruct c0 as [| | | |r]; try discriminate.
        destruct (I6 0%nat r eq_refl) as [Hn _].
        now destruct (I5 Hn).
      + apply forallb_forall. intros x Hx.
        pose proof (Hall x Hx) as H0.
        destruct x as [| | | |r]; try discriminate.
        apply list_elem_of_In, list_elem_of_lookup in Hx as [j Hj].
        destruct (I6 j r Hj) as [_ [t ->]]. reflexivity.
  Qed.
End Steps.

(** Callers that are all of one path never touch the lock of the other
    path: their run among callers of both paths is their run with the
    lock of their path alone. *)
Lemma schedule_caller_one_path (refresh : Credentials -> result Credentials)
    (p : path) (s : client_state) (i : nat) :
  Forall (fun pc => fst pc = p) (path_callers s) ->
  Forall (fun pc => fst pc = p) (path_callers (schedule_caller refresh s i))
  /\ as_one_path p (schedule_caller refresh s i)
     = schedule_one refresh p (as_one_path p s) i.
Proof.
  intros Hall. unfold schedule_caller, schedule_one, as_one_path.
  cbn [callers world]. rewrite list_lookup_fmap.
  destruct (path_callers s !! i) as [[q c]|] eqn:Hi; cbn [fmap option_fmap
    option_map snd]; [|auto].
  assert (q = p) as ->.
  { rewrite Forall_forall in Hall.
    exact (Hall (q, c)
             (proj2 (list_elem_of_lookup _ _) (ex_intro _ i Hi))). }
  destruct (caller_step refresh p (view p s) c) as [[w c']|]; [|auto].
  cbn [path_callers]. split.
  - apply Forall_insert; [exact Hall | reflexivity].
  - rewrite list_fmap_insert. cbn [snd]. f_equal.
    destruct w as [cr lk n]. unfold view.
    cbn [shared_credentials sync_lock_held async_lock_held refresh_calls
         credentials lock_held refreshes].
    now destruct p.
Qed.

Lemma run_callers_one_path (refresh : Credentials -> result Credentials)
    (p : path) (c : Credentials) (n : nat) (schedule : list nat) :
  as_one_path p (run_callers refresh (race_of c (replicate n p)) schedule)
  = run refresh p (race c n) schedule.
Proof.
  assert (Hgen : forall s,
            Forall (fun pc => fst pc = p) (path_callers s) ->
            as_one_path p (run_callers refresh s schedule)
            = run refresh p (as_one_path p s) schedule).
  { induction schedule as [|i rest IH]; intros s Hall; [reflexivity|].
    cbn [run_callers run fold_left].
    destruct (schedule_caller_one_path refresh p s i Hall) as [Hall' <-].
    apply (IH _ Hall'). }
  rewrite Hgen.
  - f_equal. unfold as_one_path, race_of, race, view.
    cbn [path_callers shared_credentials sync_lock_held async_lock_held
         refresh_calls].
    f_equal; [now destruct p|].
    rewrite <- list_fmap_compose. induction n as [|n IH]; [reflexivity|].
    cbn. now rewrite IH.
  - cbn [race_of path_callers]. apply Forall_fmap, Forall_forall.
    intros x Hx. cbn. now apply elem_of_replicate in Hx as [-> _].
Qed.

(** C6, as stated, fails: callers that find the token expired can execute
    two refreshes.  When the refresh raises, the caller leaves the lock
    with the token still expired, and the next caller to acquire the lock
    refreshes again; this on the blocking and on the suspend-capable
    path.  And when the refresh succeeds, a thread in [_access_token] and
    a coroutine in [_async_access_token] take two different locks, so
    each finds the token expired inside its own lock and both refresh. *)
Lemma refresh_repeated :
  (let s := run refresh_down Blocking (race stale_credentials 2) two_racing in
   all_returned s = true /\ refreshes (world s) = 2%nat)
  /\ (let s := run refresh_down Suspending (race stale_credentials 2)
                 two_racing in
      all_returned s = true /\ refreshes (world s) = 2%nat)
  /\ (let s := run_callers refresh_ok
                 (race_of stale_credentials [Blocking; Suspending])
                 thread_and_coroutine in
      path_callers s = [(Blocking, Returned (Ok "new"));
                        (Suspending, Returned (Ok "new"))]
      /\ refresh_calls s = 2%nat
      /\ sync_lock_held s = false /\ async_lock_held s = false).
Proof. repeat split. Qed.

(** C6, amended: provided the refresh succeeds and leaves a token that is
    not expired, for every number N >= 1 of callers that enter one and
    the same token-access operation (all of them [_access_token], or all
    of them [_async_access_token]) while the cached token is expired or
    absent, and every interleaving of their steps, at most one refresh of
    the credential is ever executed, and exactly one once the callers have
    returned, each with a token, because a caller that acquires the lock
    of its path checks again that the token is still expired; every
    interleaving can be continued until all callers have returned; and
    the lock of the other path plays no part in their run. *)
Theorem single_flight_refresh (refresh : Credentials -> result Credentials)
    (p : path) (c : Credentials) (n : nat) (schedule : list nat) :
  needs_refresh c = true ->
  (forall c0, exists c1, refresh c0 = Ok c1 /\ needs_refresh c1 = false) ->
  (0 < n)%nat ->
  let s := run refresh p (race c n) schedule in
  (refreshes (world s) <= 1)%nat
  /\ (all_returned s = true ->
      refreshes (world s) = 1%nat
      /\ forallb returned_ok (callers s) = true)
  /\ (exists more,
        let s' := run refresh p s more in
        all_returned s' = true
        /\ refreshes (world s') = 1%nat
        /\ forallb returned_ok (callers s') = true)
  /\ as_one_path p (run_callers refresh (race_of c (replicate n p)) schedule)
     = s.
Proof.
  intros Hstale Hrefresh Hn s.
  assert (Hinv : invariant s)
    by (apply run_invariant; [exact Hrefresh | now apply race_invariant]).
  assert (Hlen : List.length (callers s) = n).
  { unfold s. rewrite run_length. cbn. apply length_replicate. }
  assert (Hne : forall s0, List.length (callers s0) = n -> callers s0 <> []).
  { intros s0 H0 E. rewrite E in H0. simpl in H0. lia. }
  destruct (invariant_counts s Hinv) as [Hle Hall].
  split; [exact Hle|]. split; [intros H; apply Hall; auto|].
  split; [|apply run_callers_one_path].
  (* whoever holds the lock goes first, then everybody in turn *)
  assert (Hfree : exists first,
            lock_held (world (run refresh p s first)) = false).
  { destruct (lock_held (world s)) eqn:Hl.
    - destruct (inv_lock_has_holder s Hinv Hl) as (h & ch & Hh & Hhold).
      exists (finish h).
      now destruct (finish_caller refresh Hrefresh p s h ch Hh
                      (or_intror Hhold)).
    - exists []. exact Hl. }
  destruct Hfree as [first Hfree].
  set (s1 := run refresh p s first) in *.
  exists (first ++ finish_all n)%list. cbn zeta.
  unfold run. rewrite fold_left_app. fold (run refresh p s first). fold s1.
  fold (run refresh p s1 (finish_all n)).
  destruct (finish_list refresh Hrefresh p (seq 0 n) s1 Hfree)
    as (_ & Hlen2 & _ & Hdone).
  fold (finish_all n) in Hlen2, Hdone.
  set (s2 := run refresh p s1 (finish_all n)) in *.
  assert (Hlen1 : List.length (callers s1) = n)
    by (unfold s1; now rewrite run_length).
  assert (Hret : all_returned s2 = true).
  { unfold all_returned. apply forallb_forall. intros x Hx.
    apply list_elem_of_In, list_elem_of_lookup in Hx as [j Hj].
    assert (Hj' : (j < n)%nat).
    { apply lookup_lt_Some in Hj. lia. }
    destruct (Hdone j) as (c' & Hc' & Hr).
    - apply in_seq. lia.
    - lia.
    - rewrite Hj in Hc'. injection Hc' as ->. exact Hr. }
  assert (Hinv2 : invariant s2).
  { unfold s2, s1. apply run_invariant; [exact Hrefresh|].
    apply run_invariant; [exact Hrefresh | exact Hinv]. }
  destruct (invariant_counts s2 Hinv2) as [_ Hall2].
  destruct (Hall2 Hret) as [H1 H2]; [apply Hne; lia|]. auto.
Qed.

(** The single-flight theorem at three suspend-capable callers taking
    turns. *)
Lemma single_flight_refresh_witness :
  let s := run refresh_ok Suspending (race stale_credentials 3)
             [0; 1; 2; 0; 1; 2; 0; 1; 2; 0; 1; 2]%nat in
  (refreshes (world s) <= 1)%nat
  /\ (all_returned s = true ->
      refreshes (world s) = 1%nat
      /\ forallb returned_ok (callers s) = true)
  /\ (exists more,
        let s' := run refresh_ok Suspending s more in
        all_returned s' = true
        /\ refreshes (world s') = 1%nat
        /\ forallb returned_ok (callers s') = true)
  /\ as_one_path Suspending
       (run_callers refresh_ok
          (race_of stale_credentials (replicate 3 Suspending))
          [0; 1; 2; 0; 1; 2; 0; 1; 2; 0; 1; 2]%nat)
     = s.
Proof.
  apply (single_flight_refresh refresh_ok Suspending stale_credentials 3
           [0; 1; 2; 0; 1; 2; 0; 1; 2; 0; 1; 2]%nat eq_refl).
  - intros c0. eexists. split; reflexivity.
  - lia.
Defined.

End TokenRaceFacts.

(** * Further properties *)

(** ** Environment key, telemetry labels and option patches *)

(** X1: the API key read from the environment is never the empty string:
    a non-empty GOOGLE_API_KEY wins, a non-empty GEMINI_API_KEY is used
    otherwise, and when both are unset or empty there is no key. *)
Theorem get_env_api_key_precedence (env : Env) :
  (forall k, _get_env_api_key env = Some k -> k <> EmptyString)
  /\ (ostr_truthy (GOOGLE_API_KEY env) = true ->
      _get_env_api_key env = GOOGLE_API_KEY env)
  /\ (ostr_truthy (GOOGLE_API_KEY env) = false ->
      ostr_truthy (GEMINI_API_KEY env) = true ->
      _get_env_api_key env = GEMINI_API_KEY env)
  /\ (ostr_truthy (GOOGLE_API_KEY env) = false ->
      ostr_truthy (GEMINI_API_KEY env) = false ->
      _get_env_api_key env = None).
Proof.
  unfold _get_env_api_key. split; [|split; [|split]].
  - intros k.
    destruct (GOOGLE_API_KEY env) as [[|c s]|], (GEMINI_API_KEY env) as [[|c' s']|];
      simpl; intros H; try discriminate; injection H as <-; discriminate.
  - now intros ->.
  - now intros -> ->.
  - now intros -> ->.
Qed.

Lemma prefix_app (p s : string) : String.prefix p (p +:+ s) = true.
Proof.
  induction p as [|c p IH]; [apply prefix_nil|].
  sapp. simpl. destruct (ascii_dec c c); [exact IH | congruence].
Qed.

Lemma str_in_prefix (p s : string) : str_in p (p +:+ s) = true.
Proof.
  unfold str_in. pose proof (prefix_app p s) as H.
  destruct (p +:+ s) as [|c t] eqn:E.
  - destruct p; [reflexivity|]. sapp. discriminate.
  - simpl. simpl in H. now rewrite H.
Qed.

Lemma str_in_refl (p : string) : str_in p p = true.
Proof. rewrite <- (str_append_nil_r p) at 2. apply str_in_prefix. Qed.

(** The value a telemetry key holds after labelling contains the label. *)
Lemma labelled_contains (label : string) (old : option string) :
  str_in label
    match old with
    | Some old => if str_in label old then old else (label +:+ " ") +:+ old
    | None => label
    end = true.
Proof.
  destruct old as [old|]; [|apply str_in_refl].
  destruct (str_in label old) eqn:E; [exact E|].
  rewrite str_append_assoc. apply str_in_prefix.
Qed.

Lemma append_label_fixed label key (h : gmap string string) v :
  h !! key = Some v -> str_in label v = true -> append_label label key h = h.
Proof. intros Hk Hv. unfold append_label. now rewrite Hk, Hv. Qed.

Lemma append_label_idempotent label key (h : gmap string string) :
  append_label label key (append_label label key h) = append_label label key h.
Proof.
  eapply append_label_fixed; [apply append_label_key|apply labelled_contains].
Qed.

Lemma append_label_comm label k1 k2 (h : gmap string string) :
  k1 <> k2 ->
  append_label label k1 (append_label label k2 h)
  = append_label label k2 (append_label label k1 h).
Proof.
  intros Hne. assert (Hne' : k2 <> k1) by congruence.
  apply map_eq. intros k.
  destruct (decide (k = k1)) as [->|H1]; [|destruct (decide (k = k2)) as [->|H2]].
  - rewrite append_label_key, (append_label_other label k2 _ k1 Hne).
    rewrite (append_label_other label k2 _ k1 Hne).
    now rewrite append_label_key.
  - rewrite append_label_key, (append_label_other label k1 _ k2 Hne').
    rewrite (append_label_other label k1 _ k2 Hne').
    now rewrite append_label_key.
  - now rewrite !append_label_other by congruence.
Qed.

(** X2: labelling the headers twice is the same as labelling them once;
    after it both telemetry keys hold a value that contains the version
    label, every value the headers held is still there (as it was, or
    with the label put in front), and the other keys are untouched. *)
Theorem append_library_version_headers_idempotent (rt : Runtime)
    (h : gmap string string) :
  let label := version_header_value rt in
  let h' := _append_library_version_headers rt h in
  _append_library_version_headers rt h' = h'
  /\ (forall k, k = "user-agent" \/ k = "x-goog-api-client" ->
        exists v, h' !! k = Some v /\ str_in label v = true)
  /\ (forall k v, h !! k = Some v ->
        h' !! k = Some v \/ h' !! k = Some ((label +:+ " ") +:+ v))
  /\ (forall k, k <> "user-agent" -> k <> "x-goog-api-client" ->
        h' !! k = h !! k).
Proof.
  intros label h'. unfold h', _append_library_version_headers. fold label.
  split; [|split; [|split]].
  - rewrite (append_label_comm label "user-agent" "x-goog-api-client")
      by discriminate.
    now rewrite !append_label_idempotent.
  - intros k [-> | ->].
    + rewrite append_label_other by discriminate. rewrite append_label_key.
      eexists. split; [reflexivity | apply labelled_contains].
    + rewrite append_label_key.
      eexists. split; [reflexivity | apply labelled_contains].
  - intros k v Hk.
    destruct (decide (k = "x-goog-api-client")) as [->|H1];
      [|destruct (decide (k = "user-agent")) as [->|H2]].
    + rewrite append_label_key, append_label_other, Hk by discriminate.
      destruct (str_in label v); auto.
    + rewrite append_label_other, append_label_key, Hk by discriminate.
      destruct (str_in label v); auto.
    + rewrite !append_label_other by congruence. auto.
  - intros k H1 H2. now rewrite !append_label_other by congruence.
Qed.

Lemma append_library_version_headers_lookup (rt : Runtime)
    (h : gmap string string) (k : string) :
  _append_library_version_headers rt h !! k =
    if bool_decide (k = "user-agent" \/ k = "x-goog-api-client")
    then Some match h !! k with
              | Some old => if str_in (version_header_value rt) old then old
                            else (version_header_value rt +:+ " ") +:+ old
              | None => version_header_value rt
              end
    else h !! k.
Proof.
  unfold _append_library_version_headers.
  case_bool_decide as Hk.
  - destruct Hk as [-> | ->].
    + rewrite append_label_other by discriminate. apply append_label_key.
    + rewrite append_label_key. now rewrite append_label_other by discriminate.
  - rewrite !append_label_other; [reflexivity| |]; intros ->; tauto.
Qed.

Lemma patch_field_idempotent {A} (p o : option A) :
  patch_field p (patch_field p o) = patch_field p o.
Proof. now destruct p. Qed.

(** X3: patching options with the same patch a second time changes
    nothing: the patch is absorbed field by field, and the telemetry label
    is not put in front of the headers again. *)
Theorem patch_http_options_idempotent (rt : Runtime)
    (options patch_options : HttpOptions) :
  _patch_http_options rt (_patch_http_options rt options patch_options)
    patch_options
  = _patch_http_options rt options patch_options.
Proof.
  unfold _patch_http_options.
  cbn [base_url api_version headers timeout client_args async_client_args
       extra_body retry_options default from_option id].
  rewrite !patch_field_idempotent. f_equal. f_equal.
  set (ph := default ∅ (headers patch_options)).
  set (oh := default ∅ (headers options)).
  apply map_eq. intros k.
  repeat (progress rewrite ?append_library_version_headers_lookup,
                           ?lookup_merged).
  case_bool_decide as Hk.
  - destruct (ph !! k) as [v|]; [reflexivity|].
    f_equal.
    pose proof (labelled_contains (version_header_value rt) (oh !! k)) as Hl.
    cbv beta in Hl. now rewrite Hl.
  - now destruct (ph !! k).
Qed.

Lemma Qceiling_bounds (t : Z) :
  1000 * (Qceiling (t # 1000) - 1) < t <= 1000 * Qceiling (t # 1000).
Proof.
  pose proof (Qle_ceiling (t # 1000)) as Hle.
  pose proof (Qceiling_lt (t # 1000)) as Hlt.
  unfold Qle in Hle. unfold Qlt in Hlt. simpl in Hle, Hlt. lia.
Qed.

Lemma round_half_even_close (num den : Z) :
  0 <= num -> 0 < den ->
  2 * Z.abs (den * round_half_even num den - num) <= den.
Proof.
  intros Hn Hd. unfold round_half_even.
  pose proof (Z.div_mod num den ltac:(lia)) as Hdm.
  pose proof (Z.mod_pos_bound num den Hd) as Hb.
  set (q := num / den) in *. set (r := num mod den) in *.
  clearbody q r.
  assert (E0 : den * q - num = - r) by lia.
  assert (E1 : den * (q + 1) - num = den - r) by lia.
  destruct (Z.compare_spec (2 * r) den) as [Hc|Hc|Hc].
  - destruct (Z.even q); rewrite ?E0, ?E1; lia.
  - rewrite E0. lia.
  - rewrite E1. lia.
Qed.

Lemma binary_exponent_le (n d : Z) :
  0 < n -> 0 < d -> pow2_le (binary_exponent n d) n d = true.
Proof.
  intros Hn Hd. unfold binary_exponent.
  destruct (pow2_le (Z.log2 n - Z.log2 d) n d) eqn:Ht; [exact Ht|].
  clear Ht. unfold pow2_le.
  pose proof (Z.log2_spec n Hn) as [Hn1 Hn2].
  pose proof (Z.log2_spec d Hd) as [Hd1 Hd2].
  pose proof (Z.log2_nonneg n) as Hln. pose proof (Z.log2_nonneg d) as Hld.
  set (ln := Z.log2 n) in *. set (ld := Z.log2 d) in *.
  replace (Z.succ ln) with (ln + 1) in Hn2 by lia.
  replace (Z.succ ld) with (ld + 1) in Hd2 by lia.
  destruct (0 <=? ln - ld - 1) eqn:Hs.
  - apply Z.leb_le in Hs. apply Z.leb_le.
    assert (E : 2 ^ ln = 2 ^ (ln - ld - 1) * 2 ^ (ld + 1))
      by (rewrite <- Z.pow_add_r by lia; f_equal; lia).
    assert (0 < 2 ^ (ln - ld - 1)) by (apply Z.pow_pos_nonneg; lia).
    nia.
  - apply Z.leb_gt in Hs. apply Z.leb_le.
    assert (E : 2 ^ (ld + 1) = 2 ^ ln * 2 ^ (- (ln - ld - 1)))
      by (rewrite <- Z.pow_add_r by lia; f_equal; lia).
    assert (0 < 2 ^ (- (ln - ld - 1))) by (apply Z.pow_pos_nonneg; lia).
    nia.
Qed.

Lemma pow2_le_lt (e n d K : Z) :
  0 < d -> 0 <= K -> pow2_le e n d = true -> n < 2 ^ K * d -> e < K.
Proof.
  intros Hd HK Hle Hlt. unfold pow2_le in Hle.
  destruct (0 <=? e) eqn:He; [|apply Z.leb_gt in He; lia].
  apply Z.leb_le in He, Hle.
  apply (Z.pow_lt_mono_r_iff 2); [lia | lia | nia].
Qed.

(** An integer of fewer than 53 bits is a float. *)
Lemma float_of_small_int (a n d : Z) :
  0 < a < 2 ^ 53 ->
  float_ratio (binary64_nearest a 1) = (n, d) ->
  0 < d /\ n = a * d.
Proof.
  intros [Ha1 Ha2]. unfold binary64_nearest, binary_exponent.
  change (Z.log2 1) with 0. rewrite Z.sub_0_r.
  pose proof (Z.log2_spec a Ha1) as [Hl1 Hl2].
  pose proof (Z.log2_nonneg a) as Hln.
  assert (Hlt : Z.log2 a < 53).
  { apply (Z.pow_lt_mono_r_iff 2); lia. }
  assert (Ht : pow2_le (Z.log2 a) a 1 = true).
  { unfold pow2_le. rewrite (proj2 (Z.leb_le _ _) Hln). apply Z.leb_le. lia. }
  rewrite Ht. set (k := Z.log2 a - 52).
  assert (Hone : forall x, 0 <= x -> round_half_even x 1 = x).
  { intros x Hx. unfold round_half_even.
    rewrite Z.div_1_r, Z.mod_1_r. reflexivity. }
  unfold float_ratio.
  destruct (0 <=? k) eqn:Hk.
  - apply Z.leb_le in Hk. assert (k = 0) as -> by lia.
    change (1 * 2 ^ 0) with 1. rewrite Hone by lia.
    intros H. injection H as <- <-. lia.
  - apply Z.leb_gt in Hk. rewrite Hone.
    + intros H. injection H as <- <-.
      assert (0 < 2 ^ (- k)) by (apply Z.pow_pos_nonneg; lia). lia.
    + assert (0 < 2 ^ (- k)) by (apply Z.pow_pos_nonneg; lia). nia.
Qed.

(** The quotient of such a float by 1000: a float within half a
    thousandth of the exact quotient. *)
Lemma float_quotient_close (a n d : Z) :
  0 < a < 2 ^ 53 -> 0 < d -> n = a * d ->
  exists m j,
    binary64_nearest n (d * 1000) = (m, - j)
    /\ 9 <= j /\ Z.abs (1000 * m - a * 2 ^ j) <= 500.
Proof.
  intros [Ha1 Ha2] Hd ->. unfold binary64_nearest.
  set (e := binary_exponent (a * d) (d * 1000)).
  assert (He : e < 44).
  { apply (pow2_le_lt e (a * d) (d * 1000)); [lia | lia | |].
    - apply binary_exponent_le; nia.
    - change (2 ^ 44) with 17592186044416. change (2 ^ 53) with 9007199254740992 in Ha2.
      nia. }
  assert (Hk : (0 <=? e - 52) = false) by (apply Z.leb_gt; lia).
  rewrite Hk. exists (round_half_even (a * d * 2 ^ (- (e - 52))) (d * 1000)),
    (- (e - 52)).
  split; [f_equal; lia|]. split; [lia|].
  set (j := - (e - 52)) in *.
  assert (Hj : 0 < 2 ^ j) by (apply Z.pow_pos_nonneg; lia).
  pose proof (round_half_even_close (a * d * 2 ^ j) (d * 1000)
                ltac:(nia) ltac:(lia)) as Hr.
  set (m := round_half_even (a * d * 2 ^ j) (d * 1000)) in *.
  replace (d * 1000 * m - a * d * 2 ^ j) with (d * (1000 * m - a * 2 ^ j))
    in Hr by ring.
  rewrite Z.abs_mul, (Z.abs_eq d) in Hr by lia. nia.
Qed.

Lemma Qceiling_ratio (m P c : Z) :
  0 < P -> P * (c - 1) < m <= P * c -> Qceiling (m # Z.to_pos P) = c.
Proof.
  intros HP Hm. unfold Qceiling, Qfloor. cbn [Qopp Qnum Qden].
  rewrite Z2Pos.id by lia.
  pose proof (Z.div_mod (- m) P ltac:(lia)) as Hdm.
  pose proof (Z.mod_pos_bound (- m) P HP) as Hb. nia.
Qed.

Lemma Qceiling_opp_ratio (m P f : Z) :
  0 < P -> P * f <= m < P * (f + 1) ->
  Qceiling (- (m # Z.to_pos P)) = - f.
Proof.
  intros HP Hm. unfold Qceiling, Qfloor. cbn [Qopp Qnum Qden].
  rewrite Z.opp_involutive, Z2Pos.id by lia.
  pose proof (Z.div_mod m P ltac:(lia)) as Hdm.
  pose proof (Z.mod_pos_bound m P HP) as Hb. nia.
Qed.

(** Below 2^53 milliseconds the quotient in floating point has the
    ceiling of the exact quotient, and is not zero. *)
Lemma int_truediv_1000_ceiling (t : Z) :
  t <> 0 -> - 2 ^ 53 < t < 2 ^ 53 ->
  exists q,
    int_truediv_1000 t = Some q
    /\ Qceiling q = Qceiling (t # 1000)
    /\ Q_truthy q = true.
Proof.
  intros Hne Ht. unfold int_truediv_1000.
  apply Z.eqb_neq in Hne as Hne'. rewrite Hne'.
  assert (Ha : 0 < Z.abs t < 2 ^ 53) by lia.
  destruct (float_ratio (binary64_nearest (Z.abs t) 1)) as [n d] eqn:Hf.
  destruct (float_of_small_int _ n d Ha Hf) as [Hd Hn].
  assert (Hsmall : (2 ^ 1024 * d <=? n) = false).
  { apply Z.leb_gt. subst n.
    assert (2 ^ 53 < 2 ^ 1024) by (apply Z.pow_lt_mono_r; lia). nia. }
  rewrite Hsmall.
  destruct (float_quotient_close _ n d Ha Hd Hn) as (m & j & -> & Hj & Hm).
  assert (HP : 512 <= 2 ^ j).
  { change 512 with (2 ^ 9). apply Z.pow_le_mono_r; lia. }
  unfold float_value, float_ratio.
  assert (Hk : (0 <=? - j) = false) by (apply Z.leb_gt; lia).
  rewrite Hk, Z.opp_involutive.
  pose proof (Qceiling_bounds t) as Hc.
  set (c := Qceiling (t # 1000)) in *. set (P := 2 ^ j) in *.
  clearbody c P.
  apply Z.abs_le in Hm.
  assert (Hmpos : 0 < m) by nia.
  eexists. split; [reflexivity|]. split.
  - destruct (t <? 0) eqn:Hs.
    + apply Z.ltb_lt in Hs. rewrite Z.abs_neq in Hm by lia.
      replace c with (- (- c)) by lia.
      apply Qceiling_opp_ratio; [lia|].
      assert (1000 * (- c) * P <= - t * P) by nia.
      assert (- t * P <= (1000 * (- c + 1) - 1) * P) by nia.
      nia.
    + apply Z.ltb_ge in Hs. rewrite Z.abs_eq in Hm by lia.
      apply Qceiling_ratio; [lia|].
      assert ((1000 * (c - 1) + 1) * P <= t * P) by nia.
      assert (t * P <= 1000 * c * P) by nia.
      nia.
  - unfold Q_truthy. destruct (t <? 0); cbn [Qnum Qopp];
      apply negb_true_iff, Z.eqb_neq; lia.
Qed.

(** X4: the server timeout header is written only when a timeout is set
    and not zero and the headers do not hold the key yet; a value already
    under the key is never replaced.  For a timeout of fewer than 2^53
    milliseconds in absolute value, what is written is the timeout in
    whole seconds, rounded up from the milliseconds configured: in that
    range the quotient by 1000.0 that the code takes in floating point
    ([int_truediv_1000]) is not zero and has the ceiling of the exact
    quotient, which the model takes.  Beyond that range the two part:
    for 20000000000000001 milliseconds the code writes 20000000000000,
    one less than the exact quotient rounded up. *)
Theorem server_timeout_header_rounds_up (h : gmap string string) :
  (forall tmo v, h !! "X-Server-Timeout" = Some v ->
     _populate_server_timeout_header h tmo = h)
  /\ _populate_server_timeout_header h (_get_timeout_in_seconds None) = h
  /\ _populate_server_timeout_header h (_get_timeout_in_seconds (Some 0)) = h
  /\ (forall t, t <> 0 -> - 2 ^ 53 < t < 2 ^ 53 ->
        h !! "X-Server-Timeout" = None ->
        exists n,
          1000 * (n - 1) < t <= 1000 * n
          /\ _populate_server_timeout_header h
               (_get_timeout_in_seconds (Some t))
             = <["X-Server-Timeout" := str_of_Z n]> h
          /\ exists q,
               int_truediv_1000 t = Some q
               /\ Qceiling q = n
               /\ _populate_server_timeout_header h (Some q)
                  = <["X-Server-Timeout" := str_of_Z n]> h)
  /\ (Qceiling <$> int_truediv_1000 20000000000000001
      = Some 20000000000000
      /\ Qceiling (20000000000000001 # 1000) = 20000000000001).
Proof.
  split; [|split; [|split; [|split; [|split; vm_compute; reflexivity]]]];
    try reflexivity.
  - intros tmo v Hv. unfold _populate_server_timeout_header.
    destruct tmo as [t|]; [|reflexivity]. rewrite Hv. cbn [is_some negb].
    now rewrite andb_false_r.
  - intros t Ht Hrange Hnone. exists (Qceiling (t # 1000)).
    split; [apply Qceiling_bounds|].
    unfold _get_timeout_in_seconds, _populate_server_timeout_header.
    apply Z.eqb_neq in Ht as Ht'. rewrite Ht', Hnone.
    unfold Q_truthy at 1. cbn [Qnum is_some negb]. rewrite Ht'.
    split; [reflexivity|].
    destruct (int_truediv_1000_ceiling t Ht Hrange) as (q & Hq & Hc & Hq0).
    exists q. rewrite Hq0, Hc. auto.
Qed.

(** ** SSL contexts *)

Lemma dict_get_or_None_falsy_args (verify : string) (args : option pydict) :
  odict_truthy args = false ->
  value_truthy (dict_get_or_None verify (default [] args)) = false.
Proof. destruct args as [[|kv d]|]; [reflexivity | discriminate | reflexivity]. Qed.

Lemma maybe_set_lookup (verify : string) (is_parameter : string -> bool)
    (args : option pydict) (ctx : value) (k : string) :
  dict_get k (_maybe_set verify is_parameter args ctx) =
    if is_parameter k then
      if String.eqb k verify then
        Some (if value_truthy (dict_get_or_None verify (default [] args))
              then dict_get_or_None verify (default [] args) else ctx)
      else dict_get k (default [] args)
    else None.
Proof.
  unfold _maybe_set. rewrite dict_get_del_where.
  destruct (is_parameter k); cbn [negb]; [|reflexivity].
  destruct (odict_truthy args) eqn:Ha; cbn [negb orb].
  - destruct (value_truthy (dict_get_or_None verify (default [] args))) eqn:Hv;
      cbn [negb].
    + destruct (String.eqb_spec k verify) as [->|Hne]; [|reflexivity].
      unfold dict_get_or_None in *.
      destruct (dict_get verify (default [] args)); [reflexivity|discriminate].
    + now rewrite dict_get_set.
  - rewrite (dict_get_or_None_falsy_args _ _ Ha). now rewrite dict_get_set.
Qed.

(** X5: the arguments handed to the HTTP clients always carry a truthy
    SSL setting: a truthy 'verify' (or 'ssl') of the caller's own is kept,
    anything else, also an explicit False, is replaced by a context.  The
    async client inherits the sync client's truthy 'verify'; the sync
    client inherits the async client's only when it has no arguments of
    its own; otherwise the default context is used.  Keys that are not
    parameters of the client are dropped, the other keys keep their
    values. *)
Theorem ensure_ssl_ctx_always_sets_context (default_ctx : value)
    (httpx_parameter aiohttp_parameter : string -> bool)
    (options : HttpOptions) :
  value_truthy default_ctx = true ->
  httpx_parameter "verify" = true ->
  aiohttp_parameter "ssl" = true ->
  let sync_args := fst (_ensure_httpx_ssl_ctx default_ctx httpx_parameter options) in
  let async_args := snd (_ensure_httpx_ssl_ctx default_ctx httpx_parameter options) in
  let session_args := _ensure_aiohttp_ssl_ctx default_ctx aiohttp_parameter options in
  let own := dict_get_or_None "verify" (default [] (client_args options)) in
  let own_async :=
    dict_get_or_None "verify" (default [] (async_client_args options)) in
  let own_ssl :=
    dict_get_or_None "ssl" (default [] (async_client_args options)) in
  (exists v, dict_get "verify" sync_args = Some v /\ value_truthy v = true)
  /\ (exists v, dict_get "verify" async_args = Some v /\ value_truthy v = true)
  /\ (exists v, dict_get "ssl" session_args = Some v /\ value_truthy v = true)
  /\ dict_get "verify" sync_args =
       Some (if value_truthy own then own
             else if odict_truthy (client_args options) then default_ctx
             else if value_truthy own_async then own_async
             else default_ctx)
  /\ dict_get "verify" async_args =
       Some (if value_truthy own_async then own_async
             else if value_truthy own then own
             else default_ctx)
  /\ dict_get "ssl" session_args =
       Some (if value_truthy own_ssl then own_ssl else default_ctx)
  /\ (forall k, httpx_parameter k = false ->
        dict_get k sync_args = None /\ dict_get k async_args = None)
  /\ (forall k, aiohttp_parameter k = false -> dict_get k session_args = None)
  /\ (forall k, k <> "verify" -> httpx_parameter k = true ->
        dict_get k sync_args = dict_get k (default [] (client_args options))
        /\ dict_get k async_args
           = dict_get k (default [] (async_client_args options)))
  /\ (forall k, k <> "ssl" -> aiohttp_parameter k = true ->
        dict_get k session_args
        = dict_get k (default [] (async_client_args options))).
Proof.
  intros Hctx Hv Hs sync_args async_args session_args own own_async own_ssl.
  assert (Hsync : dict_get "verify" sync_args =
       Some (if value_truthy own then own
             else if odict_truthy (client_args options) then default_ctx
             else if value_truthy own_async then own_async
             else default_ctx)).
  { unfold sync_args, _ensure_httpx_ssl_ctx. cbn [fst].
    rewrite maybe_set_lookup, Hv. cbn [String.eqb Ascii.eqb Bool.eqb andb].
    fold own. fold own_async.
    destruct (value_truthy own) eqn:Ho; [reflexivity|].
    destruct (odict_truthy (client_args options)) eqn:Ha.
    - now rewrite Ho.
    - destruct (odict_truthy (async_client_args options)) eqn:Hb.
      + now destruct (value_truthy own_async).
      + unfold own_async.
        now rewrite (dict_get_or_None_falsy_args _ _ Hb). }
  assert (Hasync : dict_get "verify" async_args =
       Some (if value_truthy own_async then own_async
             else if value_truthy own then own
             else default_ctx)).
  { unfold async_args, _ensure_httpx_ssl_ctx. cbn [snd].
    rewrite maybe_set_lookup, Hv. cbn [String.eqb Ascii.eqb Bool.eqb andb].
    fold own. fold own_async.
    destruct (value_truthy own_async) eqn:Ho; [reflexivity|].
    destruct (odict_truthy (client_args options)) eqn:Ha.
    - now destruct (value_truthy own).
    - unfold own. rewrite (dict_get_or_None_falsy_args _ _ Ha).
      destruct (odict_truthy (async_client_args options)) eqn:Hb.
      + now rewrite Ho.
      + reflexivity. }
  assert (Hssl : dict_get "ssl" session_args =
       Some (if value_truthy own_ssl then own_ssl else default_ctx)).
  { unfold session_args, _ensure_aiohttp_ssl_ctx.
    rewrite maybe_set_lookup, Hs. cbn [String.eqb Ascii.eqb Bool.eqb andb].
    fold own_ssl.
    destruct (value_truthy own_ssl) eqn:Ho; [reflexivity|].
    destruct (odict_truthy (async_client_args options)) eqn:Hb.
    - now rewrite Ho.
    - reflexivity. }
  split; [|split; [|split; [|split; [exact Hsync|split; [exact Hasync|
    split; [exact Hssl|split; [|split; [|split]]]]]]]].
  - rewrite Hsync. eexists. split; [reflexivity|].
    destruct (value_truthy own) eqn:Ho; [exact Ho|].
    destruct (odict_truthy (client_args options)); [exact Hctx|].
    destruct (value_truthy own_async) eqn:Hoa; [exact Hoa | exact Hctx].
  - rewrite Hasync. eexists. split; [reflexivity|].
    destruct (value_truthy own_async) eqn:Hoa; [exact Hoa|].
    destruct (value_truthy own) eqn:Ho; [exact Ho | exact Hctx].
  - rewrite Hssl. eexists. split; [reflexivity|].
    destruct (value_truthy own_ssl) eqn:Ho; [exact Ho | exact Hctx].
  - intros k Hk. unfold sync_args, async_args, _ensure_httpx_ssl_ctx.
    cbn [fst snd]. now rewrite !maybe_set_lookup, Hk.
  - intros k Hk. unfold session_args, _ensure_aiohttp_ssl_ctx.
    now rewrite maybe_set_lookup, Hk.
  - intros k Hne Hk. unfold sync_args, async_args, _ensure_httpx_ssl_ctx.
    cbn [fst snd]. rewrite !maybe_set_lookup, Hk.
    apply String.eqb_neq in Hne. now rewrite Hne.
  - intros k Hne Hk. unfold session_args, _ensure_aiohttp_ssl_ctx.
    rewrite maybe_set_lookup, Hk.
    apply String.eqb_neq in Hne. now rewrite Hne.
Qed.

(** The SSL theorem at client arguments that switch verification off and
    name a key the client does not know. *)
Lemma ensure_ssl_ctx_always_sets_context_witness :
  value_truthy example_context = true
  /\ dict_get "verify"
       (fst (_ensure_httpx_ssl_ctx example_context example_parameter
               (with_client_args
                  (Some [("verify", VBool false); ("unknown", VInt 1)])
                  None)))
     = Some example_context
  /\ dict_get "unknown"
       (fst (_ensure_httpx_ssl_ctx example_context example_parameter
               (with_client_args
                  (Some [("verify", VBool false); ("unknown", VInt 1)])
                  None)))
     = None.
Proof.
  split; [reflexivity|].
  pose proof (ensure_ssl_ctx_always_sets_context example_context
                example_parameter example_parameter
                (with_client_args
                   (Some [("verify", VBool false); ("unknown", VInt 1)]) None)
                eq_refl eq_refl eq_refl) as H.
  cbv zeta in H.
  split.
  - exact (proj1 (proj2 (proj2 (proj2 H)))).
  - exact (proj1 (proj1 (proj2 (proj2 (proj2 (proj2 (proj2 (proj2 H))))))
                    "unknown" eq_refl)).
Defined.

(** ** The websocket base URL *)

Lemma urlunparse_wss (nl bp : string) :
  url_host_ok nl = true -> url_path_ok bp = true ->
  urlunparse {| url_scheme := "wss"; url_netloc := nl; url_path := bp;
                url_params := EmptyString; url_query := EmptyString;
                url_fragment := EmptyString |}
  = "wss://" +:+ nl +:+ bp.
Proof.
  intros Hn Hp. destruct bp as [|c rest].
  - unfold urlunparse, urlunsplit.
    cbn [url_params url_path url_scheme url_netloc url_query url_fragment
         str_truthy].
    rewrite (url_host_ok_truthy _ Hn). cbn [orb andb].
    now rewrite !str_append_assoc.
  - assert (c = "/"%char) as ->.
    { unfold url_path_ok in Hp. apply andb_true_iff in Hp as [Hc _].
      now apply Ascii.eqb_eq in Hc. }
    now rewrite (urlunparse_well_formed "wss" nl rest eq_refl Hn).
Qed.

(** X6: for a client whose base URL has the shape scheme://host/path, the
    websocket base URL is the same URL with the scheme replaced by wss,
    whatever the scheme was; a client without a base URL gets a
    TypeError. *)
Theorem websocket_base_url_replaces_scheme (rt : Runtime)
    (self : BaseApiClient) (sch nl bp : string) :
  url_scheme_ok sch = true -> url_host_ok nl = true -> url_path_ok bp = true ->
  (base_url (_http_options self) = Some (sch +:+ "://" +:+ nl +:+ bp) ->
   _websocket_base_url rt self = Ok ("wss://" +:+ nl +:+ bp))
  /\ (base_url (_http_options self) = None ->
      _websocket_base_url rt self = Raise TypeError).
Proof.
  intros Hs Hn Hp. unfold _websocket_base_url. split; intros ->; [|reflexivity].
  rewrite (urlparse_well_formed rt sch nl bp Hs Hn Hp).
  unfold mbind, result_bind, replace_scheme.
  cbn [url_netloc url_path url_params url_query url_fragment].
  now rewrite (urlunparse_wss nl bp Hn Hp).
Qed.

(** The websocket theorem at the client of the public endpoint. *)
Lemma websocket_base_url_replaces_scheme_witness :
  _websocket_base_url example_runtime example_client
  = Ok "wss://generativelanguage.googleapis.com/".
Proof.
  exact (proj1 (websocket_base_url_replaces_scheme example_runtime
                  example_client "https" "generativelanguage.googleapis.com"
                  "/" eq_refl eq_refl eq_refl) eq_refl).
Defined.

(** ** Buffered responses *)

Section BufferedFacts.
  Context {J : Type}.
  Variable json_loads : string -> result J.
  Variable empty_record : J.
  Variable decode_utf8 : string -> result string.

Lemma segments_list_collect (chunks : list string) :
    segments_list json_loads empty_record chunks =
      collect (map (decode_chunk json_loads empty_record) chunks).
  Proof.
    induction chunks as [|chunk rest IH]; [reflexivity|].
    simpl. unfold decode_chunk at 1.
    destruct (str_truthy chunk).
    - destruct (json_loads chunk); [now rewrite IH | reflexivity].
    - now rewrite IH.
  Qed.
End BufferedFacts.

(** X7: on a buffered response [segments] decodes every chunk, in order
    and as it is (no 'data: ' prefix is stripped), an empty chunk giving
    the empty record instead of being skipped: when every chunk decodes,
    there are as many records as chunks; and a response without a stream
    yields nothing. *)
Theorem segments_of_buffered_response {J : Type}
    (json_loads : string -> result J) (empty_record : J)
    (decode_utf8 : string -> result string)
    (headers : gmap string string) (chunks : list string) :
  let run := segments json_loads empty_record decode_utf8
               (buffered_response headers chunks) in
  run = collect (map (decode_chunk json_loads empty_record) chunks)
  /\ (Forall (fun c => is_Ok (decode_chunk json_loads empty_record c) = true)
        chunks ->
      snd run = None
      /\ List.length (fst run) = List.length chunks
      /\ map Ok (fst run) = map (decode_chunk json_loads empty_record) chunks)
  /\ decode_chunk json_loads empty_record EmptyString = Ok empty_record
  /\ (forall s, decode_chunk json_loads empty_record ("data: " +:+ s)
                = json_loads ("data: " +:+ s))
  /\ segments json_loads empty_record decode_utf8
       (HttpResponse__init__ headers StreamNone None) = ([], None).
Proof.
  intros run.
  assert (Hrun : run = collect (map (decode_chunk json_loads empty_record) chunks))
    by apply segments_list_collect.
  split; [exact Hrun|]. split; [|split; [reflexivity|split; [|reflexivity]]].
  - intros Hall. rewrite Hrun.
    assert (Hall' : Forall (fun r => is_Ok r = true)
              (map (decode_chunk json_loads empty_record) chunks))
      by (apply Forall_map; exact Hall).
    destruct (collect_all_ok _ Hall') as [H1 H2].
    split; [exact H1|]. split; [|exact H2].
    apply (f_equal (@List.length _)) in H2.
    now rewrite !length_map in H2.
  - intros s. unfold decode_chunk. sapp. reflexivity.
Qed.

(** X8: for the one-chunk response of a call that does not stream,
    [json] and [segments] decode the same text: the value [json] returns
    is the one record [segments] yields, and a decoding error is the
    error of both; only the empty body differs, which [json] turns into
    the empty string and [segments] into one empty record.  On a response
    with no chunk at all, or with no stream, [json] raises where
    [segments] yields nothing. *)
Theorem json_agrees_with_segments {J : Type}
    (json_loads : string -> result J) (empty_record : J)
    (decode_utf8 : string -> result string)
    (headers : gmap string string) (text : string) :
  let r := buffered_response headers [text] in
  (str_truthy text = true ->
   match json_loads text with
   | Ok v => json json_loads r = JsonOk (Some v)
             /\ segments json_loads empty_record decode_utf8 r = ([v], None)
   | Raise e => json json_loads r = JsonRaise e
                /\ segments json_loads empty_record decode_utf8 r
                   = ([], Some e)
   end)
  /\ (str_truthy text = false ->
      json json_loads r = JsonOk None
      /\ segments json_loads empty_record decode_utf8 r
         = ([empty_record], None))
  /\ json json_loads (buffered_response headers []) = JsonIndexError
  /\ segments json_loads empty_record decode_utf8
       (buffered_response headers []) = ([], None)
  /\ json json_loads (HttpResponse__init__ headers StreamNone None)
     = JsonRaise TypeError.
Proof.
  intros r. split; [|split; [|repeat split]].
  - intros Ht. unfold r, json, segments, buffered_response. simpl.
    rewrite Ht. simpl. now destruct (json_loads text).
  - intros Ht. unfold r, json, segments, buffered_response. simpl.
    now rewrite Ht.
Qed.

(** ** Retry arguments and retried requests *)

(** X9: in the retry arguments a field set to zero, or to an empty list of
    status codes, counts as not set: the defaults are three attempts, the
    six retriable status codes and the delays 1, 120, 2 and 1; so the
    attempt bound is never zero, the list of retriable codes is never
    empty and no delay parameter is zero.  Without retry options there is
    one attempt and no retry predicate at all. *)
Theorem retry_args_falsy_fields_default (o : HttpRetryOptions) :
  let a := _retry_args (Some o) in
  stop a <> 0
  /\ (attempts o = None \/ attempts o = Some 0 -> stop a = 3)
  /\ (forall n, n <> 0 -> attempts o = Some n -> stop a = n)
  /\ (exists codes, retry a = Some codes /\ codes <> []
        /\ (http_status_codes o = None \/ http_status_codes o = Some [] ->
            codes = [408; 429; 500; 502; 503; 504])
        /\ (forall c l, http_status_codes o = Some (c :: l) -> codes = c :: l))
  /\ retry_error_callback a = true
  /\ (exists w, wait a = Some w
        /\ Qnum (wait_initial w) <> 0 /\ Qnum (wait_max w) <> 0
        /\ Qnum (wait_exp_base w) <> 0 /\ Qnum (wait_jitter w) <> 0
        /\ (initial_delay o = None -> wait_initial w = 1%Q)
        /\ (max_delay o = None -> wait_max w = 120%Q)
        /\ (exp_base o = None -> wait_exp_base w = 2%Q)
        /\ (jitter o = None -> wait_jitter w = 1%Q))
  /\ _retry_args None
     = {| stop := 1; retry := None; retry_error_callback := false;
          wait := None |}.
Proof.
  assert (HQ : forall q d, Qnum d <> 0 -> Qnum (Q_or q d) <> 0).
  { intros [q|] d Hd; simpl; [|exact Hd].
    destruct (Qnum q =? 0) eqn:E; [exact Hd | now apply Z.eqb_neq]. }
  intros a. unfold a. cbn [_retry_args stop retry retry_error_callback wait].
  split; [|split; [|split; [|split; [|split; [reflexivity|split;
    [|reflexivity]]]]]].
  - unfold Z_or. destruct (attempts o) as [n|]; [|discriminate].
    destruct (n =? 0) eqn:E; [discriminate | now apply Z.eqb_neq].
  - intros [-> | ->]; reflexivity.
  - intros n Hn ->. unfold Z_or. apply Z.eqb_neq in Hn. now rewrite Hn.
  - eexists. split; [reflexivity|]. split; [|split].
    + destruct (http_status_codes o) as [[|c l]|]; discriminate.
    + intros [-> | ->]; reflexivity.
    + now intros c l ->.
  - eexists. split; [reflexivity|].
    cbn [wait_initial wait_max wait_exp_base wait_jitter].
    repeat split; try (apply HQ; discriminate); now intros ->.
Qed.

Section RequestFacts.
  Context {Srv : Type}.
  Variable httpx_request : Srv -> WireRequest -> Srv * WireResponse.
  Variable iter_lines : WireResponse -> list line.
  Variable refresh : Credentials -> result Credentials.
  Variable rt : Runtime.
  Variable env : Env.

  (** A response that [_request_once] returns reports the status 200. *)
Lemma request_once_status (σ : store) (stream : bool)
      (st : Srv * BaseApiClient * HttpRequest) (r : HttpResponse) :
    snd (_request_once httpx_request iter_lines refresh rt env σ stream st)
    = Ok r ->
    status_code r = 200.
  Proof.
    destruct st as [[srv self] http_request]. unfold _request_once.
    destruct (obool_truthy (vertexai self) && negb (ostr_truthy (api_key self))).
    - destruct (_access_token refresh env self) as [[self' effs] tok].
      destruct tok as [tok|e]; simpl; [|discriminate].
      destruct (wire_body _ _ _ _) as [data|e]; simpl; [|discriminate].
      destruct (httpx_request srv _) as [srv' response]. simpl.
      destruct (raise_for_response rt response); [discriminate|].
      intros H. injection H as <-. reflexivity.
    - simpl. destruct (wire_body _ _ _ _) as [data|e]; simpl; [|discriminate].
      destruct (httpx_request srv _) as [srv' response]. simpl.
      destruct (raise_for_response rt response); [discriminate|].
      intros H. injection H as <-. reflexivity.
  Qed.
End RequestFacts.

(** X10: unless 200 is listed among the retriable status codes, the retry
    object never runs [_request_once] a second time: a response it
    returns always reports 200, and a failure leaves it as an exception,
    which the retry predicate on results does not retry.  So [_request]
    makes one attempt and hands on its outcome, whatever the number of
    attempts configured. *)
Theorem request_makes_one_attempt {Srv : Type}
    (httpx_request : Srv -> WireRequest -> Srv * WireResponse)
    (iter_lines : WireResponse -> list line)
    (refresh : Credentials -> result Credentials) (rt : Runtime) (env : Env)
    (σ : store) (self : BaseApiClient) (http_request : HttpRequest)
    (stream : bool) (srv : Srv) (options : option HttpRetryOptions) :
  _retry self = _retry_args options ->
  (forall o, options = Some o ->
     ~ In 200 (list_or (http_status_codes o) _RETRY_HTTP_STATUS_CODES)) ->
  let once := _request_once httpx_request iter_lines refresh rt env σ stream
                (srv, self, http_request) in
  _request httpx_request iter_lines refresh rt env σ self http_request
    stream srv
  = (fst once, [Attempt (snd once)], snd once).
Proof.
  intros Hretry Hcodes once. unfold _request, Retrying__call__.
  rewrite Hretry.
  pose proof (request_once_status httpx_request iter_lines refresh rt env σ
                stream (srv, self, http_request)) as Hstatus.
  fold once in Hstatus.
  assert (Hloop : forall remaining,
            (options = None -> remaining = 0%nat) ->
            attempt_loop status_code
              (_request_once httpx_request iter_lines refresh rt env σ stream)
              (_retry_args options) remaining (srv, self, http_request)
            = (fst once, [Attempt (snd once)], snd once)).
  { intros remaining Hrem.
    assert (Hunfold : attempt_loop status_code
              (_request_once httpx_request iter_lines refresh rt env σ stream)
              (_retry_args options) remaining (srv, self, http_request)
            = let '(st', outcome) := once in
              if should_retry status_code (_retry_args options) outcome then
                match remaining with
                | O => (st', [Attempt outcome],
                        on_exhausted (_retry_args options) outcome)
                | Datatypes.S n =>
                    let '(st'', events, res) :=
                      attempt_loop status_code
                        (_request_once httpx_request iter_lines refresh rt env
                           σ stream) (_retry_args options) n st' in
                    (st'', Attempt outcome :: Sleep :: events, res)
                end
              else (st', [Attempt outcome], outcome))
      by (destruct remaining; reflexivity).
    rewrite Hunfold. clear Hunfold.
    destruct once as [st' outcome]. cbn [fst snd] in *.
    destruct options as [o|].
    - assert (Hno : should_retry status_code (_retry_args (Some o)) outcome
                    = false).
      { unfold should_retry. cbn [_retry_args retry].
        destruct outcome as [r|e]; [|reflexivity].
        rewrite (Hstatus r eq_refl).
        destruct (existsb (Z.eqb 200) _) eqn:E; [|reflexivity].
        apply existsb_exists in E as (c & Hin & Hc).
        apply Z.eqb_eq in Hc. subst c. elim (Hcodes o eq_refl Hin). }
      now rewrite Hno.
    - rewrite (Hrem eq_refl). unfold should_retry, on_exhausted.
      cbn [_retry_args retry retry_error_callback].
      now destruct outcome. }
  apply Hloop. intros ->. reflexivity.
Qed.

(** The retry theorem at a client configured for three attempts and a
    server that always answers 503: one exchange, and the error raised. *)
Lemma request_makes_one_attempt_witness :
  _request server_503 no_lines Ok strict_runtime empty_env caller_store
    retrying_client example_request false 0%nat
  = ((1%nat, retrying_client, example_request),
     [Attempt (Raise (APIError 503))], Raise (APIError 503)).
Proof.
  refine (eq_trans
    (request_makes_one_attempt server_503 no_lines Ok strict_runtime empty_env
       caller_store retrying_client example_request false 0%nat
       (Some retry_three_times) eq_refl _) _).
  - intros o H. injection H as <-. vm_compute.
    intros [H|[H|[H|[H|[H|[H|[]]]]]]]; discriminate.
  - vm_compute. reflexivity.
Defined.

(** ** Client construction *)

Lemma load_auth_project (env : Env) (project : option string) c p :
  _load_auth env project = Ok (c, p) -> ostr_truthy p = true.
Proof.
  unfold _load_auth. destruct (google_auth_default env) as [[c0 p0]|e];
    [|discriminate].
  unfold mbind, result_bind.
  destruct (ostr_truthy (if ostr_truthy project then project else p0)) eqn:E;
    [|discriminate].
  intros H. injection H as <- <-. exact E.
Qed.

(** What a successful construction went through. *)
Lemma init_Ok_inv (rt : Runtime) (env : Env)
    (vertexai : option bool) (api_key : option string)
    (credentials : option Credentials) (project location : option string)
    (http_options : option HttpOptionsOrDict)
    (effects : list effect) (c : BaseApiClient) :
  BaseApiClient__init__ rt env vertexai api_key credentials project
    location http_options = (effects, Ok c) ->
  let v := vertexai_in_force env vertexai in
  let env_key := _get_env_api_key env in
  let self_project := ostr_or project (GOOGLE_CLOUD_PROJECT env) in
  let self_location := ostr_or location (GOOGLE_CLOUD_LOCATION env) in
  let self_key := ostr_or api_key env_key in
  (ostr_truthy project || ostr_truthy location) && ostr_truthy api_key = false
  /\ is_some credentials && ostr_truthy api_key = false
  /\ exists validated,
       ((obool_truthy v = false /\ effects = []
         /\ ostr_truthy self_key = true
         /\ c = finish_init rt v self_project self_location self_key
                  credentials "https://generativelanguage.googleapis.com/"
                  "v1beta" http_options validated)
        \/ (obool_truthy v = true
            /\ exists p' l' k' cr p'',
                 vertex_precedence credentials api_key project location
                   env_key (GOOGLE_CLOUD_PROJECT env)
                   (GOOGLE_CLOUD_LOCATION env)
                   self_project self_location self_key = (p', l', k')
                 /\ ((ostr_truthy p' || ostr_truthy k' = true
                      /\ effects = [] /\ cr = credentials /\ p'' = p')
                     \/ (ostr_truthy p' = false /\ ostr_truthy k' = false
                         /\ effects = [AuthDefault]
                         /\ ostr_truthy p'' = true
                         /\ exists lc,
                              _load_auth env None = Ok (lc, p'')
                              /\ cr = if is_some credentials then credentials
                                      else Some lc))
                 /\ (ostr_truthy p'' && ostr_truthy l') || ostr_truthy k' = true
                 /\ c = finish_init rt v p'' l' k' cr (vertex_base_url k' l')
                          "v1beta1" http_options validated)).
Proof.
  intros H v env_key self_project self_location self_key.
  unfold BaseApiClient__init__ in H. fold (vertexai_in_force env vertexai) in H.
  destruct ((ostr_truthy project || ostr_truthy location) && ostr_truthy api_key);
    [discriminate|].
  destruct (is_some credentials && ostr_truthy api_key); [discriminate|].
  split; [reflexivity|]. split; [reflexivity|].
  match type of H with
  | context [match ?x with Ok _ => _ | Raise _ => _ end] =>
      destruct x as [validated|e] eqn:Hval
  end; [|discriminate].
  exists validated.
  fold v env_key in H. fold self_project self_location self_key in H.
  destruct (obool_truthy v) eqn:Hv.
  - right. split; [reflexivity|].
    destruct (vertex_precedence credentials api_key project location env_key
                (GOOGLE_CLOUD_PROJECT env) (GOOGLE_CLOUD_LOCATION env)
                self_project self_location self_key) as [[p' l'] k'] eqn:Hvp.
    destruct (negb (ostr_truthy p') && negb (ostr_truthy k')) eqn:Hload.
    + apply andb_true_iff in Hload as [Hp Hk].
      apply negb_true_iff in Hp, Hk.
      destruct (_load_auth env None) as [[lc lp]|e] eqn:Hl;
        cbn in H; [|discriminate].
      destruct (negb (ostr_truthy lp && ostr_truthy l' || ostr_truthy k'))
        eqn:Hcheck; [discriminate|].
      apply negb_false_iff in Hcheck.
      injection H as <- <-.
      exists p', l', k', (if is_some credentials then credentials else Some lc), lp.
      split; [reflexivity|]. split.
      * right. split; [exact Hp|]. split; [exact Hk|]. split; [reflexivity|].
        split; [exact (load_auth_project _ _ _ _ Hl)|]. eauto.
      * split; [exact Hcheck|]. reflexivity.
    + cbn in H.
      destruct (negb (ostr_truthy p' && ostr_truthy l' || ostr_truthy k'))
        eqn:Hcheck; [discriminate|].
      apply negb_false_iff in Hcheck.
      injection H as <- <-.
      exists p', l', k', credentials, p'.
      split; [reflexivity|]. split.
      * left. split; [|auto].
        destruct (ostr_truthy p'), (ostr_truthy k'); auto; discriminate.
      * split; [exact Hcheck|]. reflexivity.
  - left. split; [reflexivity|].
    destruct (negb (ostr_truthy self_key)) eqn:Hk; [discriminate|].
    apply negb_false_iff in Hk. injection H as <- <-. auto.
Qed.

Lemma env_key_falsy (env : Env) :
  ostr_truthy (_get_env_api_key env) = false -> _get_env_api_key env = None.
Proof.
  unfold _get_env_api_key.
  destruct (ostr_truthy (GOOGLE_API_KEY env)) eqn:E1; [congruence|].
  destruct (ostr_truthy (GEMINI_API_KEY env)) eqn:E2; [congruence|].
  reflexivity.
Qed.

Lemma ostr_or_truthy (a b : option string) :
  ostr_truthy (ostr_or a b) = ostr_truthy a || ostr_truthy b.
Proof. unfold ostr_or. now destruct (ostr_truthy a) eqn:E; rewrite ?E. Qed.

(** What survives the precedence rules of Vertex AI mode, for inputs that
    passed the validation of the explicit arguments. *)
Lemma vertex_precedence_spec (credentials : option Credentials)
    (api_key project location env_key env_project env_location : option string)
    (p' l' k' : option string) :
  (ostr_truthy project || ostr_truthy location) && ostr_truthy api_key = false ->
  is_some credentials && ostr_truthy api_key = false ->
  (ostr_truthy env_key = false -> env_key = None) ->
  vertex_precedence credentials api_key project location env_key env_project
    env_location (ostr_or project env_project) (ostr_or location env_location)
    (ostr_or api_key env_key) = (p', l', k') ->
  (ostr_truthy k' = true ->
   ostr_truthy p' = false /\ ostr_truthy l' = false)
  /\ (ostr_truthy k' = false -> k' = None)
  /\ (ostr_truthy p' = false -> ostr_truthy k' = false ->
      ostr_truthy project = false /\ ostr_truthy env_project = false)
  /\ (is_some credentials = true -> k' = None).
Proof.
  intros Hv1 Hv2 Hek. unfold vertex_precedence.
  pose proof (ostr_or_truthy project env_project) as Hp.
  pose proof (ostr_or_truthy location env_location) as Hl.
  pose proof (ostr_or_truthy api_key env_key) as Hk.
  assert (Hkn : ostr_truthy (ostr_or api_key env_key) = false ->
                ostr_or api_key env_key = None).
  { intros H. rewrite H in Hk. symmetry in Hk.
    apply orb_false_iff in Hk as [Ha He]. unfold ostr_or. rewrite Ha. auto. }
  destruct (is_some credentials);
    destruct (ostr_truthy api_key) eqn:Ea;
    destruct (ostr_truthy project) eqn:Ep;
    destruct (ostr_truthy location) eqn:El;
    destruct (ostr_truthy env_key) eqn:Eek;
    destruct (ostr_truthy env_project) eqn:Eep;
    destruct (ostr_truthy env_location) eqn:Eel;
    cbn in Hv1, Hv2, Hp, Hl, Hk |- *; try discriminate;
    intros H; injection H as <- <- <-;
    rewrite ?Hp, ?Hl, ?Hk; cbn;
    repeat split; try discriminate; try reflexivity; auto;
    try (intros; discriminate); try (intros; congruence).
Qed.

Lemma finish_init_fields (rt : Runtime) (v : option bool)
    (p l k : option string) (cr : option Credentials) (base ver : string)
    (http_options : option HttpOptionsOrDict) (validated : HttpOptions) :
  let c := finish_init rt v p l k cr base ver http_options validated in
  vertexai c = v /\ project c = p /\ location c = l /\ _credentials c = cr
  /\ api_key c = (if ostr_truthy k then str_strip <$> k else k)
  /\ _retry c = _retry_args (retry_options (_http_options c))
  /\ (exists h, headers (_http_options c) = Some h
        /\ exists m, h = _append_library_version_headers rt m)
  /\ is_some (base_url (_http_options c)) = true
  /\ is_some (api_version (_http_options c)) = true
  /\ (http_options = None ->
      _http_options c =
        {| base_url := Some base; api_version := Some ver;
           headers :=
             Some (_append_library_version_headers rt
                     match k with
                     | Some key =>
                         if str_truthy key
                         then <["x-goog-api-key" := str_strip key]>
                                {[ "Content-Type" := "application/json" ]}
                         else {[ "Content-Type" := "application/json" ]}
                     | None => {[ "Content-Type" := "application/json" ]}
                     end);
           timeout := None; client_args := None; async_client_args := None;
           extra_body := None; retry_options := None |}).
Proof.
  intros c. unfold c, finish_init.
  cbn [vertexai project location _credentials api_key _retry _http_options].
  repeat (split; [reflexivity|]).
  split; [|split; [|split]].
  - destruct (http_options_truthy http_options); cbn [headers _patch_http_options];
      eexists; (split; [reflexivity|]); eexists; reflexivity.
  - destruct (http_options_truthy http_options);
      cbn [base_url _patch_http_options patch_field]; [|reflexivity].
    now destruct (base_url validated).
  - destruct (http_options_truthy http_options);
      cbn [api_version _patch_http_options patch_field]; [|reflexivity].
    now destruct (api_version validated).
  - intros ->. reflexivity.
Qed.

(** X11: without Vertex AI (the argument False, which the environment
    does not override, or no argument and no switch in the environment)
    the initializer never calls google.auth.default; the key is the
    argument or, failing that, the key of the environment; without any
    key the initializer raises; and every client it constructs holds the
    key stripped of white space (as [str.strip] strips it) and, when no
    options are given, the public endpoint, version v1beta and default
    headers that carry the key and the content type. *)
Theorem init_without_vertexai (rt : Runtime) (env : Env)
    (vertexai_arg : option bool) (api_key_arg : option string)
    (credentials_arg : option Credentials)
    (project_arg location_arg : option string)
    (http_options : option HttpOptionsOrDict) :
  obool_truthy (vertexai_in_force env vertexai_arg) = false ->
  let run := BaseApiClient__init__ rt env vertexai_arg api_key_arg
               credentials_arg project_arg location_arg http_options in
  let key := ostr_or api_key_arg (_get_env_api_key env) in
  fst run = []
  /\ vertexai_in_force env (Some false) = Some false
  /\ (ostr_truthy key = false ->
      snd run = Raise missing_key_error
      \/ snd run = Raise (ValueError "Invalid http_options"))
  /\ (ostr_truthy key = false -> http_options = None ->
      snd run = Raise missing_key_error)
  /\ (forall c, snd run = Ok c ->
        exists k, key = Some k /\ k <> EmptyString
          /\ api_key c = Some (str_strip k)
          /\ _credentials c = credentials_arg
          /\ vertexai c = vertexai_in_force env vertexai_arg
          /\ (http_options = None ->
              _http_options c =
                {| base_url := Some "https://generativelanguage.googleapis.com/";
                   api_version := Some "v1beta";
                   headers := Some (default_headers rt k);
                   timeout := None; client_args := None;
                   async_client_args := None; extra_body := None;
                   retry_options := None |})).
Proof.
  intros Hv run key.
  assert (Hrun : run =
    if (ostr_truthy project_arg || ostr_truthy location_arg) && ostr_truthy api_key_arg then
      ([], Raise (ValueError
        "Project/location and API key are mutually exclusive in the client initializer."))
    else if is_some credentials_arg && ostr_truthy api_key_arg then
      ([], Raise (ValueError
        "Credentials and API key are mutually exclusive in the client initializer."))
    else
      match
        match http_options with
        | Some (AsDict d) =>
            match model_validate rt d with
            | Ok o => Ok o
            | Raise _ => Raise (ValueError "Invalid http_options")
            end
        | Some (AsHttpOptions o) => Ok o
        | None => Ok HttpOptions_default
        end
      with
      | Raise e => ([], Raise e)
      | Ok validated =>
          if negb (ostr_truthy key) then ([], Raise missing_key_error)
          else ([], Ok (finish_init rt (vertexai_in_force env vertexai_arg)
                          (ostr_or project_arg (GOOGLE_CLOUD_PROJECT env))
                          (ostr_or location_arg (GOOGLE_CLOUD_LOCATION env))
                          key credentials_arg
                          "https://generativelanguage.googleapis.com/" "v1beta"
                          http_options validated))
      end).
  { unfold run, BaseApiClient__init__.
    fold (vertexai_in_force env vertexai_arg). rewrite Hv. reflexivity. }
  rewrite Hrun. clear Hrun.
  split; [|split; [reflexivity|split; [|split]]].
  - destruct (_ && _); [reflexivity|]. destruct (_ && _); [reflexivity|].
    destruct http_options as [[o|d]|]; [| destruct (model_validate rt d) |];
      cbn; destruct (negb (ostr_truthy key)); reflexivity.
  - intros Hk.
    assert (Ha : ostr_truthy api_key_arg = false).
    { unfold key in Hk. rewrite ostr_or_truthy in Hk.
      now apply orb_false_iff in Hk as [Ha _]. }
    rewrite Ha, !andb_false_r, Hk. cbn [negb].
    destruct http_options as [[o|d]|]; [| destruct (model_validate rt d) |];
      auto.
  - intros Hk ->.
    assert (Ha : ostr_truthy api_key_arg = false).
    { unfold key in Hk. rewrite ostr_or_truthy in Hk.
      now apply orb_false_iff in Hk as [Ha _]. }
    now rewrite Ha, !andb_false_r, Hk.
  - intros c.
    destruct (_ && _); [discriminate|]. destruct (_ && _); [discriminate|].
    destruct (match http_options with
              | Some (AsHttpOptions o) => Ok o
              | Some (AsDict d) => _
              | None => Ok HttpOptions_default
              end) as [validated|e]; [|discriminate].
    destruct (ostr_truthy key) eqn:Hk; cbn [negb snd]; [|discriminate].
    intros H. injection H as <-.
    destruct key as [k|] eqn:Ekey; [|discriminate].
    exists k. split; [reflexivity|].
    split; [intros ->; discriminate|].
    pose proof (finish_init_fields rt (vertexai_in_force env vertexai_arg)
      (ostr_or project_arg (GOOGLE_CLOUD_PROJECT env))
      (ostr_or location_arg (GOOGLE_CLOUD_LOCATION env)) (Some k) credentials_arg
      "https://generativelanguage.googleapis.com/" "v1beta" http_options
      validated) as (H1 & _ & _ & H4 & H5 & _ & _ & _ & _ & H10).
    split; [rewrite H5, Hk; reflexivity|].
    split; [exact H4|]. split; [exact H1|].
    intros Hopt. rewrite (H10 Hopt). cbn in Hk. rewrite Hk. reflexivity.
Qed.

(** The theorem at a key named by the environment only, written with
    white space around it. *)
Lemma init_without_vertexai_witness :
  obool_truthy (vertexai_in_force env_with_spaced_key None) = false
  /\ fst (BaseApiClient__init__ example_runtime env_with_spaced_key None None None
            None None None) = []
  /\ forall c,
       snd (BaseApiClient__init__ example_runtime env_with_spaced_key None None None
              None None None) = Ok c ->
       api_key c = Some "key".
Proof.
  pose proof (init_without_vertexai example_runtime env_with_spaced_key None None None
                None None None eq_refl) as H.
  cbv zeta in H.
  split; [reflexivity|]. split; [exact (proj1 H)|].
  intros c Hc.
  destruct (proj2 (proj2 (proj2 (proj2 H))) c Hc)
    as (k & Hk & _ & Hkey & _).
  injection Hk as <-. exact Hkey.
Defined.

(** X12: every client the initializer constructs, in either mode and
    whatever options the caller gives, has a base URL, an API version and
    headers set, both telemetry headers holding a value that contains the
    version label, and a retry object built from the retry options in
    force. *)
Theorem init_always_sets_labelled_headers (rt : Runtime) (env : Env)
    (vertexai_arg : option bool) (api_key_arg : option string)
    (credentials_arg : option Credentials)
    (project_arg location_arg : option string)
    (http_options : option HttpOptionsOrDict) (c : BaseApiClient) :
  snd (BaseApiClient__init__ rt env vertexai_arg api_key_arg credentials_arg
         project_arg location_arg http_options) = Ok c ->
  (exists h, headers (_http_options c) = Some h
     /\ forall k, k = "user-agent" \/ k = "x-goog-api-client" ->
          exists v, h !! k = Some v
                    /\ str_in (version_header_value rt) v = true)
  /\ is_some (base_url (_http_options c)) = true
  /\ is_some (api_version (_http_options c)) = true
  /\ _retry c = _retry_args (retry_options (_http_options c)).
Proof.
  intros H.
  destruct (BaseApiClient__init__ rt env vertexai_arg api_key_arg
              credentials_arg project_arg location_arg http_options)
    as [effects r] eqn:Hrun.
  cbn [snd] in H. subst r.
  destruct (init_Ok_inv _ _ _ _ _ _ _ _ _ _ Hrun) as (_ & _ & validated & Hc).
  assert (Hfin : exists v p l k cr base ver,
            c = finish_init rt v p l k cr base ver http_options validated).
  { destruct Hc as [(_ & _ & _ & ->)
                   |(_ & p' & l' & k' & cr & p'' & _ & _ & _ & ->)];
      repeat eexists. }
  destruct Hfin as (v & p & l & k & cr & base & ver & ->).
  destruct (finish_init_fields rt v p l k cr base ver http_options validated)
    as (_ & _ & _ & _ & _ & Hretry & (h & Hh & m & ->) & Hb & Ha & _).
  split; [|auto].
  exists (_append_library_version_headers rt m). split; [exact Hh|].
  intros key Hkey. rewrite append_library_version_headers_lookup.
  rewrite bool_decide_eq_true_2 by exact Hkey.
  eexists. split; [reflexivity | apply labelled_contains].
Qed.

(** The theorem at the client of the examples. *)
Lemma init_always_sets_labelled_headers_witness :
  snd (BaseApiClient__init__ example_runtime empty_env None (Some "key") None
         None None None) = Ok example_client
  /\ _retry example_client
     = _retry_args (retry_options (_http_options example_client)).
Proof.
  split; [reflexivity|].
  exact (proj2 (proj2 (proj2
    (init_always_sets_labelled_headers example_runtime empty_env None
       (Some "key") None None None None example_client eq_refl)))).
Defined.

(** X13: a client constructed in Vertex AI mode never holds both an API
    key and a project or location: with a key, project and location are
    not set and the base URL is the global endpoint; without a key, both
    project and location are set, and the base URL is the endpoint of the
    location (the global endpoint for the location 'global'); the API
    version is v1beta1. *)
Theorem init_vertexai_key_or_project (rt : Runtime) (env : Env)
    (vertexai_arg : option bool) (api_key_arg : option string)
    (credentials_arg : option Credentials)
    (project_arg location_arg : option string)
    (http_options : option HttpOptionsOrDict) (c : BaseApiClient) :
  obool_truthy (vertexai_in_force env vertexai_arg) = true ->
  snd (BaseApiClient__init__ rt env vertexai_arg api_key_arg credentials_arg
         project_arg location_arg http_options) = Ok c ->
  (ostr_truthy (api_key c) = true ->
   ostr_truthy (project c) = false /\ ostr_truthy (location c) = false)
  /\ (ostr_truthy (project c) = true \/ ostr_truthy (location c) = true ->
      api_key c = None)
  /\ (api_key c = None ->
      ostr_truthy (project c) = true /\ ostr_truthy (location c) = true)
  /\ (is_some credentials_arg = true -> api_key c = None)
  /\ (http_options = None ->
      base_url (_http_options c)
      = Some (if is_some (api_key c)
                 || match location c with
                    | Some l => String.eqb l "global"
                    | None => false
                    end
              then "https://aiplatform.googleapis.com/"
              else ("https://" +:+ fmt_ostr (location c))
                   +:+ "-aiplatform.googleapis.com/")
      /\ api_version (_http_options c) = Some "v1beta1").
Proof.
  intros Hv H.
  destruct (BaseApiClient__init__ rt env vertexai_arg api_key_arg
              credentials_arg project_arg location_arg http_options)
    as [effects r] eqn:Hrun.
  cbn [snd] in H. subst r.
  destruct (init_Ok_inv _ _ _ _ _ _ _ _ _ _ Hrun)
    as (Hv1 & Hv2 & validated & Hc).
  destruct Hc as [(Hv' & _)|(_ & p' & l' & k' & cr & p'' & Hvp & Hload & Hcheck & ->)];
    [congruence|].
  destruct (vertex_precedence_spec _ _ _ _ _ _ _ _ _ _ Hv1 Hv2
              (env_key_falsy env) Hvp) as (HA & HB & _ & HC).
  destruct (finish_init_fields rt (vertexai_in_force env vertexai_arg) p'' l' k'
              cr (vertex_base_url k' l') "v1beta1" http_options validated)
    as (_ & -> & -> & _ & -> & _ & _ & _ & _ & Hopts).
  assert (Hp'' : ostr_truthy k' = true -> p'' = p').
  { intros Hk. destruct Hload as [(_ & _ & _ & ->)|(_ & Hk' & _)];
      [reflexivity | congruence]. }
  destruct (ostr_truthy k') eqn:Hk.
  - destruct (HA eq_refl) as [Hp Hl]. rewrite (Hp'' eq_refl) in *.
    destruct k' as [k|]; [|discriminate]. cbn [fmap option_fmap option_map].
    split; [auto|]. split; [intros [?|?]; congruence|].
    split; [discriminate|]. split; [intros Hcr; now specialize (HC Hcr)|].
    intros Hopt. rewrite (Hopts Hopt). cbn [base_url api_version is_some orb].
    unfold vertex_base_url. now rewrite Hk.
  - rewrite (HB eq_refl) in *. cbn [ostr_truthy] in *.
    rewrite orb_false_r in Hcheck. apply andb_true_iff in Hcheck as [Hp Hl].
    split; [discriminate|]. split; [reflexivity|]. split; [auto|].
    split; [reflexivity|].
    intros Hopt. rewrite (Hopts Hopt). cbn [base_url api_version is_some orb].
    split; reflexivity.
Qed.

(** The theorem at a project and a location named by the environment. *)
Lemma init_vertexai_key_or_project_witness :
  obool_truthy (vertexai_in_force env_vertex None) = true
  /\ snd (BaseApiClient__init__ example_runtime env_vertex None None None None
            None None) = Ok vertex_client
  /\ base_url (_http_options vertex_client)
     = Some "https://us-central1-aiplatform.googleapis.com/"
  /\ api_version (_http_options vertex_client) = Some "v1beta1".
Proof.
  split; [reflexivity|]. split; [reflexivity|].
  exact (proj2 (proj2 (proj2 (proj2
    (init_vertexai_key_or_project example_runtime env_vertex None None None
       None None None vertex_client eq_refl eq_refl)))) eq_refl).
Defined.

(** X14: the initializer calls google.auth.default at most once, and only
    in Vertex AI mode when neither the arguments nor the environment name
    a project; credentials given by the caller are kept as they are, also
    when that call is made to find the project, and without that call no
    credentials are loaded at construction. *)
Theorem init_calls_auth_default_only_for_project (rt : Runtime) (env : Env)
    (vertexai_arg : option bool) (api_key_arg : option string)
    (credentials_arg : option Credentials)
    (project_arg location_arg : option string)
    (http_options : option HttpOptionsOrDict) :
  let run := BaseApiClient__init__ rt env vertexai_arg api_key_arg
               credentials_arg project_arg location_arg http_options in
  (fst run = [] \/ fst run = [AuthDefault])
  /\ (fst run = [AuthDefault] ->
      obool_truthy (vertexai_in_force env vertexai_arg) = true
      /\ ostr_truthy project_arg = false
      /\ ostr_truthy (GOOGLE_CLOUD_PROJECT env) = false)
  /\ (forall c, snd run = Ok c ->
        (is_some credentials_arg = true -> _credentials c = credentials_arg)
        /\ (fst run = [] -> _credentials c = credentials_arg)
        /\ (fst run = [AuthDefault] ->
            ostr_truthy (project c) = true
            /\ exists lc p, google_auth_default env = Ok (lc, p)
                 /\ project c = p
                 /\ (credentials_arg = None -> _credentials c = Some lc))).
Proof.
  intros run.
  assert (Heff : (fst run = [] \/ fst run = [AuthDefault])
    /\ (fst run = [AuthDefault] ->
        obool_truthy (vertexai_in_force env vertexai_arg) = true
        /\ ostr_truthy project_arg = false
        /\ ostr_truthy (GOOGLE_CLOUD_PROJECT env) = false)).
  { unfold run, BaseApiClient__init__.
    fold (vertexai_in_force env vertexai_arg).
    destruct ((ostr_truthy project_arg || ostr_truthy location_arg)
              && ostr_truthy api_key_arg) eqn:Hv1;
      [split; [auto | discriminate]|].
    destruct (is_some credentials_arg && ostr_truthy api_key_arg) eqn:Hv2;
      [split; [auto | discriminate]|].
    destruct (match http_options with
              | Some (AsHttpOptions o) => Ok o
              | Some (AsDict d) => _
              | None => Ok HttpOptions_default
              end) as [validated|e]; [|split; [auto | discriminate]].
    destruct (obool_truthy (vertexai_in_force env vertexai_arg));
      [|destruct (negb _); split; auto; discriminate].
    destruct (vertex_precedence _ _ _ _ _ _ _ _ _ _) as [[p' l'] k'] eqn:Hvp.
    destruct (vertex_precedence_spec _ _ _ _ _ _ _ _ _ _ Hv1 Hv2
                (env_key_falsy env) Hvp) as (_ & _ & HL & _).
    destruct (negb (ostr_truthy p') && negb (ostr_truthy k')) eqn:Hload;
      cbn [fst]; [|split; [auto | discriminate]].
    apply andb_true_iff in Hload as [Hp Hk].
    apply negb_true_iff in Hp, Hk.
    destruct (HL Hp Hk) as [H1 H2]. auto. }
  split; [exact (proj1 Heff)|]. split; [exact (proj2 Heff)|].
  intros c Hc.
  destruct run as [effects r] eqn:Hrun. cbn [fst snd] in *. subst r.
  destruct (init_Ok_inv _ _ _ _ _ _ _ _ _ _ Hrun)
    as (Hv1 & Hv2 & validated & Hcase).
  destruct Hcase as [(_ & -> & _ & ->)
                    |(_ & p' & l' & k' & cr & p'' & _ & Hload & _ & ->)].
  - destruct (finish_init_fields rt (vertexai_in_force env vertexai_arg)
      (ostr_or project_arg (GOOGLE_CLOUD_PROJECT env))
      (ostr_or location_arg (GOOGLE_CLOUD_LOCATION env))
      (ostr_or api_key_arg (_get_env_api_key env)) credentials_arg
      "https://generativelanguage.googleapis.com/" "v1beta" http_options
      validated) as (_ & _ & _ & -> & _).
    split; [auto|]. split; [auto|]. discriminate.
  - destruct (finish_init_fields rt (vertexai_in_force env vertexai_arg) p'' l'
      k' cr (vertex_base_url k' l') "v1beta1" http_options validated)
      as (_ & -> & _ & -> & _).
    destruct Hload as [(_ & -> & -> & ->)
                      |(_ & _ & -> & Hp'' & lc & Hl & ->)].
    + split; [auto|]. split; [auto|]. discriminate.
    + split; [intros Hcr; now rewrite Hcr|]. split; [discriminate|].
      intros _. split; [exact Hp''|].
      unfold _load_auth in Hl.
      destruct (google_auth_default env) as [[c0 p0]|e]; [|discriminate].
      cbn in Hl. destruct (ostr_truthy p0); [|discriminate].
      injection Hl as <- <-. exists c0, p0.
      split; [reflexivity|]. split; [reflexivity|]. now intros ->.
Qed.

(** ** Token access by one caller *)

Lemma set_credentials_same (self : BaseApiClient) :
  set_credentials self (_credentials self) (project self) = self.
Proof. now destruct self. Qed.

Section TokenFacts.
  Variable refresh : Credentials -> result Credentials.
  Variable env : Env.

  (** What a call that returns a token went through. *)
Lemma access_token_Ok_inv (self self' : BaseApiClient)
      (effects : list effect) (t : string) :
    _access_token refresh env self = (self', effects, Ok t) ->
    exists c, _credentials self' = Some c /\ token c = Some t
              /\ t <> EmptyString
              /\ project self' =
                   (if is_some (_credentials self) || ostr_truthy (project self)
                    then project self else project self')
              /\ vertexai self' = vertexai self
              /\ location self' = location self
              /\ api_key self' = api_key self
              /\ _http_options self' = _http_options self
              /\ _retry self' = _retry self.
  Proof.
    unfold _access_token.
    destruct (_credentials self) as [c0|] eqn:Hc.
    - rewrite Hc.
      destruct (needs_refresh c0); [destruct (refresh c0) as [c1|e]|];
        try discriminate.
      + destruct (token c1) as [[|a s]|] eqn:Ht; cbn; try discriminate.
        intros H. injection H as <- _ <-. exists c1.
        cbn. rewrite Ht. repeat split; auto; discriminate.
      + destruct (token c0) as [[|a s]|] eqn:Ht; cbn; try discriminate.
        intros H. injection H as <- _ <-. exists c0.
        cbn. rewrite Ht. repeat split; auto; discriminate.
    - destruct (_load_auth env (project self)) as [[c0 p]|e]; [|discriminate].
      cbn [_credentials set_credentials].
      destruct (needs_refresh c0); [destruct (refresh c0) as [c1|e]|];
        try discriminate.
      + destruct (token c1) as [[|a s]|] eqn:Ht; cbn; try discriminate.
        intros H. injection H as <- _ <-. exists c1.
        cbn. rewrite Ht. repeat split; auto; try discriminate;
          now destruct (ostr_truthy (project self)).
      + destruct (token c0) as [[|a s]|] eqn:Ht; cbn; try discriminate.
        intros H. injection H as <- _ <-. exists c0.
        cbn. rewrite Ht. repeat split; auto; try discriminate;
          now destruct (ostr_truthy (project self)).
  Qed.

  (** With credentials that hold a valid token the call returns it and
      touches nothing. *)
Lemma access_token_cached (self : BaseApiClient) (c : Credentials) :
    _credentials self = Some c -> needs_refresh c = false ->
    _access_token refresh env self = (self, [], Ok (default "" (token c))).
  Proof.
    intros Hc Hn. unfold _access_token. rewrite Hc. cbv beta iota zeta.
    rewrite Hc, Hn.
    unfold needs_refresh in Hn. apply orb_false_iff in Hn as [_ Ht].
    apply negb_false_iff in Ht. rewrite Ht. cbn [negb].
    rewrite <- Hc, set_credentials_same. reflexivity.
  Qed.
End TokenFacts.

(** X15: the token access never returns an empty token; with credentials
    that hold a token and are not expired it returns that token, calls
    nothing outside and leaves the client as it is; it calls
    google.auth.default only when the client has no credentials, and
    then before any refresh; a project the client already names is never
    replaced; and, when a refresh yields credentials that are not
    expired, a second call after a successful one makes no outside call
    and returns the same token. *)
Theorem access_token_is_cached (refresh : Credentials -> result Credentials)
    (env : Env) (self : BaseApiClient) :
  let run := _access_token refresh env self in
  let self' := fst (fst run) in
  let effects := snd (fst run) in
  (forall t, snd run = Ok t -> t <> EmptyString)
  /\ (forall c, _credentials self = Some c -> needs_refresh c = false ->
        run = (self, [], Ok (default "" (token c))))
  /\ (effects = [] \/ effects = [AuthDefault] \/ effects = [AuthRefresh]
      \/ effects = [AuthDefault; AuthRefresh])
  /\ (is_some (_credentials self) = true -> ~ In AuthDefault effects)
  /\ (is_some (_credentials self) = true \/ ostr_truthy (project self) = true ->
      project self' = project self)
  /\ (forall t,
        snd run = Ok t ->
        (forall c c', refresh c = Ok c' -> needs_refresh c' = false) ->
        _access_token refresh env self' = (self', [], Ok t)).
Proof.
  intros run self' effects.
  split; [|split; [|split; [|split; [|split]]]].
  - intros t Ht. subst self' effects run.
    destruct (_access_token refresh env self) as [[s e] r] eqn:Hrun.
    cbn in Ht. subst r.
    now destruct (access_token_Ok_inv _ _ _ _ _ _ Hrun) as (c & _ & _ & H & _).
  - intros c Hc Hn. now apply access_token_cached.
  - unfold effects, run, _access_token.
    destruct (_credentials self) as [c0|] eqn:Hc.
    + rewrite ?Hc.
      destruct (needs_refresh c0); [destruct (refresh c0) as [c1|e]|];
        cbn; auto;
        match goal with
        | |- context [negb ?b] => destruct b
        end; cbn; auto.
    + destruct (_load_auth env (project self)) as [[c0 p]|e]; cbn; auto.
      destruct (needs_refresh c0); [destruct (refresh c0) as [c1|e]|];
        cbn; auto 6;
        match goal with
        | |- context [negb ?b] => destruct b
        end; cbn; auto 6.
  - unfold effects, run, _access_token.
    destruct (_credentials self) as [c0|] eqn:Hc; [|discriminate].
    intros _. rewrite ?Hc.
    destruct (needs_refresh c0); [destruct (refresh c0) as [c1|e]|];
      cbn; try (intros [?|[]]; discriminate); try tauto;
      match goal with
      | |- context [negb ?b] => destruct b
      end; cbn; try (intros [?|[]]; discriminate); tauto.
  - unfold self', run, _access_token.
    destruct (_credentials self) as [c0|] eqn:Hc.
    + intros _. rewrite ?Hc.
      destruct (needs_refresh c0); [destruct (refresh c0) as [c1|e]|];
        cbn; auto;
        match goal with
        | |- context [negb ?b] => destruct b
        end; reflexivity.
    + intros [H|Hp]; [discriminate|].
      destruct (_load_auth env (project self)) as [[c0 p]|e]; cbn; auto.
      rewrite Hp.
      destruct (needs_refresh c0); [destruct (refresh c0) as [c1|e]|];
        cbn; auto;
        match goal with
        | |- context [negb ?b] => destruct b
        end; reflexivity.
  - intros t Ht Hfresh. subst self' effects run.
    destruct (_access_token refresh env self) as [[s e] r] eqn:Hrun.
    cbn [fst snd] in *. subst r.
    destruct (access_token_Ok_inv _ _ _ _ _ _ Hrun) as (c & Hc & Htok & _).
    assert (Hn : needs_refresh c = false).
    { revert Hrun Hc. unfold _access_token.
      destruct (_credentials self) as [c0|] eqn:Hc0.
      - rewrite ?Hc0.
        destruct (needs_refresh c0) eqn:Hn0;
          [destruct (refresh c0) as [c1|e0] eqn:Hr|]; try discriminate.
        + destruct (negb (ostr_truthy (token c1))); [discriminate|].
          intros H. injection H as <- _ _. cbn. intros H. injection H as <-.
          eapply Hfresh; eauto.
        + destruct (negb (ostr_truthy (token c0))); [discriminate|].
          intros H. injection H as <- _ _. cbn. intros H. now injection H as <-.
      - destruct (_load_auth env (project self)) as [[c0 p]|e0];
          [|discriminate].
        cbn [_credentials set_credentials].
        destruct (needs_refresh c0) eqn:Hn0;
          [destruct (refresh c0) as [c1|e0] eqn:Hr|]; try discriminate.
        + destruct (negb (ostr_truthy (token c1))); [discriminate|].
          intros H. injection H as <- _ _. cbn. intros H. injection H as <-.
          eapply Hfresh; eauto.
        + destruct (negb (ostr_truthy (token c0))); [discriminate|].
          intros H. injection H as <- _ _. cbn. intros H. now injection H as <-. }
    rewrite (access_token_cached refresh env s c Hc Hn), Htok. reflexivity.
Qed.

(** X16: run by one caller alone, the suspend-capable token access does
    what the blocking one does: the same outside calls in the same order,
    the same client afterwards, and the same token or exception. *)
Theorem async_access_token_agrees (refresh : Credentials -> result Credentials)
    (env : Env) (self : BaseApiClient) :
  _async_access_token refresh env self = _access_token refresh env self.
Proof.
  unfold _async_access_token, _access_token.
  destruct (_credentials self) as [c0|] eqn:Hc; cbn [is_some negb].
  - rewrite Hc. now destruct (needs_refresh c0).
  - destruct (_load_auth env (project self)) as [[c0 p]|e]; [|reflexivity].
    cbn [_credentials set_credentials].
    destruct (ostr_truthy (project self)); cbn [negb];
      now destruct (needs_refresh c0).
Qed.

(** ** Requests built for a client *)

Lemma set_headers_same (o : HttpOptions) (h : gmap string string) :
  headers o = Some h -> set_headers o h = o.
Proof. destruct o. cbn. now intros ->. Qed.

Lemma set_http_options_same (self : BaseApiClient) :
  set_http_options self (_http_options self) = self.
Proof. now destruct self. Qed.

Lemma startswith_app (p s : string) : startswith (p +:+ s) p = true.
Proof. apply prefix_app. Qed.

Lemma qualified_path_vertex (self : BaseApiClient)
    (http_method path : string) :
  obool_truthy (vertexai self) = true ->
  ostr_truthy (api_key self) = false ->
  startswith path "projects/" = false ->
  http_method <> "get"
  \/ startswith path "publishers/google/models" = false ->
  qualified_path self http_method path
  = "projects/" +:+ fmt_ostr (project self) +:+ "/locations/"
    +:+ fmt_ostr (location self) +:+ "/" +:+ path.
Proof.
  intros Hv Hk Hp Hm. unfold qualified_path. rewrite Hv, Hk, Hp.
  cbn [andb negb].
  assert (E : (http_method =? "get")%string
              && startswith path "publishers/google/models" = false).
  { destruct Hm as [Hm|Hm]; [|now rewrite Hm, andb_false_r].
    apply String.eqb_neq in Hm. now rewrite Hm. }
  rewrite E. cbn [negb andb]. now rewrite !str_append_assoc.
Qed.

(** X17: the Vertex AI qualification of a path is applied once: a path
    that names a project is left alone, as is the listing of the base
    models (a 'get' of publishers/google/models...), any path of a client
    that is not in Vertex AI mode or has an API key; every other path
    gets projects/<project>/locations/<location>/ in front; and
    qualifying a qualified path changes nothing. *)
Theorem qualified_path_applies_once (self : BaseApiClient)
    (http_method path : string) :
  qualified_path self http_method (qualified_path self http_method path)
  = qualified_path self http_method path
  /\ (obool_truthy (vertexai self) = false \/ ostr_truthy (api_key self) = true
      \/ startswith path "projects/" = true
      \/ (http_method = "get"
          /\ startswith path "publishers/google/models" = true) ->
      qualified_path self http_method path = path)
  /\ (obool_truthy (vertexai self) = true ->
      ostr_truthy (api_key self) = false ->
      startswith path "projects/" = false ->
      http_method <> "get"
      \/ startswith path "publishers/google/models" = false ->
      qualified_path self http_method path
      = "projects/" +:+ fmt_ostr (project self) +:+ "/locations/"
        +:+ fmt_ostr (location self) +:+ "/" +:+ path).
Proof.
  split; [|split].
  - destruct (obool_truthy (vertexai self)
              && negb (startswith path "projects/")
              && negb (obool_truthy (vertexai self)
                       && (http_method =? "get")%string
                       && startswith path "publishers/google/models")
              && negb (ostr_truthy (api_key self))) eqn:E.
    + assert (Hq : qualified_path self http_method path
                   = "projects/" +:+ (fmt_ostr (project self) +:+ "/locations/"
                     +:+ fmt_ostr (location self) +:+ "/" +:+ path)).
      { unfold qualified_path. rewrite E. now rewrite !str_append_assoc. }
      rewrite Hq. unfold qualified_path at 1.
      rewrite startswith_app. cbn [negb]. now rewrite andb_false_r.
    + assert (Hq : qualified_path self http_method path = path)
        by (unfold qualified_path; now rewrite E).
      rewrite Hq. exact Hq.
  - unfold qualified_path. intros Hcases.
    destruct (String.eqb_spec http_method "get") as [Hm|Hm];
      destruct (obool_truthy (vertexai self));
      destruct (ostr_truthy (api_key self));
      destruct (startswith path "projects/");
      destruct (startswith path "publishers/google/models");
      try reflexivity;
      destruct Hcases as [H|[H|[H|[H1 H2]]]]; congruence.
  - apply qualified_path_vertex.
Qed.

Lemma without_leading_slash_version (ver rest : string) :
  startswith ver "/" = false -> ver <> EmptyString ->
  without_leading_slash ((ver +:+ "/") +:+ rest) = (ver +:+ "/") +:+ rest.
Proof.
  intros Hv Hne. unfold without_leading_slash.
  destruct ver as [|c v]; [congruence|].
  unfold startswith in *. sapp.
  change (String.prefix "/" (String c v))
    with (if ascii_dec "/" c then String.prefix EmptyString v else false) in Hv.
  change (String.prefix "/" (String c ((v +:+ "/") +:+ rest)))
    with (if ascii_dec "/" c
          then String.prefix EmptyString ((v +:+ "/") +:+ rest) else false).
  destruct (ascii_dec "/" c); [|reflexivity].
  rewrite prefix_nil in Hv. discriminate.
Qed.

(** A build without options of the call, for a client whose base URL is
    https://host/ and whose options name a version and no timeout. *)
Lemma build_request_plain (rt : Runtime) (self : BaseApiClient)
    (http_method path : string) (request_dict : loc) (σ : store)
    (host ver : string) (h : gmap string string) :
  url_host_ok host = true ->
  startswith ver "/" = false -> ver <> EmptyString ->
  base_url (_http_options self) = Some ("https://" +:+ host +:+ "/") ->
  api_version (_http_options self) = Some ver ->
  headers (_http_options self) = Some h ->
  timeout (_http_options self) = None ->
  extra_body (_http_options self) = None ->
  ostr_truthy (api_key self)
  && startswith (default "" (api_key self)) "auth_tokens/" = false ->
  _build_request rt self http_method path request_dict None σ
  = (alter (dict_del_where (fun key => startswith key "_")) request_dict σ,
     self,
     Ok {| req_headers := h;
           req_url := "https://" +:+ host +:+ "/" +:+ ver +:+ "/"
                      +:+ qualified_path self http_method path;
           req_method := http_method;
           req_data := DataDict request_dict;
           req_timeout := None |}).
Proof.
  intros Hhost Hver Hne Hbase Hversion Hh Htmo Heb He.
  apply build_request_Ok_iff.
  exists (ClientOwn (_http_options self)), h,
    ("https://" +:+ host +:+ "/" +:+ ver +:+ "/"
     +:+ qualified_path self http_method path).
  cbn [patch_for_call http_options_truthy patched_options].
  rewrite Hbase, Hh, Htmo. cbn [default ostr_truthy].
  split; [reflexivity|]. split; [sapp; reflexivity|]. split.
  - change ("https://" +:+ host +:+ "/")
      with ("https" +:+ "://" +:+ host +:+ "/").
    rewrite (join_url_path_well_formed rt "https" host "/" _ eq_refl Hhost
               eq_refl).
    unfold versioned. rewrite Hversion.
    rewrite (without_leading_slash_version ver _ Hver Hne).
    change (without_trailing_slash "/") with EmptyString.
    f_equal. sapp. now rewrite !str_append_assoc.
  - split; [exact He|]. split; [reflexivity|]. split.
    + unfold store_after_build. cbn [patched_options]. now rewrite Heb.
    + cbn. split; [|reflexivity].
      now rewrite (set_headers_same _ _ Hh), set_http_options_same.
Qed.

(** A client constructed without Vertex AI and without options. *)
Lemma public_client_facts (rt : Runtime) (env : Env)
    (vertexai_arg : option bool) (api_key_arg : option string)
    (credentials_arg : option Credentials)
    (project_arg location_arg : option string) (c : BaseApiClient) :
  obool_truthy (vertexai_in_force env vertexai_arg) = false ->
  snd (BaseApiClient__init__ rt env vertexai_arg api_key_arg credentials_arg
         project_arg location_arg None) = Ok c ->
  obool_truthy (vertexai c) = false
  /\ _retry c = _retry_args None
  /\ exists k,
       api_key c = Some (str_strip k)
       /\ _http_options c =
            {| base_url := Some "https://generativelanguage.googleapis.com/";
               api_version := Some "v1beta";
               headers := Some (default_headers rt k);
               timeout := None; client_args := None;
               async_client_args := None; extra_body := None;
               retry_options := None |}.
Proof.
  intros Hv H.
  destruct (BaseApiClient__init__ rt env vertexai_arg api_key_arg
              credentials_arg project_arg location_arg None)
    as [effects r] eqn:Hrun.
  cbn [snd] in H. subst r.
  destruct (init_Ok_inv _ _ _ _ _ _ _ _ _ _ Hrun) as (_ & _ & validated & Hc).
  destruct Hc as [(_ & _ & Hk & Hc)|(Hv' & _)]; [|congruence].
  destruct (ostr_or api_key_arg (_get_env_api_key env)) as [k|] eqn:Hkey;
    [|discriminate].
  destruct (finish_init_fields rt (vertexai_in_force env vertexai_arg)
              (ostr_or project_arg (GOOGLE_CLOUD_PROJECT env))
              (ostr_or location_arg (GOOGLE_CLOUD_LOCATION env)) (Some k)
              credentials_arg "https://generativelanguage.googleapis.com/"
              "v1beta" None validated)
    as (Hvx & _ & _ & _ & Hak & Hretry & _ & _ & _ & Hopts).
  rewrite <- Hc in Hvx, Hak, Hretry, Hopts. specialize (Hopts eq_refl).
  cbn [ostr_truthy] in Hk, Hak. rewrite Hk in Hak, Hopts.
  cbn [fmap option_fmap option_map] in Hak.
  split; [now rewrite Hvx|]. split; [now rewrite Hretry, Hopts|].
  exists k. split; [exact Hak|exact Hopts].
Qed.

(** What such a client builds for a call without options of its own. *)
Lemma public_client_builds (rt : Runtime) (c : BaseApiClient) (k : string)
    (http_method path : string) (request_dict : loc) (σ : store) :
  obool_truthy (vertexai c) = false ->
  api_key c = Some (str_strip k) ->
  _http_options c =
    {| base_url := Some "https://generativelanguage.googleapis.com/";
       api_version := Some "v1beta";
       headers := Some (default_headers rt k);
       timeout := None; client_args := None;
       async_client_args := None; extra_body := None;
       retry_options := None |} ->
  startswith (default "" (api_key c)) "auth_tokens/" = false ->
  default_headers rt k !! "x-goog-api-key" = api_key c
  /\ default_headers rt k !! "Content-Type" = Some "application/json"
  /\ _build_request rt c http_method path request_dict None σ
     = (alter (dict_del_where (fun key => startswith key "_"))
          request_dict σ,
        c,
        Ok {| req_headers := default_headers rt k;
              req_url := "https://generativelanguage.googleapis.com/v1beta/"
                         +:+ path;
              req_method := http_method;
              req_data := DataDict request_dict;
              req_timeout := None |}).
Proof.
  intros Hvx Hak Hopts Heph. unfold default_headers.
  split; [|split].
  - rewrite Hak, append_library_version_headers_lookup.
    rewrite bool_decide_eq_false_2 by (intros [?|?]; discriminate).
    apply lookup_insert_eq.
  - rewrite append_library_version_headers_lookup.
    rewrite bool_decide_eq_false_2 by (intros [?|?]; discriminate).
    rewrite lookup_insert_ne by discriminate. apply lookup_singleton_eq.
  - assert (Hq : qualified_path c http_method path = path).
    { unfold qualified_path. now rewrite Hvx. }
    rewrite <- Hq at 2.
    apply (build_request_plain rt c http_method path request_dict σ
             "generativelanguage.googleapis.com" "v1beta");
      try reflexivity; try discriminate; try (now rewrite Hopts).
    now rewrite Heph, andb_false_r.
Qed.

(** X18: for a client constructed without Vertex AI and without options,
    whose key is not an ephemeral token, every call without options of
    its own builds a request: the URL is the public endpoint, v1beta and
    the path as given, the method is as given, the data is the caller's
    dictionary, there is no timeout, and the headers are the client's,
    with the stripped API key under x-goog-api-key; the client is left as
    it is and the store loses only the special keys of the dictionary. *)
Theorem build_request_public_endpoint (rt : Runtime) (env : Env)
    (vertexai_arg : option bool) (api_key_arg : option string)
    (credentials_arg : option Credentials)
    (project_arg location_arg : option string) (c : BaseApiClient)
    (http_method path : string) (request_dict : loc) (σ : store) :
  obool_truthy (vertexai_in_force env vertexai_arg) = false ->
  snd (BaseApiClient__init__ rt env vertexai_arg api_key_arg credentials_arg
         project_arg location_arg None) = Ok c ->
  startswith (default "" (api_key c)) "auth_tokens/" = false ->
  exists h,
    headers (_http_options c) = Some h
    /\ h !! "x-goog-api-key" = api_key c
    /\ h !! "Content-Type" = Some "application/json"
    /\ _build_request rt c http_method path request_dict None σ
       = (alter (dict_del_where (fun key => startswith key "_"))
            request_dict σ,
          c,
          Ok {| req_headers := h;
                req_url := "https://generativelanguage.googleapis.com/v1beta/"
                           +:+ path;
                req_method := http_method;
                req_data := DataDict request_dict;
                req_timeout := None |}).
Proof.
  intros Hv H Heph.
  destruct (public_client_facts rt env vertexai_arg api_key_arg
              credentials_arg project_arg location_arg c Hv H)
    as (Hvx & _ & k & Hak & Hopts).
  destruct (public_client_builds rt c k http_method path request_dict σ
              Hvx Hak Hopts Heph) as (H1 & H2 & H3).
  exists (default_headers rt k). rewrite Hopts at 1.
  split; [reflexivity|]. auto.
Qed.

(** The theorem at the client of the examples. *)
Lemma build_request_public_endpoint_witness :
  exists h,
    headers (_http_options example_client) = Some h
    /\ h !! "x-goog-api-key" = api_key example_client
    /\ h !! "Content-Type" = Some "application/json"
    /\ _build_request example_runtime example_client "get" "models"
         1%positive None caller_store
       = (alter (dict_del_where (fun key => startswith key "_"))
            1%positive caller_store,
          example_client,
          Ok {| req_headers := h;
                req_url := "https://generativelanguage.googleapis.com/v1beta/"
                           +:+ "models";
                req_method := "get";
                req_data := DataDict 1%positive;
                req_timeout := None |}).
Proof.
  exact (build_request_public_endpoint example_runtime empty_env None
           (Some "key") None None None example_client "get" "models"
           1%positive caller_store eq_refl eq_refl eq_refl).
Defined.

(** X19: for a client constructed in Vertex AI mode without options and
    without an API key, every call without options of its own builds a
    request whose URL is the endpoint of the client's location (the
    global endpoint for 'global'), v1beta1 and the path qualified with
    the client's project and location; the client is left as it is. *)
Theorem build_request_vertex_endpoint (rt : Runtime) (env : Env)
    (vertexai_arg : option bool) (api_key_arg : option string)
    (credentials_arg : option Credentials)
    (project_arg location_arg : option string) (c : BaseApiClient)
    (http_method path : string) (request_dict : loc) (σ : store) :
  obool_truthy (vertexai_in_force env vertexai_arg) = true ->
  snd (BaseApiClient__init__ rt env vertexai_arg api_key_arg credentials_arg
         project_arg location_arg None) = Ok c ->
  api_key c = None ->
  let host :=
    if match location c with
       | Some l => String.eqb l "global"
       | None => false
       end
    then "aiplatform.googleapis.com"
    else fmt_ostr (location c) +:+ "-aiplatform.googleapis.com" in
  url_host_ok host = true ->
  exists h,
    headers (_http_options c) = Some h
    /\ h !! "x-goog-api-key" = None
    /\ _build_request rt c http_method path request_dict None σ
       = (alter (dict_del_where (fun key => startswith key "_"))
            request_dict σ,
          c,
          Ok {| req_headers := h;
                req_url := "https://" +:+ host +:+ "/v1beta1/"
                           +:+ qualified_path c http_method path;
                req_method := http_method;
                req_data := DataDict request_dict;
                req_timeout := None |})
    /\ (startswith path "projects/" = false ->
        http_method <> "get"
        \/ startswith path "publishers/google/models" = false ->
        qualified_path c http_method path
        = "projects/" +:+ fmt_ostr (project c) +:+ "/locations/"
          +:+ fmt_ostr (location c) +:+ "/" +:+ path)
    /\ ostr_truthy (project c) = true /\ ostr_truthy (location c) = true.
Proof.
  intros Hv H Hnokey host Hhost.
  destruct (BaseApiClient__init__ rt env vertexai_arg api_key_arg
              credentials_arg project_arg location_arg None)
    as [effects r] eqn:Hrun.
  cbn [snd] in H. subst r.
  destruct (init_Ok_inv _ _ _ _ _ _ _ _ _ _ Hrun)
    as (Hv1 & Hv2 & validated & Hc).
  destruct Hc as [(Hv' & _)|(_ & p' & l' & k' & cr & p'' & Hvp & Hload & Hcheck & Hc)];
    [congruence|].
  destruct (finish_init_fields rt (vertexai_in_force env vertexai_arg) p'' l' k'
              cr (vertex_base_url k' l') "v1beta1" None validated)
    as (Hvx & Hpx & Hlx & _ & Hak & _ & _ & _ & _ & Hopts).
  rewrite <- Hc in Hvx, Hpx, Hlx, Hak, Hopts. specialize (Hopts eq_refl).
  assert (Hk' : k' = None).
  { rewrite Hnokey in Hak. destruct k' as [k|]; [|reflexivity].
    destruct (ostr_truthy (Some k)); discriminate. }
  subst k'. cbn [ostr_truthy orb] in Hcheck.
  rewrite orb_false_r in Hcheck. apply andb_true_iff in Hcheck as [Hp Hl].
  assert (Hbase : vertex_base_url None l' = "https://" +:+ host +:+ "/").
  { unfold vertex_base_url, host. rewrite Hlx. cbn [ostr_truthy orb].
    destruct (match l' with Some l => String.eqb l "global" | None => false end);
      [reflexivity|].
    now rewrite !str_append_assoc. }
  rewrite Hbase in Hopts.
  eexists. rewrite Hopts at 1. cbn [headers].
  split; [reflexivity|]. split; [|split; [|split]].
  - rewrite append_library_version_headers_lookup.
    rewrite bool_decide_eq_false_2 by (intros [?|?]; discriminate).
    apply lookup_singleton_ne. discriminate.
  - replace ("https://" +:+ host +:+ "/v1beta1/"
             +:+ qualified_path c http_method path)
      with ("https://" +:+ host +:+ "/" +:+ "v1beta1" +:+ "/"
            +:+ qualified_path c http_method path)
      by (now rewrite ?str_app_cons, ?str_app_nil).
    apply (build_request_plain rt c http_method path request_dict σ
             host "v1beta1");
      try reflexivity; try discriminate; try (now rewrite Hopts);
      try assumption.
    now rewrite Hnokey.
  - intros Hpath Hm.
    apply qualified_path_vertex; try assumption.
    + now rewrite Hvx.
    + now rewrite Hnokey.
  - rewrite Hpx, Hlx. auto.
Qed.

(** The theorem at the Vertex AI client of the examples. *)
Lemma build_request_vertex_endpoint_witness :
  exists req,
    snd (_build_request example_runtime vertex_client "post"
           "models/m:generateContent" 1%positive None caller_store) = Ok req
    /\ req_url req
       = "https://us-central1-aiplatform.googleapis.com/v1beta1/projects/my-project/locations/us-central1/models/m:generateContent".
Proof.
  destruct (build_request_vertex_endpoint example_runtime env_vertex None None
              None None None vertex_client "post" "models/m:generateContent"
              1%positive caller_store eq_refl eq_refl eq_refl eq_refl)
    as (h & _ & _ & Hb & _).
  eexists. rewrite Hb. split; reflexivity.
Defined.

Lemma populate_server_timeout_header_present (h : gmap string string)
    (tmo : option Q) (v : string) :
  h !! "X-Server-Timeout" = Some v ->
  _populate_server_timeout_header h tmo = h.
Proof.
  intros Hv. unfold _populate_server_timeout_header.
  destruct tmo as [t|]; [|reflexivity]. rewrite Hv. cbn [is_some negb].
  now rewrite andb_false_r.
Qed.

(** What a build makes of the client record, where the extra body is
    told by value. *)
Lemma build_request_client_by_value (rt : Runtime) (self : BaseApiClient)
    (http_method path : string) (request_dict : loc)
    (http_options : option HttpOptionsOrDict) (σ : store) :
  let run := _build_request rt self http_method path request_dict
               http_options σ in
  let self' := snd (fst run) in
  (http_options_truthy http_options = true -> self' = self)
  /\ (forall e, snd run = Raise e -> self' = self)
  /\ (forall req, snd run = Ok req ->
        http_options_truthy http_options = false ->
        headers (_http_options self') = Some (req_headers req)
        /\ exists h, headers (_http_options self) = Some h
             /\ (forall k, k <> "X-Server-Timeout" ->
                   req_headers req !! k = h !! k)
             /\ (forall v, h !! "X-Server-Timeout" = Some v ->
                   req_headers req = h /\ self' = self))
  /\ (vertexai self' = vertexai self /\ project self' = project self
      /\ location self' = location self /\ api_key self' = api_key self
      /\ _credentials self' = _credentials self /\ _retry self' = _retry self
      /\ base_url (_http_options self') = base_url (_http_options self)
      /\ api_version (_http_options self')
         = api_version (_http_options self)
      /\ timeout (_http_options self') = timeout (_http_options self)
      /\ extra_body (_http_options self') = extra_body (_http_options self)
      /\ retry_options (_http_options self')
         = retry_options (_http_options self)).
Proof.
  intros run self'. subst self' run.
  destruct (_build_request rt self http_method path request_dict
              http_options σ) as [[σ' s'] r] eqn:Hrun.
  cbn [fst snd].
  destruct r as [req|e].
  - apply build_request_Ok_iff in Hrun
      as (p & h & url & Hp & _ & _ & _ & Hh & _ & Hs & Hreq).
    cbv zeta in Hs, Hreq.
    assert (Hpatch : (http_options_truthy http_options = true ->
                      exists o, p = Fresh o)
                     /\ (http_options_truthy http_options = false ->
                         p = ClientOwn (_http_options self))).
    { unfold patch_for_call in Hp.
      destruct (http_options_truthy http_options) eqn:Etruthy.
      - split; [intros _|discriminate].
        destruct http_options as [[o|d]|]; [| |discriminate Etruthy].
        + injection Hp as <-. eauto.
        + destruct (model_validate rt d); [|discriminate].
          cbn in Hp. injection Hp as <-. eauto.
      - split; [discriminate|intros _]. now injection Hp as <-. }
    destruct Hpatch as [Hfresh Hown].
    split; [|split; [discriminate|split]].
    + intros Ht. destruct (Hfresh Ht) as [o ->]. exact Hs.
    + intros req0 H0 Ht. injection H0 as <-.
      rewrite (Hown Ht) in *. cbn [client_after_build patched_options] in *.
      subst s' req. cbn [req_headers _http_options set_http_options headers
                         set_headers].
      split; [reflexivity|]. exists h. split; [exact Hh|]. split.
      * intros k Hk. unfold _populate_server_timeout_header.
        destruct (_get_timeout_in_seconds _) as [t|]; [|reflexivity].
        destruct (_ && _); [|reflexivity].
        now rewrite lookup_insert_ne by congruence.
      * intros v Hv.
        rewrite (populate_server_timeout_header_present _ _ _ Hv).
        split; [reflexivity|].
        now rewrite (set_headers_same _ _ Hh), set_http_options_same.
    + subst s'. destruct p as [o|o]; cbn [client_after_build];
        [repeat split|].
      unfold patch_for_call in Hp.
      assert (o = _http_options self) as ->.
      { destruct (http_options_truthy http_options) eqn:Etruthy.
        - destruct http_options as [[o'|d]|]; try discriminate.
          destruct (model_validate rt d); discriminate.
        - now injection Hp as <-. }
      repeat split.
  - assert (Hs : s' = self).
    { revert Hrun. unfold _build_request. cbv zeta.
      destruct (patch_for_call rt self http_options) as [p|e0];
        [|intros H; now injection H].
      destruct (negb _); [intros H; now injection H|].
      destruct (_join_url_path rt _ _); [|intros H; now injection H].
      destruct (_ && _); [intros H; now injection H|].
      destruct (headers (patched_options p));
        [discriminate | intros H; now injection H]. }
    subst s'. split; [auto|]. split; [auto|]. split; [discriminate|].
    repeat split.
Qed.

(** X20: a call with options of its own never changes the client's mode,
    project, location, key, credentials, retry object, or any of its
    options other than the extra body, and neither does a build that
    fails; a build without options of the call hands the client's own
    header dictionary to the request, so the headers of the request are
    the headers the client holds afterwards, and they differ from the
    headers it held before at most under X-Server-Timeout.  (Of the
    extra body nothing is said: the merge may leave its nested
    dictionaries shared with the caller's dictionary.) *)
Theorem build_request_client_afterwards (rt : Runtime) (self : BaseApiClient)
    (http_method path : string) (request_dict : loc)
    (http_options : option HttpOptionsOrDict) (σ : store) :
  let run := _build_request rt self http_method path request_dict
               http_options σ in
  let self' := snd (fst run) in
  (http_options_truthy http_options = true ->
   without_extra_body self' = without_extra_body self)
  /\ (forall e, snd run = Raise e ->
      without_extra_body self' = without_extra_body self)
  /\ (forall req, snd run = Ok req ->
        http_options_truthy http_options = false ->
        headers (_http_options self') = Some (req_headers req)
        /\ exists h, headers (_http_options self) = Some h
             /\ (forall k, k <> "X-Server-Timeout" ->
                   req_headers req !! k = h !! k)
             /\ (forall v, h !! "X-Server-Timeout" = Some v ->
                   req_headers req = h
                   /\ without_extra_body self' = without_extra_body self))
  /\ (vertexai self' = vertexai self /\ project self' = project self
      /\ location self' = location self /\ api_key self' = api_key self
      /\ _credentials self' = _credentials self /\ _retry self' = _retry self
      /\ base_url (_http_options self') = base_url (_http_options self)
      /\ api_version (_http_options self')
         = api_version (_http_options self)
      /\ timeout (_http_options self') = timeout (_http_options self)
      /\ client_args (_http_options self')
         = client_args (_http_options self)
      /\ async_client_args (_http_options self')
         = async_client_args (_http_options self)
      /\ retry_options (_http_options self')
         = retry_options (_http_options self)).
Proof.
  intros run self'.
  destruct (build_request_client_by_value rt self http_method path
              request_dict http_options σ) as (H1 & H2 & H3 & H4).
  fold run in H1, H2, H3, H4. fold self' in H1, H2, H3, H4.
  split; [intros Ht; now rewrite (H1 Ht)|].
  split; [intros e He; now rewrite (H2 e He)|].
  split.
  - intros req Hreq Ht. destruct (H3 req Hreq Ht) as (Hh & h & Hh0 & Hk & Hv).
    split; [exact Hh|]. exists h. split; [exact Hh0|]. split; [exact Hk|].
    intros v Hhv. destruct (Hv v Hhv) as [E1 E2]. now rewrite E2.
  - destruct H4 as (E1 & E2 & E3 & E4 & E5 & E6 & E7 & E8 & E9 & _ & E11).
    repeat (split; [assumption|]).
    assert (Hargs : client_args (_http_options self')
                    = client_args (_http_options self)
                    /\ async_client_args (_http_options self')
                       = async_client_args (_http_options self)).
    { unfold self', run, _build_request.
      destruct (patch_for_call rt self http_options) as [p|e] eqn:Hp;
        [|auto].
      cbv zeta. destruct (negb _); [auto|].
      destruct (_join_url_path rt _ _); [|auto].
      destruct (_ && _); [auto|].
      destruct (headers (patched_options p)); [|auto].
      cbn [fst snd]. destruct p as [o|o]; [auto|].
      unfold patch_for_call in Hp.
      assert (o = _http_options self) as ->.
      { destruct (http_options_truthy http_options) eqn:Etruthy.
        - destruct http_options as [[o'|d]|]; try discriminate.
          destruct (model_validate rt d); discriminate.
        - now injection Hp as <-. }
      auto. }
    destruct Hargs as [Ha Hb]. auto.
Qed.

(** X21: once a call without options of its own has written
    X-Server-Timeout into the client's headers, every later request
    inherits that value: a call whose own options set another timeout is
    sent with the timeout of the call but with the X-Server-Timeout of the
    client's timeout, unless its options name the header themselves. *)
Theorem server_timeout_header_is_inherited (rt : Runtime)
    (self self1 self2 : BaseApiClient) (m1 path1 m2 path2 : string)
    (l1 l2 : loc) (σ σ1 σ2 : store) (req1 req2 : HttpRequest)
    (o : HttpOptions) (t : Z) (h : gmap string string) :
  timeout (_http_options self) = Some t -> t <> 0 ->
  headers (_http_options self) = Some h ->
  h !! "X-Server-Timeout" = None ->
  default ∅ (headers o) !! "X-Server-Timeout" = None ->
  _build_request rt self m1 path1 l1 None σ = (σ1, self1, Ok req1) ->
  _build_request rt self1 m2 path2 l2 (Some (AsHttpOptions o)) σ1
  = (σ2, self2, Ok req2) ->
  let seconds := str_of_Z (Qceiling (t # 1000)) in
  req_headers req1 !! "X-Server-Timeout" = Some seconds
  /\ headers (_http_options self1) = Some (req_headers req1)
  /\ req_headers req2 !! "X-Server-Timeout" = Some seconds
  /\ req_timeout req2
     = _get_timeout_in_seconds
         (match timeout o with Some t' => Some t' | None => Some t end)
  /\ self2 = self1.
Proof.
  intros Ht Hne Hh Hnone Ho H1 H2 seconds.
  apply build_request_Ok_iff in H1
    as (p1 & h1 & url1 & Hp1 & _ & _ & _ & Hh1 & _ & Hs1 & Hreq1).
  cbn [patch_for_call http_options_truthy] in Hp1. injection Hp1 as <-.
  cbn [patched_options client_after_build] in *. cbv zeta in Hs1, Hreq1.
  rewrite Hh in Hh1. injection Hh1 as <-.
  assert (E1 : _populate_server_timeout_header h
                 (_get_timeout_in_seconds (timeout (_http_options self)))
               = <["X-Server-Timeout" := seconds]> h).
  { rewrite Ht. unfold _get_timeout_in_seconds, _populate_server_timeout_header.
    apply Z.eqb_neq in Hne. rewrite Hne, Hnone.
    unfold Q_truthy. cbn [Qnum is_some negb]. now rewrite Hne. }
  rewrite E1 in Hs1, Hreq1.
  apply build_request_Ok_iff in H2
    as (p2 & h2 & url2 & Hp2 & _ & _ & _ & Hh2 & _ & Hs2 & Hreq2).
  cbn [patch_for_call http_options_truthy] in Hp2. injection Hp2 as <-.
  cbn [patched_options client_after_build] in *. cbv zeta in Hs2, Hreq2.
  subst self1 req1 req2.
  cbn [req_headers req_timeout _http_options set_http_options headers
       set_headers timeout _patch_http_options] in *.
  injection Hh2 as <-.
  split; [apply lookup_insert_eq|]. split; [reflexivity|].
  split; [|split; [|exact Hs2]].
  - assert (Hm : _append_library_version_headers rt
                   (default ∅ (headers o)
                    ∪ <["X-Server-Timeout" := seconds]> h)
                 !! "X-Server-Timeout" = Some seconds).
    { rewrite append_library_version_headers_lookup.
      rewrite bool_decide_eq_false_2 by (intros [?|?]; discriminate).
      rewrite lookup_merged, Ho. apply lookup_insert_eq. }
    cbn [default from_option id] in Hm |- *.
    now rewrite (populate_server_timeout_header_present _ _ _ Hm).
  - rewrite Ht. now destruct (timeout o).
Qed.

(** The theorem at a client with a timeout of five seconds and a second
    call that asks for sixty: the second request has the timeout 60 and
    the header 5. *)
Lemma server_timeout_header_is_inherited_witness :
  exists σ1 self1 req1 σ2 req2,
    _build_request example_runtime timeout_client "get" "models" 1%positive
      None two_dicts = (σ1, self1, Ok req1)
    /\ _build_request example_runtime self1 "get" "models" 2%positive
         (Some (AsHttpOptions (with_timeout 60000))) σ1
       = (σ2, self1, Ok req2)
    /\ req_headers req2 !! "X-Server-Timeout" = Some "5"
    /\ req_timeout req2 = Some (60000 # 1000)%Q.
Proof.
  destruct (_build_request example_runtime timeout_client "get" "models"
              1%positive None two_dicts) as [[σ1 self1] r1] eqn:H1.
  assert (Hr1 : exists req1, r1 = Ok req1).
  { apply (f_equal snd) in H1. cbn [snd] in H1. rewrite <- H1.
    eexists. vm_compute. reflexivity. }
  destruct Hr1 as [req1 ->].
  destruct (_build_request example_runtime self1 "get" "models" 2%positive
              (Some (AsHttpOptions (with_timeout 60000))) σ1)
    as [[σ2 self2] r2] eqn:H2.
  assert (Hr2 : exists req2, r2 = Ok req2).
  { apply (f_equal snd) in H2. cbn [snd] in H2. rewrite <- H2.
    apply (f_equal (fun x => (fst (fst x), snd (fst x)))) in H1.
    cbn [fst snd] in H1. injection H1 as <- <-.
    eexists. vm_compute. reflexivity. }
  destruct Hr2 as [req2 ->].
  destruct (server_timeout_header_is_inherited example_runtime timeout_client
              self1 self2 "get" "models" "get" "models" 1%positive 2%positive
              two_dicts σ1 σ2 req1 req2 (with_timeout 60000) 5000 _
              eq_refl ltac:(discriminate) eq_refl eq_refl eq_refl H1 H2)
    as (_ & _ & Hh & Ht & ->).
  exists σ1, self1, req1, σ2, req2. repeat split; assumption.
Defined.

Lemma check_netloc_errors (rt : Runtime) (nl : string) (e : exn) :
  check_netloc rt nl = Raise e ->
  e = ValueError "Invalid IPv6 URL" \/ e = ValueError "netloc failed validation".
Proof.
  unfold check_netloc.
  destruct (xorb _ _); [intros H; injection H as <-; auto|].
  destruct (is_plain_netloc nl); [discriminate|].
  destruct (netloc_valid rt nl); [discriminate|].
  intros H; injection H as <-; auto.
Qed.

Lemma join_url_path_errors (rt : Runtime) (base_url path : string) (e : exn) :
  _join_url_path rt base_url path = Raise e ->
  e = ValueError "Invalid IPv6 URL" \/ e = ValueError "netloc failed validation".
Proof.
  unfold _join_url_path, urlparse.
  destruct (split_scheme _) as [sch url].
  unfold split_netloc.
  destruct (starts_double_slash url).
  - destruct (break_at is_netloc_delim _) as [nl rest].
    destruct (check_netloc rt nl) as [[]|e0] eqn:Hc;
      unfold mbind, result_bind; cbv beta iota.
    + destruct (split_once "#" rest) as [u frag].
      destruct (split_once "?" u) as [u' qry].
      destruct (str_mem sch uses_params && has_char ";" u');
        [destruct (_splitparams u')|]; discriminate.
    + intros H. injection H as <-.
      exact (check_netloc_errors _ _ _ Hc).
  - unfold mbind, result_bind; cbv beta iota.
    destruct (split_once "#" url) as [u frag].
    destruct (split_once "?" u) as [u' qry].
    destruct (str_mem sch uses_params && has_char ";" u');
      [destruct (_splitparams u')|]; discriminate.
Qed.

(** X22: a client whose options hold headers, as every client the
    initializer constructs does, never gets the error 'Request headers
    must be set.' from a build, with or without options of the call, and
    still holds headers afterwards (the options validator raising only
    its validation error). *)
Theorem build_request_never_misses_headers (rt : Runtime)
    (self : BaseApiClient) (http_method path : string) (request_dict : loc)
    (http_options : option HttpOptionsOrDict) (σ : store) :
  is_some (headers (_http_options self)) = true ->
  (forall d e, model_validate rt d = Raise e -> e = ValidationError) ->
  let run := _build_request rt self http_method path request_dict
               http_options σ in
  snd run <> Raise (ValueError "Request headers must be set.")
  /\ is_some (headers (_http_options (snd (fst run)))) = true.
Proof.
  intros Hh Hval run. subst run.
  assert (Hp : forall p, patch_for_call rt self http_options = Ok p ->
                         is_some (headers (patched_options p)) = true).
  { intros p. unfold patch_for_call.
    destruct (http_options_truthy http_options);
      [destruct http_options as [[o|d]|]|].
    - intros H. now injection H as <-.
    - destruct (model_validate rt d); [|discriminate].
      cbn. intros H. now injection H as <-.
    - intros H. now injection H as <-.
    - intros H. now injection H as <-. }
  destruct (_build_request rt self http_method path request_dict
              http_options σ) as [[σ' s'] r] eqn:Hrun.
  cbn [fst snd]. destruct r as [req|e].
  - split; [discriminate|].
    apply build_request_Ok_iff in Hrun
      as (p & h & url & _ & _ & _ & _ & _ & _ & Hs & _).
    cbv zeta in Hs. subst s'. now destruct p.
  - revert Hrun. unfold _build_request. cbv zeta.
    destruct (patch_for_call rt self http_options) as [p|e0] eqn:Hpatch.
    + specialize (Hp p eq_refl).
      destruct (negb _);
        [intros H; injection H as _ <- <-; split; [discriminate|exact Hh]|].
      destruct (_join_url_path rt _ _) as [url|e1] eqn:Hj.
      * destruct (_ && _);
          [intros H; injection H as _ <- <-; split; [discriminate|exact Hh]|].
        destruct (headers (patched_options p)); discriminate.
      * intros H. injection H as _ <- <-. split; [|exact Hh].
        destruct (join_url_path_errors _ _ _ _ Hj) as [-> | ->]; discriminate.
    + intros H. injection H as _ <- <-. split; [|exact Hh].
      unfold patch_for_call in Hpatch.
      destruct (http_options_truthy http_options);
        [destruct http_options as [[o|d]|]|]; try discriminate.
      destruct (model_validate rt d) as [o|e1] eqn:Hd; [discriminate|].
      cbn in Hpatch. injection Hpatch as <-.
      rewrite (Hval d e1 Hd). discriminate.
Qed.

(** The theorem at the client of the examples and options that blank the
    base URL. *)
Lemma build_request_never_misses_headers_witness :
  snd (_build_request example_runtime example_client "get" "models"
         1%positive (Some (AsHttpOptions blank_base_url)) caller_store)
  <> Raise (ValueError "Request headers must be set.")
  /\ is_some (headers (_http_options (snd (fst
       (_build_request example_runtime example_client "get" "models"
          1%positive (Some (AsHttpOptions blank_base_url)) caller_store)))))
     = true.
Proof.
  apply (build_request_never_misses_headers example_runtime example_client
           "get" "models" 1%positive (Some (AsHttpOptions blank_base_url))
           caller_store eq_refl).
  intros d e H. vm_compute in H. now injection H as <-.
Defined.

(** ** One exchange *)

(** X23: what [_request_once] puts on the wire.  With an API key, or
    outside Vertex AI mode, it sends the request as built, without
    touching the credentials or the client.  In Vertex AI mode without a
    key it first gets the token: when that fails nothing is sent; else
    the request goes out with Authorization: Bearer <token>, with
    x-goog-user-project when the credentials name a quota project, and
    with every other header as built.  The body is absent for an empty
    dictionary and the JSON text of the dictionary otherwise; raw bytes
    go out as they are with an API key and are refused with a TypeError
    in Vertex AI mode without one. *)
Theorem request_once_on_the_wire {Srv : Type}
    (httpx_request : Srv -> WireRequest -> Srv * WireResponse)
    (iter_lines : WireResponse -> list line)
    (refresh : Credentials -> result Credentials) (rt : Runtime) (env : Env)
    (σ : store) (stream : bool) (srv : Srv) (self : BaseApiClient)
    (http_request : HttpRequest) :
  let run := _request_once httpx_request iter_lines refresh rt env σ stream
               (srv, self, http_request) in
  let vertex_oauth :=
    obool_truthy (vertexai self) && negb (ostr_truthy (api_key self)) in
  let sent h data :=
    {| w_method := req_method http_request; w_url := req_url http_request;
       w_headers := h; w_content := data;
       w_timeout := req_timeout http_request |} in
  let answer wire :=
    match raise_for_response rt (snd (httpx_request srv wire)) with
    | Some e => Raise e
    | None =>
        Ok (HttpResponse__init__ (wire_headers (snd (httpx_request srv wire)))
              (if stream
               then StreamLive (iter_lines (snd (httpx_request srv wire)))
               else StreamList [wire_text (snd (httpx_request srv wire))])
              None)
    end in
  (vertex_oauth = false ->
   forall data, wire_body rt false σ (req_data http_request) = Ok data ->
     run = ((fst (httpx_request srv (sent (req_headers http_request) data)),
             self, http_request),
            answer (sent (req_headers http_request) data)))
  /\ (vertex_oauth = true ->
      forall self' effects e,
        _access_token refresh env self = (self', effects, Raise e) ->
        run = ((srv, self', http_request), Raise e))
  /\ (vertex_oauth = true ->
      forall self' effects tok,
        _access_token refresh env self = (self', effects, Ok tok) ->
        exists h,
          h !! "Authorization" = Some ("Bearer " +:+ tok)
          /\ (forall c q, _credentials self' = Some c ->
                quota_project_id c = Some q -> str_truthy q = true ->
                h !! "x-goog-user-project" = Some q)
          /\ (forall k, k <> "Authorization" -> k <> "x-goog-user-project" ->
                h !! k = req_headers http_request !! k)
          /\ forall data,
               wire_body rt true σ (req_data http_request) = Ok data ->
               fst (fst (fst run)) = fst (httpx_request srv (sent h data))
               /\ snd (fst run)
                  = {| req_headers := h;
                       req_url := req_url http_request;
                       req_method := req_method http_request;
                       req_data := req_data http_request;
                       req_timeout := req_timeout http_request |}
               /\ snd run = answer (sent h data))
  /\ (forall l, req_data http_request = DataDict l ->
        wire_body rt vertex_oauth σ (DataDict l)
        = Ok (if dict_truthy (default [] (σ !! l))
              then Some (json_dumps rt (default [] (σ !! l))) else None))
  /\ (forall b, str_truthy b = true ->
        wire_body rt false σ (DataBytes b) = Ok (Some b)
        /\ wire_body rt true σ (DataBytes b) = Raise TypeError).
Proof.
  intros run vertex_oauth sent answer. subst run.
  split; [|split; [|split; [|split]]].
  - intros Hv data Hdata. unfold _request_once. fold vertex_oauth.
    rewrite Hv. cbv beta iota zeta.
    destruct http_request as [h u m d t]. cbn [req_headers req_url req_method
      req_data req_timeout] in *.
    rewrite Hdata. unfold sent, answer. cbn [req_headers req_url req_method
      req_data req_timeout].
    now destruct (httpx_request srv _) as [srv' response].
  - intros Hv self' effects e Htok. unfold _request_once. fold vertex_oauth.
    rewrite Hv, Htok. reflexivity.
  - intros Hv self' effects tok Htok.
    set (h0 := <["Authorization" := "Bearer " +:+ tok]>
                 (req_headers http_request)).
    set (h := match _credentials self' with
              | Some c =>
                  match quota_project_id c with
                  | Some q => if str_truthy q
                              then <["x-goog-user-project" := q]> h0 else h0
                  | None => h0
                  end
              | None => h0
              end).
    exists h. split; [|split; [|split]].
    + unfold h. destruct (_credentials self') as [c|];
        [destruct (quota_project_id c) as [q|]; [destruct (str_truthy q)|]|];
        rewrite ?lookup_insert_ne by discriminate; apply lookup_insert_eq.
    + intros c q Hc Hq Ht. unfold h. rewrite Hc, Hq, Ht.
      apply lookup_insert_eq.
    + intros k Hk1 Hk2. unfold h. destruct (_credentials self') as [c|];
        [destruct (quota_project_id c) as [q|]; [destruct (str_truthy q)|]|];
        unfold h0; now rewrite ?lookup_insert_ne by congruence.
    + intros data Hdata. unfold _request_once. fold vertex_oauth.
      rewrite Hv, Htok. cbv beta iota zeta. unfold mbind, result_bind.
      fold h0. fold h. cbn [req_headers req_url req_method req_data
                            req_timeout].
      rewrite Hdata. unfold sent, answer.
      now destruct (httpx_request srv _) as [srv' response].
  - intros l Hl. unfold wire_body, data_truthy.
    now destruct (dict_truthy (default [] (σ !! l))).
  - intros b Hb. unfold wire_body, data_truthy. now rewrite Hb.
Qed.

(** ** Calls *)

(** X24: for a client constructed without Vertex AI and without options,
    whose key is not an ephemeral token, [request] without options of the
    call makes exactly one exchange: the method as given, the URL of the
    public endpoint, the client's headers, no timeout, and as body the
    JSON text of the caller's dictionary without its special keys (no body
    when nothing is left); the answer comes back as the headers and the
    text of the response, or as the error [raise_for_response] raises; the
    client is unchanged. *)
Theorem request_makes_one_exchange {Srv : Type}
    (httpx_request : Srv -> WireRequest -> Srv * WireResponse)
    (iter_lines : WireResponse -> list line)
    (refresh : Credentials -> result Credentials) (rt : Runtime) (env : Env)
    (vertexai_arg : option bool) (api_key_arg : option string)
    (credentials_arg : option Credentials)
    (project_arg location_arg : option string) (c : BaseApiClient)
    (http_method path : string) (request_dict : loc) (σ : store)
    (d : pydict) (srv : Srv) :
  obool_truthy (vertexai_in_force env vertexai_arg) = false ->
  snd (BaseApiClient__init__ rt env vertexai_arg api_key_arg credentials_arg
         project_arg location_arg None) = Ok c ->
  startswith (default "" (api_key c)) "auth_tokens/" = false ->
  σ !! request_dict = Some d ->
  let stripped := dict_del_where (fun key => startswith key "_") d in
  exists h,
    headers (_http_options c) = Some h
    /\ let wire :=
         {| w_method := http_method;
            w_url := "https://generativelanguage.googleapis.com/v1beta/"
                     +:+ path;
            w_headers := h;
            w_content := if dict_truthy stripped
                         then Some (json_dumps rt stripped) else None;
            w_timeout := None |} in
       let response := snd (httpx_request srv wire) in
       let outcome :=
         match raise_for_response rt response with
         | Some e => Raise e
         | None => Ok (HttpResponse__init__ (wire_headers response)
                         (StreamList [wire_text response]) None)
         end in
       request httpx_request iter_lines refresh rt env c http_method path
         request_dict None σ srv
       = (<[request_dict := stripped]> σ, c, fst (httpx_request srv wire),
          [Attempt outcome],
          match raise_for_response rt response with
          | Some e => Raise e
          | None => Ok {| sdk_headers := wire_headers response;
                          sdk_body := wire_text response |}
          end).
Proof.
  intros Hv Hinit Heph Hd stripped.
  destruct (public_client_facts rt env vertexai_arg api_key_arg
              credentials_arg project_arg location_arg c Hv Hinit)
    as (Hvx & Hretry & k & Hak & Hopts).
  destruct (public_client_builds rt c k http_method path request_dict σ
              Hvx Hak Hopts Heph) as (_ & _ & Hbuild).
  exists (default_headers rt k). rewrite Hopts at 1.
  split; [reflexivity|]. cbv zeta.
  unfold request. rewrite Hbuild.
  unfold _request, Retrying__call__. rewrite Hretry.
  replace (Z.to_nat (stop (_retry_args None) - 1)) with 0%nat by reflexivity.
  cbn [attempt_loop].
  unfold _request_once. rewrite Hvx. cbn [andb].
  cbn [req_headers req_url req_method req_data req_timeout].
  assert (Hσ : alter (dict_del_where (fun key => startswith key "_"))
                 request_dict σ = <[request_dict := stripped]> σ).
  { apply map_eq. intros l. destruct (decide (l = request_dict)) as [->|Hne].
    - now rewrite lookup_alter_eq, lookup_insert_eq, Hd.
    - now rewrite lookup_alter_ne, lookup_insert_ne by congruence. }
  rewrite Hσ. unfold wire_body, data_truthy.
  rewrite lookup_insert_eq. cbn [default from_option id].
  destruct (dict_truthy stripped);
    destruct (httpx_request srv _) as [srv' response];
    cbn [fst snd];
    destruct (raise_for_response rt response); reflexivity.
Qed.

(** The theorem at the client of the examples and a server that echoes
    the URL asked for. *)
Lemma request_makes_one_exchange_witness :
  request echo_url no_lines Ok example_runtime empty_env example_client
    "get" "models" 1%positive None caller_store 0%nat
  = (<[1%positive := dict_del_where (fun key => startswith key "_")
                       caller_dict]> caller_store,
     example_client, 1%nat,
     [Attempt (Ok (HttpResponse__init__ ∅
        (StreamList ["https://generativelanguage.googleapis.com/v1beta/models"])
        None))],
     Ok {| sdk_headers := ∅;
           sdk_body :=
             "https://generativelanguage.googleapis.com/v1beta/models" |}).
Proof.
  destruct (request_makes_one_exchange echo_url no_lines Ok example_runtime
              empty_env None (Some "key") None None None example_client
              "get" "models" 1%positive caller_store caller_dict 0%nat
              eq_refl eq_refl eq_refl eq_refl) as (h & Hh & Hrun).
  cbv zeta in Hrun. rewrite Hrun. reflexivity.
Defined.

Lemma build_request_store_other (rt : Runtime) (self : BaseApiClient)
    (http_method path : string) (request_dict : loc)
    (http_options : option HttpOptionsOrDict) (σ : store) (l : loc) :
  l <> request_dict ->
  fst (fst (_build_request rt self http_method path request_dict
              http_options σ)) !! l = σ !! l.
Proof.
  intros Hl. unfold _build_request. cbv zeta.
  destruct (patch_for_call rt self http_options) as [p|e];
    [|cbn [fst]; now rewrite lookup_alter_ne by congruence].
  destruct (negb _); [cbn [fst]; now rewrite lookup_alter_ne by congruence|].
  assert (Hσ : match extra_body (patched_options p) with
               | Some eb =>
                   if dict_truthy eb
                   then alter (fun d => recursive_dict_update d eb)
                          request_dict
                          (alter (dict_del_where
                                    (fun key => startswith key "_"))
                             request_dict σ)
                   else alter (dict_del_where (fun key => startswith key "_"))
                          request_dict σ
               | None => alter (dict_del_where (fun key => startswith key "_"))
                           request_dict σ
               end !! l = σ !! l).
  { destruct (extra_body (patched_options p)) as [eb|];
      [destruct (dict_truthy eb)|];
      now rewrite ?lookup_alter_ne by congruence. }
  destruct (_join_url_path rt _ _); [|exact Hσ].
  destruct (_ && _); [exact Hσ|].
  destruct (headers (patched_options p)); exact Hσ.
Qed.

Lemma build_request_keeps_credentials (rt : Runtime) (self : BaseApiClient)
    (http_method path : string) (request_dict : loc)
    (http_options : option HttpOptionsOrDict) (σ : store) :
  _credentials (snd (fst (_build_request rt self http_method path request_dict
                            http_options σ))) = _credentials self.
Proof.
  unfold _build_request. cbv zeta.
  destruct (patch_for_call rt self http_options) as [p|e]; [|reflexivity].
  destruct (negb _); [reflexivity|].
  destruct (_join_url_path rt _ _); [|reflexivity].
  destruct (_ && _); [reflexivity|].
  destruct (headers (patched_options p)); [|reflexivity].
  now destruct p.
Qed.

(** X25: [download_file] makes at most one exchange and never goes
    through the token access or the retry object: when the build fails
    nothing is sent; otherwise one 'get' goes out with the URL, headers
    and timeout of the request built (so nothing adds an Authorization
    header), without body unless an extra body is configured, and the
    call returns the body of the answer or raises what
    [raise_for_response] raises.  The dictionaries the caller holds are
    not touched, and the client's credentials stay as they are. *)
Theorem download_file_makes_one_get {Srv : Type}
    (httpx_request : Srv -> WireRequest -> Srv * WireResponse)
    (rt : Runtime) (self : BaseApiClient) (path : string)
    (http_options : option HttpOptionsOrDict) (σ : store) (srv : Srv) :
  let run := download_file httpx_request rt self path http_options σ srv in
  let σ' := fst (fst (fst (fst run))) in
  let self' := snd (fst (fst (fst run))) in
  let srv' := snd (fst (fst run)) in
  let sent := snd (fst run) in
  let built := _build_request rt self "get" path (fresh (dom σ)) http_options
                 (<[fresh (dom σ) := []]> σ) in
  (forall l d, σ !! l = Some d -> σ' !! l = Some d)
  /\ _credentials self' = _credentials self
  /\ (forall e, snd built = Raise e ->
        sent = [] /\ srv' = srv /\ snd run = Raise e)
  /\ (forall req, snd built = Ok req ->
        exists wire,
          sent = [wire]
          /\ w_method wire = "get" /\ w_url wire = req_url req
          /\ w_headers wire = req_headers req
          /\ w_timeout wire = req_timeout req
          /\ srv' = fst (httpx_request srv wire)
          /\ snd run
             = match raise_for_response rt (snd (httpx_request srv wire)) with
               | Some e => Raise e
               | None => Ok (wire_text (snd (httpx_request srv wire)))
               end
          /\ (forall p, patch_for_call rt self http_options = Ok p ->
                odict_truthy (extra_body (patched_options p)) = false ->
                w_content wire = None)
          /\ (forall p h, patch_for_call rt self http_options = Ok p ->
                headers (patched_options p) = Some h ->
                w_headers wire !! "Authorization" = h !! "Authorization")).
Proof.
  intros run σ' self' srv' sent built.
  subst run σ' self' srv' sent. unfold download_file. fold built.
  pose proof (build_request_store_other rt self "get" path (fresh (dom σ))
                http_options (<[fresh (dom σ) := []]> σ)) as Hother.
  pose proof (build_request_keeps_credentials rt self "get" path
                (fresh (dom σ)) http_options (<[fresh (dom σ) := []]> σ))
    as Hcred.
  fold built in Hother, Hcred.
  assert (Hfresh : forall l d, σ !! l = Some d -> l <> fresh (dom σ)).
  { intros l d Hl ->. apply (is_fresh (dom σ)). apply elem_of_dom. eauto. }
  destruct built as [[σ1 self1] r] eqn:Hbuilt. cbn [fst snd] in *.
  split; [|split; [|split]].
  - intros l d Hl.
    assert (Hσ1 : σ1 !! l = Some d).
    { rewrite (Hother l (Hfresh l d Hl)).
      now rewrite lookup_insert_ne by (intros E; symmetry in E;
                                       exact (Hfresh l d Hl E)). }
    destruct r as [req|e]; [|exact Hσ1].
    now destruct (httpx_request srv _) as [srv1 response].
  - destruct r as [req|e]; [|exact Hcred].
    now destruct (httpx_request srv _) as [srv1 response].
  - intros e He. subst r. auto.
  - intros req Hreq. subst r.
    apply build_request_Ok_iff in Hbuilt
      as (p & h & url & Hp & _ & _ & _ & Hh & Hσ & _ & Hr).
    cbv zeta in Hr.
    eexists. destruct (httpx_request srv _) as [srv1 response] eqn:Hx.
    cbn [fst snd].
    split; [reflexivity|]. rewrite Hx. cbn [fst snd w_method w_url w_headers
                                             w_timeout w_content].
    split; [now rewrite Hr|]. split; [reflexivity|]. split; [reflexivity|].
    split; [reflexivity|]. split; [reflexivity|]. split; [reflexivity|].
    split.
    + intros p0 Hp0 Heb. rewrite Hp in Hp0. injection Hp0 as <-.
      assert (Hempty : σ1 !! fresh (dom σ) = Some []).
      { rewrite Hσ. unfold store_after_build.
        destruct (extra_body (patched_options p)) as [eb|];
          [cbn in Heb; rewrite Heb|];
          now rewrite lookup_alter_eq, lookup_insert_eq. }
      rewrite Hr. cbn [req_data]. unfold data_truthy.
      now rewrite Hempty.
    + intros p0 h0 Hp0 Hh0. rewrite Hp in Hp0. injection Hp0 as <-.
      rewrite Hh in Hh0. injection Hh0 as <-.
      rewrite Hr. cbn [req_headers].
      unfold _populate_server_timeout_header.
      destruct (_get_timeout_in_seconds _) as [t|]; [|reflexivity].
      destruct (_ && _); [|reflexivity].
      now rewrite lookup_insert_ne by discriminate.
Qed.

(** ** Uploads that go wrong *)

Section UploadEdges.
  Context {Srv : Type}.
  Variable httpx_request : Srv -> WireRequest -> Srv * WireResponse.
  Variable CHUNK_SIZE : Z.
  Variable upload_url : string.
  Variable upload_size : Z.
  Variable tmo : option Q.

  (** Against a server that always answers 'active', a chunk is POSTed
      once. *)
Lemma post_chunk_active (remaining : nat) (retry_count : Z)
      (request : WireRequest) (srv : Srv) :
    (forall s rq, upload_status (snd (httpx_request s rq)) = Some "active") ->
    post_chunk httpx_request remaining retry_count request srv
    = (fst (httpx_request srv request),
       [Post request (snd (httpx_request srv request))],
       snd (httpx_request srv request)).
  Proof.
    intros Hactive. pose proof (Hactive srv request) as H.
    destruct remaining; simpl;
      destruct (httpx_request srv request) as [srv1 response];
      cbn [snd] in H; rewrite H; reflexivity.
  Qed.

  (** While the bytes left in the file do not reach the size announced,
      the loop goes on. *)
Lemma upload_loop_short_file (fuel : nat) (file : string) (offset : Z)
      (srv : Srv) :
    (forall s rq, upload_status (snd (httpx_request s rq)) = Some "active") ->
    offset + Z.of_nat (String.length file) < upload_size ->
    let run := upload_loop httpx_request CHUNK_SIZE fuel upload_url upload_size
                 tmo file offset srv in
    snd run = None /\ List.length (posts (snd (fst run))) = fuel.
  Proof.
    intros Hactive. revert file offset srv.
    induction fuel as [|fuel IH]; intros file offset srv Hshort;
      [split; reflexivity|].
    cbn [upload_loop]. unfold file_read.
    pose proof (str_take_length (Z.to_nat CHUNK_SIZE) file) as Htake.
    pose proof (str_drop_length (Z.to_nat CHUNK_SIZE) file) as Hdrop.
    rewrite (post_chunk_active _ _ _ _ Hactive).
    rewrite (Hactive srv). rewrite bool_decide_eq_true_2 by reflexivity.
    cbn [negb].
    destruct (upload_size <=? _) eqn:Hdone; [apply Z.leb_le in Hdone; lia|].
    specialize (IH (str_drop (Z.to_nat CHUNK_SIZE) file)
                   (offset + Z.of_nat (String.length
                      (str_take (Z.to_nat CHUNK_SIZE) file)))
                   (fst (httpx_request srv
                      (chunk_request upload_url upload_size tmo
                         (str_take (Z.to_nat CHUNK_SIZE) file) offset)))).
    cbv zeta in IH.
    destruct (upload_loop httpx_request CHUNK_SIZE fuel upload_url upload_size
                tmo _ _ _) as [[srv2 more] exit].
    cbn [fst snd] in *.
    destruct IH as [-> Hlen]; [lia|].
    split; [reflexivity|]. unfold posts in *.
    cbn [flat_map app List.length]. now rewrite Hlen.
  Qed.
End UploadEdges.

(** X26: when the server never sends an upload status, the first chunk is
    POSTed three times, with sleeps of 1, 2 and 4 seconds after the
    answers (also after the last one), and the upload then fails with
    'Failed to upload file: Upload status is not finalized.', whatever
    the file and the size announced. *)
Theorem upload_without_status_fails_after_three_posts {Srv : Type}
    (httpx_request : Srv -> WireRequest -> Srv * WireResponse)
    (CHUNK_SIZE : Z) (fuel : nat) (self : BaseApiClient)
    (file upload_url : string) (upload_size : Z)
    (http_options : option HttpOptionsOrDict) (srv : Srv) :
  (forall s rq, ostr_truthy (upload_status (snd (httpx_request s rq))) = false) ->
  fuel <> 0%nat ->
  let tmo := _get_timeout_in_seconds (upload_timeout self http_options) in
  let rq := chunk_request upload_url upload_size tmo
              (fst (file_read CHUNK_SIZE file)) 0 in
  exists r1 r2 r3,
    snd (fst (_upload_fd httpx_request CHUNK_SIZE fuel self file upload_url
                upload_size http_options srv))
    = [Post rq r1; SleepFor 1; Post rq r2; SleepFor 2; Post rq r3; SleepFor 4]
    /\ snd (_upload_fd httpx_request CHUNK_SIZE fuel self file upload_url
              upload_size http_options srv)
       = Some (Raise not_finalized_error).
Proof.
  intros Hnone Hfuel tmo rq.
  destruct fuel as [|fuel]; [congruence|].
  unfold _upload_fd. fold tmo. cbn [upload_loop].
  destruct (file_read CHUNK_SIZE file) as [file_chunk rest] eqn:Hread.
  cbn [fst] in rq. fold rq.
  unfold MAX_RETRY_COUNT. cbn [Nat.sub post_chunk].
  pose proof (Hnone srv rq) as H1.
  destruct (httpx_request srv rq) as [srv1 r1]. cbn [snd] in H1. rewrite H1.
  pose proof (Hnone srv1 rq) as H2.
  destruct (httpx_request srv1 rq) as [srv2 r2]. cbn [snd] in H2. rewrite H2.
  pose proof (Hnone srv2 rq) as H3.
  destruct (httpx_request srv2 rq) as [srv3 r3]. cbn [snd] in H3. rewrite H3.
  assert (Hna : upload_status r3 <> Some "active")
    by (intros E; rewrite E in H3; discriminate).
  assert (Hnf : upload_status r3 <> Some "final")
    by (intros E; rewrite E in H3; discriminate).
  rewrite (bool_decide_eq_false_2 _ Hna). cbn [negb fst snd].
  rewrite (bool_decide_eq_false_2 _ Hnf). cbn [negb].
  exists r1, r2, r3. split; reflexivity.
Qed.

(** The theorem at a server that sends no headers at all. *)
Lemma upload_without_status_fails_after_three_posts_witness :
  snd (_upload_fd no_status 6 1 example_client "0123456789" "https://upload"
         10 None 0%nat)
  = Some (Raise not_finalized_error).
Proof.
  destruct (upload_without_status_fails_after_three_posts no_status 6 1
              example_client "0123456789" "https://upload" 10 None 0%nat)
    as (r1 & r2 & r3 & _ & H).
  - intros s rq. reflexivity.
  - discriminate.
  - exact H.
Defined.

(** X27: when the file holds fewer bytes than the size announced and the
    server answers 'active' to every POST, the upload never ends: it
    neither returns nor raises, and after the file is exhausted it goes on
    posting empty chunks, one POST for every round of the loop. *)
Theorem upload_of_short_file_never_ends {Srv : Type}
    (httpx_request : Srv -> WireRequest -> Srv * WireResponse)
    (CHUNK_SIZE : Z) (self : BaseApiClient)
    (file upload_url : string) (upload_size : Z)
    (http_options : option HttpOptionsOrDict) (srv : Srv) :
  (forall s rq, upload_status (snd (httpx_request s rq)) = Some "active") ->
  Z.of_nat (String.length file) < upload_size ->
  forall fuel,
    snd (_upload_fd httpx_request CHUNK_SIZE fuel self file upload_url
           upload_size http_options srv) = None
    /\ List.length
         (posts (snd (fst (_upload_fd httpx_request CHUNK_SIZE fuel self file
                             upload_url upload_size http_options srv))))
       = fuel.
Proof.
  intros Hactive Hshort fuel. unfold _upload_fd.
  pose proof (upload_loop_short_file httpx_request CHUNK_SIZE upload_url
                upload_size
                (_get_timeout_in_seconds (upload_timeout self http_options))
                fuel file 0 srv Hactive) as H.
  cbv zeta in H.
  destruct (upload_loop httpx_request CHUNK_SIZE fuel upload_url upload_size
              _ file 0 srv) as [[srv' events] exit].
  cbn [fst snd] in *. destruct H as [-> Hlen]; [lia|]. auto.
Qed.

(** The theorem at a file of four bytes announced as ten: after a hundred
    rounds the upload has not ended. *)
Lemma upload_of_short_file_never_ends_witness :
  snd (_upload_fd always_active 6 100 example_client "0123" "https://upload"
         10 None 0%nat) = None.
Proof.
  refine (proj1 (upload_of_short_file_never_ends always_active 6 example_client
                   "0123" "https://upload" 10 None 0%nat _ _ 100%nat)).
  - intros s rq. reflexivity.
  - vm_compute. reflexivity.
Defined.

(** ** The lock of the token access, whatever the refresh does *)

Module TokenLockFacts.
Import TokenRace TokenLock.

Section AnyRefresh.
  Variable refresh : Credentials -> result Credentials.

Lemma caller_step_cases (p : path) (w : shared) (c : pc) (w' : shared) (c' : pc) :
    caller_step refresh p w c = Some (w', c') ->
    (holds_lock c = false /\ holds_lock c' = false /\ w' = w
     /\ (c = Start))
    \/ (c = WaitLock /\ c' = Locked /\ lock_held w = false
        /\ lock_held w' = true)
    \/ (c = Locked /\ c' = Refreshing /\ lock_held w' = true)
    \/ (holds_lock c = true /\ has_returned c' = true /\ lock_held w' = false).
  Proof.
    destruct c as [| | | |r]; cbn [caller_step].
    - destruct p.
      + intros H. injection H as <- <-. auto.
      + destruct (needs_refresh (credentials w));
          intros H; injection H as <- <-; auto.
    - destruct (lock_held w) eqn:Hl; [discriminate|].
      intros H. injection H as <- <-. right. left. auto.
    - destruct (needs_refresh (credentials w));
        intros H; injection H as <- <-.
      + right. right. left. auto.
      + right. right. right. auto.
    - destruct (refresh (credentials w));
        intros H; injection H as <- <-; right; right; right; auto.
    - discriminate.
  Qed.

Lemma race_lock_discipline (c : Credentials) (n : nat) :
    lock_discipline (race c n).
  Proof.
    assert (Hstart : forall i x, callers (race c n) !! i = Some x -> x = Start).
    { intros i x H. simpl in H. apply lookup_replicate in H as [-> _].
      reflexivity. }
    split; simpl.
    - intros i x H Hh. apply Hstart in H. subst. discriminate.
    - intros i j ci cj H _ Hh. apply Hstart in H. subst. discriminate.
    - discriminate.
  Qed.

Lemma step_lock_discipline (p : path) (s : system) (i : nat) :
    lock_discipline s -> lock_discipline (schedule_one refresh p s i).
  Proof.
    intros [I1 I2 I3]. unfold schedule_one.
    destruct (callers s !! i) as [c|] eqn:Hi; [|now split].
    destruct (caller_step refresh p (world s) c) as [[w' c']|] eqn:Hstep;
      [|now split].
    assert (Hlt : (i < List.length (callers s))%nat)
      by (eapply lookup_lt_Some; eauto).
    assert (Hlook : forall j x, <[i := c']> (callers s) !! j = Some x ->
              (j = i /\ x = c') \/ (j <> i /\ callers s !! j = Some x)).
    { intros j x H. destruct (decide (j = i)) as [->|Hne].
      - rewrite list_lookup_insert_eq in H by exact Hlt.
        injection H as <-. auto.
      - rewrite list_lookup_insert_ne in H by congruence. auto. }
    destruct (caller_step_cases p _ _ _ _ Hstep)
      as [(Hc & Hc' & -> & _)|[(-> & -> & Hfree & Hheld)
         |[(-> & -> & Hheld)|(Hc & Hc' & Hfree)]]];
      split; cbn [world callers].
    - (* a step outside the lock *)
      intros j x H Hh. destruct (Hlook j x H) as [[-> ->]|[_ Hj]];
        [congruence | eauto].
    - intros j k cj ck Hj Hk Hhj Hhk.
      destruct (Hlook j cj Hj) as [[-> ->]|[_ Hj']]; [congruence|].
      destruct (Hlook k ck Hk) as [[-> ->]|[_ Hk']]; [congruence|]. eauto.
    - intros Hl. destruct (I3 Hl) as (j & x & Hj & Hh).
      exists j, x. split; [|exact Hh].
      rewrite list_lookup_insert_ne; [exact Hj|].
      intros <-. rewrite Hi in Hj. injection Hj as <-. congruence.
    - (* the lock is acquired *)
      intros; exact Hheld.
    - assert (Hnone : forall j x, callers s !! j = Some x ->
                                  holds_lock x = false).
      { intros j x Hj. destruct (holds_lock x) eqn:Hh; [|reflexivity].
        rewrite (I1 _ _ Hj Hh) in Hfree. discriminate. }
      intros j k cj ck Hj Hk Hhj Hhk.
      destruct (Hlook j cj Hj) as [[-> ->]|[_ Hj']];
        destruct (Hlook k ck Hk) as [[-> ->]|[_ Hk']]; auto.
      + rewrite (Hnone _ _ Hk') in Hhk. discriminate.
      + rewrite (Hnone _ _ Hj') in Hhj. discriminate.
      + rewrite (Hnone _ _ Hk') in Hhk. discriminate.
    - intros _. exists i, Locked. split; [|reflexivity].
      now apply list_lookup_insert_eq.
    - (* the holder starts the refresh *)
      intros; exact Hheld.
    - intros j k cj ck Hj Hk Hhj Hhk.
      destruct (Hlook j cj Hj) as [[-> ->]|[_ Hj']];
        destruct (Hlook k ck Hk) as [[-> ->]|[_ Hk']]; auto.
      + symmetry. eapply (I2 k i); eauto.
      + eapply (I2 j i); eauto.
      + eauto.
    - intros _. exists i, Refreshing. split; [|reflexivity].
      now apply list_lookup_insert_eq.
    - (* the holder releases the lock *)
      intros j x H Hh. destruct (Hlook j x H) as [[-> ->]|[Hne Hj]].
      + destruct c'; discriminate.
      + elim Hne. eapply (I2 j i); eauto.
    - intros j k cj ck Hj Hk Hhj Hhk.
      destruct (Hlook j cj Hj) as [[-> ->]|[Hne Hj']].
      + destruct c'; discriminate.
      + elim Hne. eapply (I2 j i); eauto.
    - congruence.
  Qed.

Lemma run_lock_discipline (p : path) (s : system) (schedule : list nat) :
    lock_discipline s -> lock_discipline (run refresh p s schedule).
  Proof.
    revert s. induction schedule as [|i rest IH]; intros s Hs; [exact Hs|].
    simpl. apply IH. now apply step_lock_discipline.
  Qed.

Lemma all_returned_no_holder (s : system) :
    lock_discipline s -> all_returned s = true -> lock_held (world s) = false.
  Proof.
    intros [_ _ I3] Hall.
    destruct (lock_held (world s)) eqn:Hl; [|reflexivity].
    destruct (I3 eq_refl) as (i & c & Hi & Hh).
    unfold all_returned in Hall. rewrite forallb_forall in Hall.
    assert (Hr : has_returned c = true).
    { apply Hall. apply list_elem_of_In. eapply list_elem_of_lookup_2; eauto. }
    destruct c; discriminate.
  Qed.

  (** A caller that holds the lock, or finds it free, can move. *)
Lemma can_move_or_returned (p : path) (s : system) :
    lock_discipline s -> all_returned s = true \/ can_move refresh p s.
  Proof.
    intros [I1 I2 I3].
    destruct (all_returned s) eqn:Hall; [auto|]. right.
    destruct (lock_held (world s)) eqn:Hl.
    - destruct (I3 eq_refl) as (i & c & Hi & Hh).
      exists i, c. split; [exact Hi|].
      destruct c; try discriminate; cbn [caller_step].
      + destruct (needs_refresh _); discriminate.
      + destruct (refresh _); discriminate.
    - unfold all_returned in Hall.
      assert (Hex : exists c, In c (callers s) /\ has_returned c = false).
      { clear -Hall. induction (callers s) as [|c l IH]; [discriminate|].
        simpl in Hall. destruct (has_returned c) eqn:Hc.
        - destruct (IH Hall) as (x & Hx & Hr). exists x. simpl. auto.
        - exists c. simpl. auto. }
      destruct Hex as (c & Hin & Hc).
      apply list_elem_of_In, list_elem_of_lookup in Hin as [i Hi].
      exists i, c. split; [exact Hi|].
      destruct c; try discriminate; cbn [caller_step].
      + destruct p; [discriminate|].
        destruct (needs_refresh _); discriminate.
      + rewrite Hl. discriminate.
      + destruct (needs_refresh _); discriminate.
      + destruct (refresh _); discriminate.
  Qed.
End AnyRefresh.

(** X28: whatever the refresh does, success or failure, and whatever the
    interleaving: at most one caller is between acquiring and releasing
    the lock of its path, the lock is held exactly while some caller is,
    and it is free once all callers have returned, also after a refresh
    that raised. *)
Theorem token_lock_is_exclusive_and_released
    (refresh : Credentials -> result Credentials) (p : path)
    (c : Credentials) (n : nat) (schedule : list nat) :
  let s := run refresh p (race c n) schedule in
  (forall i j ci cj,
      callers s !! i = Some ci -> callers s !! j = Some cj ->
      holds_lock ci = true -> holds_lock cj = true -> i = j)
  /\ (lock_held (world s) = true <->
      exists i ci, callers s !! i = Some ci /\ holds_lock ci = true)
  /\ (all_returned s = true -> lock_held (world s) = false).
Proof.
  intros s.
  assert (Hinv : lock_discipline s)
    by (apply run_lock_discipline, race_lock_discipline).
  split; [exact (ld_one_holder s Hinv)|]. split.
  - split; [exact (ld_lock_has_holder s Hinv)|].
    intros (i & ci & Hi & Hh). exact (ld_holder_locks s Hinv i ci Hi Hh).
  - now apply all_returned_no_holder.
Qed.

(** X29: the token access cannot deadlock: in every state the callers can
    reach, on either path and whatever the refresh does, either all
    callers have returned or some caller can take a step (the holder of
    the lock, or any caller when the lock is free). *)
Theorem token_access_cannot_deadlock
    (refresh : Credentials -> result Credentials) (p : path)
    (c : Credentials) (n : nat) (schedule : list nat) :
  let s := run refresh p (race c n) schedule in
  all_returned s = true
  \/ exists i ci,
       callers s !! i = Some ci
       /\ caller_step refresh p (world s) ci <> None
       /\ schedule_one refresh p s i <> s.
Proof.
  intros s.
  assert (Hinv : lock_discipline s)
    by (apply run_lock_discipline, race_lock_discipline).
  destruct (can_move_or_returned refresh p s Hinv) as [H|(i & ci & Hi & Hstep)];
    [auto|right].
  exists i, ci. split; [exact Hi|]. split; [exact Hstep|].
  unfold schedule_one. rewrite Hi.
  destruct (caller_step refresh p (world s) ci) as [[w' c']|] eqn:E;
    [|congruence].
  intros Heq.
  assert (Hc : callers {| world := w'; callers := <[i := c']> (callers s) |}
               !! i = Some ci) by (now rewrite Heq).
  cbn [callers] in Hc.
  rewrite list_lookup_insert_eq in Hc by (eapply lookup_lt_Some; eauto).
  injection Hc as ->.
  destruct ci as [| | | |r]; cbn [caller_step] in E.
  - destruct p; [discriminate|].
    destruct (needs_refresh _); discriminate.
  - destruct (lock_held (world s)); discriminate.
  - destruct (needs_refresh (credentials (world s))); discriminate.
  - destruct (refresh _); discriminate.
  - discriminate.
Qed.

Section ValidToken.
  Variable refresh : Credentials -> result Credentials.
  Variable c : Credentials.
  Hypothesis c_valid : needs_refresh c = false.

Lemma race_quiet (p : path) (n : nat) : quiet c p (race c n).
  Proof.
    repeat split; auto; intros; simpl in *;
      match goal with
      | H : replicate _ _ !! _ = Some _ |- _ =>
          apply lookup_replicate in H as [-> _]
      end; try discriminate; auto.
  Qed.

Lemma step_quiet (p : path) (s : system) (i : nat) :
    quiet c p s -> quiet c p (schedule_one refresh p s i).
  Proof.
    intros Hq. pose proof Hq as (Hc & Hr & Hl & Hall). unfold schedule_one.
    destruct (callers s !! i) as [x|] eqn:Hi; [|exact Hq].
    destruct (Hall i x Hi) as (Hx1 & Hx2 & Hx3).
    assert (Hlt : (i < List.length (callers s))%nat)
      by (eapply lookup_lt_Some; eauto).
    assert (Hset : forall w' x',
              credentials w' = c -> refreshes w' = 0%nat ->
              (p = Suspending -> lock_held w' = false) ->
              x' <> Refreshing ->
              (forall r, x' = Returned r -> r = token_result c) ->
              (p = Suspending -> x' = Start \/ has_returned x' = true) ->
              quiet c p {| world := w'; callers := <[i := x']> (callers s) |}).
    { intros w' x' H1 H2 H3 H4 H5 H6.
      split; [exact H1|]. split; [exact H2|]. split; [exact H3|].
      cbn [callers]. intros j y Hj.
      destruct (decide (j = i)) as [->|Hne].
      - rewrite list_lookup_insert_eq in Hj by exact Hlt.
        injection Hj as <-. auto.
      - rewrite list_lookup_insert_ne in Hj by congruence.
        exact (Hall j y Hj). }
    destruct x as [| | | |r]; cbn [caller_step]; rewrite ?Hc, ?c_valid.
    - destruct p.
      + apply Hset; auto; try discriminate.
      + apply Hset; auto; try discriminate.
        * intros r H. now injection H as <-.
    - destruct (lock_held (world s)) eqn:Hheld; [exact Hq|].
      destruct p; [|destruct (Hx3 eq_refl); discriminate].
      apply Hset; cbn; auto; discriminate.
    - apply Hset; cbn; auto; try discriminate.
      intros r H. now injection H as <-.
    - congruence.
    - exact Hq.
  Qed.

Lemma run_quiet (p : path) (s : system) (schedule : list nat) :
    quiet c p s -> quiet c p (run refresh p s schedule).
  Proof.
    revert s. induction schedule as [|i rest IH]; intros s Hs; [exact Hs|].
    simpl. apply IH. now apply step_quiet.
  Qed.
End ValidToken.

(** X30: while the credentials hold a token that is not expired, no
    caller refreshes and every caller that returns, returns that token;
    on the suspend-capable path no caller ever takes the lock, while on
    the blocking path a caller takes it even so. *)
Theorem valid_token_is_read_without_refresh
    (refresh : Credentials -> result Credentials) (p : path)
    (c : Credentials) (n : nat) (schedule : list nat) :
  needs_refresh c = false ->
  let s := run refresh p (race c n) schedule in
  refreshes (world s) = 0%nat
  /\ credentials (world s) = c
  /\ (forall i r, callers s !! i = Some (Returned r) ->
        r = Ok (default "" (token c)))
  /\ (p = Suspending -> lock_held (world s) = false)
  /\ lock_held (world (run refresh Blocking (race c 1) [0; 0]%nat)) = true.
Proof.
  intros Hc s.
  destruct (run_quiet refresh c Hc p (race c n) schedule (race_quiet c p n))
    as (H1 & H2 & H3 & H4).
  split; [exact H2|]. split; [exact H1|]. split; [|split; [exact H3|]].
  - intros i r Hi. destruct (H4 i _ Hi) as (_ & Hr & _).
    rewrite (Hr r eq_refl). unfold token_result.
    unfold needs_refresh in Hc. apply orb_false_iff in Hc as [_ Hc].
    now rewrite Hc.
  - reflexivity.
Qed.

(** The theorem at three suspend-capable callers taking turns. *)
Lemma valid_token_is_read_without_refresh_witness :
  needs_refresh valid_credentials = false
  /\ refreshes (world (run refresh_down Suspending (race valid_credentials 3)
                         [0; 1; 2; 0; 1; 2]%nat)) = 0%nat.
Proof.
  split; [reflexivity|].
  exact (proj1 (valid_token_is_read_without_refresh refresh_down Suspending
                  valid_credentials 3 [0; 1; 2; 0; 1; 2]%nat eq_refl)).
Defined.
End TokenLockFacts.
